(** * Midlife-Wealth-Tax: the optimisation core

    A shallow embedding of the optimisation engine of the application and
    the properties proved of it.  The development follows the source tree:

    - [JS]: the JavaScript number runtime the code runs on.  A JS number is
      an IEEE-754 binary64 value, modelled by Rocq's primitive [float]; the
      comparison operators, [isFinite], [isNaN], [Math.max], [Math.min],
      [Math.round], [%] and [Number.isInteger] are defined on it.
    - [Runtime]: what the code imports from outside the repository,
      [Math.exp], [Math.log], [Math.pow] (implementation-approximated in
      ECMAScript) and [numeric.uncmin] (numeric.js, loaded from a CDN).
      Every function that uses them is parametric in the runtime.
    - math/UtilityFunctions.js: [kappa], [U2], [lifetimeUtility],
      [checkConstraints].
    - utils/ParameterValidator.js: [validate], [DEFAULT_PARAMETERS].
    - services/OptimizationService.js: the fields of the service object as
      a record, its methods as functions from a service to a result and
      the next service.
    - [Reference] and [Scenario]: one concrete runtime and a few concrete
      services, to run the code on concrete inputs.
    - math/UtilityFunctions.js, second part: [initialConsumption1/2],
      [createWealthPath1/2], [createConsumptionPath1/2].
    - math/MathCache.js: [MathCache] and the memoised [exp], [pow] and [log]
      of [ExponentialCache].
    - services/VisualizationService.js: the data of the tax-effect sweep and
      of the wealth-trajectory chart.

    Conventions.  A thrown exception is a constructor of the result
    ([Throw], [Throws]); a [try]/[catch] is a match on it.  The counts in
    the options ([gridSteps], [cacheSize], [maxIterations]) are natural
    numbers, [Date.now()] and [cacheTTL] are integers (milliseconds); the
    readings of the clock during a call are an argument of the call.  The
    [async] methods are modelled as run to completion, one call after the
    other.  [console.warn] and the timing statistics have no counterpart.
*)

From Stdlib Require Import ZArith Floats List Bool Lia String.
From stdpp Require Import base option list countable gmap strings.
Import ListNotations.

Set Default Proof Using "Type".
Set Warnings "-inexact-float,-level-tolerance,-clear-no-such-hyp".

(* ===================================================================== *)
(** * The JavaScript number runtime *)
(* ===================================================================== *)

Module JS.

#[local] Open Scope float_scope.

(** Relational operators on numbers.  [a >= b] is IEEE [b <= a]: it is
    false as soon as one side is NaN. *)
Definition le (x y : float) : bool := x <=? y.
Definition lt (x y : float) : bool := x <? y.
Definition ge (x y : float) : bool := y <=? x.
Definition gt (x y : float) : bool := y <? x.

(** [===] and [!==] on numbers ([NaN !== NaN], [0 === -0]). *)
Definition strict_eq (x y : float) : bool := x =? y.
Definition strict_ne (x y : float) : bool := negb (x =? y).

(** The global [isFinite] and [isNaN]. *)
Definition isNaN (x : float) : bool := PrimFloat.is_nan x.
Definition isFinite (x : float) : bool :=
  negb (PrimFloat.is_nan x || PrimFloat.is_infinity x).

(** ToBoolean on a number: [0], [-0] and [NaN] are falsy. *)
Definition truthy (x : float) : bool :=
  negb (PrimFloat.is_nan x || PrimFloat.is_zero x).

(** [x || d] on numbers. *)
Definition or_else (x d : float) : float := if truthy x then x else d.

(** The number with the value of an integer (rounded to nearest when the
    integer has more than 53 significant bits). *)
Definition of_Z (z : Z) : float :=
  SF2Prim (binary_normalize prec emax z 0 false).

Definition of_nat (n : nat) : float := of_Z (Z.of_nat n).

Definition Math_abs (x : float) : float := PrimFloat.abs x.

(** [Math.max] and [Math.min] of two numbers: NaN if either is NaN, and
    [+0] is larger than [-0]. *)
Definition Math_max (a b : float) : float :=
  if PrimFloat.is_nan a || PrimFloat.is_nan b then nan
  else if a <? b then b
  else if b <? a then a
  else if PrimFloat.get_sign a then b else a.

Definition Math_min (a b : float) : float :=
  if PrimFloat.is_nan a || PrimFloat.is_nan b then nan
  else if a <? b then a
  else if b <? a then b
  else if PrimFloat.get_sign a then a else b.

(** [Math.round]: the integer nearest to [x], ties towards [+∞]; the
    result keeps the sign of [x] when it is zero. *)
Definition Math_round (x : float) : float :=
  match Prim2SF x with
  | S754_finite s m e =>
      if (0 <=? e)%Z then x
      else
        let d := (2 ^ (- e))%Z in
        let sm := if s then Z.neg m else Z.pos m in
        let n := ((2 * sm + d) / (2 * d))%Z in
        if (n =? 0)%Z then (if s then neg_zero else zero) else of_Z n
  | _ => x
  end.

(** The remainder operator [x % y] (exact, sign of the dividend). *)
Definition rem (x y : float) : float :=
  match Prim2SF x, Prim2SF y with
  | S754_nan, _ | _, S754_nan => nan
  | S754_infinity _, _ => nan
  | _, S754_zero _ => nan
  | S754_zero _, _ => x
  | _, S754_infinity _ => x
  | S754_finite sx mx ex, S754_finite sy my ey =>
      let e := Z.min ex ey in
      let X := (Z.pos mx * 2 ^ (ex - e))%Z in
      let Y := (Z.pos my * 2 ^ (ey - e))%Z in
      let R := (X mod Y)%Z in
      if (R =? 0)%Z then (if sx then neg_zero else zero)
      else
        let f := SF2Prim (binary_normalize prec emax R e false) in
        if sx then - f else f
  end.

Definition Number_isInteger (x : float) : bool :=
  match Prim2SF x with
  | S754_zero _ => true
  | S754_finite _ m e => (0 <=? e)%Z || (Z.pos m mod 2 ^ (- e) =? 0)%Z
  | _ => false
  end.

(** The largest integer not above a number, for finite numbers. *)
Definition floor_Z (x : float) : Z :=
  match Prim2SF x with
  | S754_finite s m e =>
      let sm := if s then Z.neg m else Z.pos m in
      if (0 <=? e)%Z then (sm * 2 ^ e)%Z else (sm / 2 ^ (- e))%Z
  | _ => 0%Z
  end.

End JS.

Import JS.
Open Scope float_scope.

(* ===================================================================== *)
(** * What the code imports from outside the repository *)
(* ===================================================================== *)

(** The object [numeric.uncmin] returns: the point reached, the objective
    there and the number of iterations performed. *)
Record UncminResult := {
  solution : float * float;
  f : float;
  u_iterations : float
}.

(** A call of [numeric.uncmin] throws, or returns a value that may be
    falsy ([None]). *)
Inductive UncminOutcome :=
| UncminThrows
| UncminReturns (res : option UncminResult).

(** [Math.exp], [Math.log] and [Math.pow] are implementation-approximated
    and [numeric.uncmin] is third-party code: the embedding is parametric
    in them, and nothing is assumed of them.  [uncmin objective seed
    tolerance maxIterations] stands for the call the code makes,
    [numeric.uncmin(objective, seed, tolerance, null, maxIterations)]: the
    gradient argument is [null] at every call site, so it is no argument
    here. *)
Class Runtime := {
  Math_exp : float -> float;
  Math_log : float -> float;
  Math_pow : float -> float -> float;
  uncmin : (float * float -> float) -> float * float -> float -> nat ->
           UncminOutcome
}.

(** The iteration count a minimizer reports is its loop counter: a finite
    number.  Where a statement needs this of the runtime it says so. *)
Definition counts_iterations (RT : Runtime) : Prop :=
  forall objective x0 tol maxit res,
    uncmin objective x0 tol maxit = UncminReturns (Some res) ->
    isFinite (u_iterations res) = true.

(** What numeric.js 1.2.6 (the version index.html loads) does on the
    call: [uncmin] puts its finite-difference gradient in the place of
    the gradient argument only when that argument is [undefined], and it
    evaluates the gradient at the seed before its first iteration.  With
    [null] there, that evaluation calls [null]: the call throws, whatever
    the objective, the seed, the tolerance and the iteration cap are. *)
Definition null_gradient_throws (RT : Runtime) : Prop :=
  forall objective x0 tol maxit,
    uncmin objective x0 tol maxit = UncminThrows.

(* ===================================================================== *)
(** * math/UtilityFunctions.js *)
(* ===================================================================== *)

(** The messages of the [MathematicalError]s the module throws. *)
Inductive MathematicalError :=
| GammaZero                (* Gamma cannot be zero in kappa calculation *)
| KappaNonFinite           (* Kappa calculation produced non-finite result *)
| TimeNotPositive          (* Time period T must be positive *)
| InsufficientWealth       (* expRT * A - B <= 0 *)
| Term2NotPositive         (* Invalid utility calculation (term2 <= 0) *)
| ComplexTerm1             (* fractional power of negative term1 *)
| ComplexTerm2             (* fractional power of negative term2 *)
| U2NonFinite.             (* U2 calculation produced non-finite result *)

(** A call either returns a value or throws a [MathematicalError]. *)
Inductive completion (A : Type) :=
| Return (a : A)
| Throw (e : MathematicalError).
Arguments Return {A} a.
Arguments Throw {A} e.

Definition returned {A} (c : completion A) : bool :=
  match c with Return _ => true | Throw _ => false end.

Definition sentinel : float := -5000.

Record Parameters := {
  r : float;
  rho : float;
  gamma : float;
  eta : float;
  beta : float;
  tau : float;
  t1 : float;
  t2 : float;
  w0 : option float        (* [undefined] when the caller leaves it out *)
}.

(** [const { ..., w0 = 1 } = parameters] *)
Definition w0_or_default (p : Parameters) : float := default 1 (w0 p).

Section UtilityFunctions.

Context {RT : Runtime}.

Definition kappa (r rho gamma : float) : completion float :=
  if strict_eq gamma 0 then Throw GammaZero
  else
    let result := (r * (gamma - 1) + rho) / gamma in
    if negb (isFinite result) then Throw KappaNonFinite
    else Return result.

Definition U2 (r rho gamma T A B : float) : completion float :=
  if le T 0 then Throw TimeNotPositive
  else
    let expRT := Math_exp (r * T) in
    let term1 := expRT * A - B in
    if le term1 0 then Throw InsufficientWealth
    else
      match kappa r rho gamma with
      | Throw e => Throw e
      | Return kappaVal =>
          let expNegKappaT := Math_exp (- kappaVal * T) in
          let expRminusRhoToverGamma := Math_exp ((r - rho) * T / gamma) in
          let term2 := expRT - expRminusRhoToverGamma in
          if le term2 0 then Throw Term2NotPositive
          else if strict_ne gamma 1 && (lt term1 0 && strict_ne (rem (1 - gamma) 1) 0)
          then Throw ComplexTerm1
          else if strict_ne gamma 1 && (lt term2 0 && strict_ne (rem (1 - gamma) 1) 0)
          then Throw ComplexTerm2
          else
            let result :=
              if strict_eq gamma 1 then
                Math_log term1 * (1 - expNegKappaT) / kappaVal
                - Math_log term2
              else
                let gammaTerm := 1 - gamma in
                let num := Math_pow term1 gammaTerm * (1 - expNegKappaT)
                           * Math_pow kappaVal (- gamma) in
                let den := gammaTerm * Math_pow term2 gammaTerm in
                num / den in
            if negb (isFinite result) || isNaN result then Throw U2NonFinite
            else Return result
      end.

(** The whole body runs inside [try { ... } catch (error) { return -5000 }]. *)
Definition lifetimeUtility
    (r rho gamma t1 t2 beta eta tau w0 w1 w2 : float) : float :=
  match U2 r rho gamma t1 w0 w1 with
  | Throw _ => sentinel
  | Return u1 =>
      if negb (isFinite u1) || strict_eq u1 neg_infinity then sentinel
      else
        match U2 r rho gamma t2 (w1 * (1 - tau)) w2 with
        | Throw _ => sentinel
        | Return u2 =>
            if negb (isFinite u2) || strict_eq u2 neg_infinity then sentinel
            else if le w2 0 then sentinel
            else
              let bequest : option float :=
                if strict_eq eta 1 then
                  Some (beta * Math_log (Math_max w2 1e-10))
                else if le w2 0 && strict_ne (rem (1 - eta) 1) 0 then None
                else
                  let etaTerm := 1 - eta in
                  Some (beta * Math_pow (Math_max w2 1e-10) etaTerm / etaTerm) in
              match bequest with
              | None => sentinel
              | Some bequestUtility =>
                  if negb (isFinite bequestUtility) || isNaN bequestUtility
                  then sentinel
                  else
                    let totalUtility :=
                      u1 + Math_exp (- rho * t1) * u2 + bequestUtility in
                    if negb (isFinite totalUtility) || isNaN totalUtility
                    then sentinel
                    else totalUtility
              end
        end
  end.

Definition checkConstraints (w1 w2 : float) (parameters : Parameters) : bool :=
  let r := r parameters in
  let t1 := t1 parameters in
  let t2 := t2 parameters in
  let tau := tau parameters in
  let w0 := w0_or_default parameters in
  if le w1 0 || le w2 0 then false
  else
    let maxW1 := Math_exp (r * t1) * w0 in
    if ge w1 maxW1 then false
    else
      let maxW2 := w1 * (1 - tau) * Math_exp (r * t2) in
      if ge w2 maxW2 then false
      else true.

(** *** The quantities the specification names

    They are the expressions the code computes, given names so that
    statements can mention them. *)

Definition term1 (r T A B : float) : float := Math_exp (r * T) * A - B.

Definition term2 (r rho gamma T : float) : float :=
  Math_exp (r * T) - Math_exp ((r - rho) * T / gamma).

(** The closed form of the period utility: the logarithmic form when
    [gamma] is [1], the power form otherwise, with [kappa] as [kappa]
    computes it. *)
Definition closedForm (r rho gamma T A B : float) : completion float :=
  match kappa r rho gamma with
  | Throw e => Throw e
  | Return k =>
      Return
        (if strict_eq gamma 1 then
           Math_log (term1 r T A B) * (1 - Math_exp (- k * T)) / k
           - Math_log (term2 r rho gamma T)
         else
           Math_pow (term1 r T A B) (1 - gamma) * (1 - Math_exp (- k * T))
           * Math_pow k (- gamma)
           / ((1 - gamma) * Math_pow (term2 r rho gamma T) (1 - gamma)))
  end.

(** *** The closed form as the specification writes it

    [kappa = (r (gamma - 1) + rho) / gamma] and the two forms of the period
    utility over it, as plain expressions of the numbers: nothing is tested
    and nothing is thrown.  They are what the statements compare the value
    of [U2] with. *)

Definition kappaFormula (r rho gamma : float) : float :=
  (r * (gamma - 1) + rho) / gamma.

Definition periodUtilityFormula (r rho gamma T A B : float) : float :=
  let kappa := kappaFormula r rho gamma in
  if strict_eq gamma 1 then
    Math_log (term1 r T A B) * (1 - Math_exp (- kappa * T)) / kappa
    - Math_log (term2 r rho gamma T)
  else
    Math_pow (term1 r T A B) (1 - gamma) * (1 - Math_exp (- kappa * T))
    * Math_pow kappa (- gamma)
    / ((1 - gamma) * Math_pow (term2 r rho gamma T) (1 - gamma)).

(** The bequest term of the lifetime utility. *)
Definition bequestValue (beta eta w2 : float) : float :=
  if strict_eq eta 1 then beta * Math_log (Math_max w2 1e-10)
  else beta * Math_pow (Math_max w2 1e-10) (1 - eta) / (1 - eta).

(** The two upper bounds of [checkConstraints]. *)
Definition maxW1 (parameters : Parameters) : float :=
  Math_exp (r parameters * t1 parameters) * w0_or_default parameters.

Definition maxW2 (w1 : float) (parameters : Parameters) : float :=
  w1 * (1 - tau parameters) * Math_exp (r parameters * t2 parameters).

End UtilityFunctions.

(* ===================================================================== *)
(** * utils/ParameterValidator.js *)
(* ===================================================================== *)

Module ParameterValidator.

#[local] Open Scope string_scope.

(** A rule maps the value of a field ([None] when the field is
    [undefined]) to an error message, or to [None] when it is accepted. *)
Definition Rule := option float -> option string.

Definition createTypeRule : Rule := fun value =>
  match value with
  | None => Some "must be a number"
  | Some _ => None
  end.

Definition createRangeRule (min max : float) (message : string) : Rule :=
  fun value =>
    match value with
    | Some v => if lt v min || gt v max then Some message else None
    | None => None
    end.

Definition createFiniteRule : Rule := fun value =>
  match value with
  | Some v => if negb (isFinite v) then Some "must be a finite number" else None
  | None => None
  end.

Definition createIntegerRule : Rule := fun value =>
  match value with
  | Some v => if negb (Number_isInteger v) then Some "must be an integer" else None
  | None => None
  end.

Definition notExactlyOne (message : string) : Rule := fun value =>
  match value with
  | Some v => if strict_eq v 1 then Some message else None
  | None => None
  end.

Definition createInterestRateRules : list Rule :=
  [ createTypeRule;
    createRangeRule 0.001 0.2 "Interest rate must be between 0.1% and 20%";
    createFiniteRule ].

Definition createImpatienecRateRules : list Rule :=
  [ createTypeRule;
    createRangeRule 0.001 0.15 "Impatience rate must be between 0.1% and 15%";
    createFiniteRule ].

Definition createRiskAversionRules : list Rule :=
  [ createTypeRule;
    createRangeRule 0.1 5 "Consumption risk aversion must be between 0.1 and 5";
    createFiniteRule;
    notExactlyOne
      "Consumption risk aversion cannot equal exactly 1 (log utility boundary)" ].

Definition createBequestRiskAversionRules : list Rule :=
  [ createTypeRule;
    createRangeRule 0.1 5 "Bequest risk aversion must be between 0.1 and 5";
    createFiniteRule;
    notExactlyOne
      "Bequest risk aversion cannot equal exactly 1 (log utility boundary)" ].

Definition createBequestImportanceRules : list Rule :=
  [ createTypeRule;
    createRangeRule 0 50 "Bequest importance must be between 0 and 50";
    createFiniteRule ].

Definition createTaxRateRules : list Rule :=
  [ createTypeRule;
    createRangeRule 0 0.99 "Tax rate must be between 0% and 99%";
    createFiniteRule ].

Definition createTimeHorizonRules (paramName : string) : list Rule :=
  [ createTypeRule;
    createRangeRule 1 100 (paramName ++ " must be between 1 and 100 years");
    createIntegerRule;
    createFiniteRule ].

Definition createWealthRules (paramName : string) : list Rule :=
  [ createTypeRule;
    createRangeRule 0.01 1000 (paramName ++ " must be between 0.01 and 1000");
    createFiniteRule ].

(** [this.rules], in insertion order, each with the field it reads. *)
Definition rules : list (string * (Parameters -> option float) * list Rule) :=
  [ ("r", fun p => Some (r p), createInterestRateRules);
    ("rho", fun p => Some (rho p), createImpatienecRateRules);
    ("gamma", fun p => Some (gamma p), createRiskAversionRules);
    ("eta", fun p => Some (eta p), createBequestRiskAversionRules);
    ("beta", fun p => Some (beta p), createBequestImportanceRules);
    ("tau", fun p => Some (tau p), createTaxRateRules);
    ("t1", fun p => Some (t1 p), createTimeHorizonRules "t1");
    ("t2", fun p => Some (t2 p), createTimeHorizonRules "t2");
    ("w0", w0, createWealthRules "w0") ].

Definition validateInterestRateConsistency (params : Parameters) : option string :=
  if le (r params) (rho params) then
    Some "Interest rate must be greater than impatience rate for economic consistency"
  else None.

Definition validateTimeHorizonsConsistency (params : Parameters) : option string :=
  if gt (t1 params + t2 params) 120 then
    Some "Total lifetime (t1 + t2) should not exceed 120 years"
  else if lt (t1 params) 5 then
    Some "Pre-tax period (t1) should be at least 5 years for meaningful analysis"
  else None.

Definition validateRiskAversionConsistency (params : Parameters) : option string :=
  if gt (Math_abs (gamma params - eta params)) 3 then
    Some "Consumption and bequest risk aversion should be within 3 units of each other for realistic behavior"
  else None.

Definition crossRules : list (Parameters -> option string) :=
  [ validateInterestRateConsistency;
    validateTimeHorizonsConsistency;
    validateRiskAversionConsistency ].

(** [validate(parameters).errors] *)
Definition validate (parameters : Parameters) : list string :=
  flat_map
    (fun '(paramName, field, fieldRules) =>
       flat_map
         (fun rule : Rule =>
            match rule (field parameters) with
            | Some error => [paramName ++ ": " ++ error]
            | None => []
            end)
         fieldRules)
    rules
  ++ flat_map
       (fun crossRule =>
          match crossRule parameters with
          | Some error => [error]
          | None => []
          end)
       crossRules.

Definition isValid (parameters : Parameters) : bool :=
  match validate parameters with [] => true | _ => false end.

Definition DEFAULT_PARAMETERS : Parameters :=
  {| r := 0.06; rho := 0.04; gamma := 0.7; eta := 1.7; beta := 3;
     tau := 0; t1 := 20; t2 := 25; w0 := Some 1 |}.

End ParameterValidator.

Import ParameterValidator.

(* ===================================================================== *)
(** * services/OptimizationService.js *)
(* ===================================================================== *)

(** ** Cache keys

    [generateCacheKey] is [JSON.stringify] of the parameters with every
    number rounded to three decimals.  Two such strings are equal exactly
    when they list the same fields with the same number tokens, and the
    token of a number determines it up to the sign of zero (non-finite
    numbers print as [null]); the key is kept in that canonical form. *)
Inductive JsonNumber :=
| JNull
| JZero
| JNum (negative : bool) (mantissa : positive) (exponent : Z).

#[global] Instance JsonNumber_eq_dec : EqDecision JsonNumber.
Proof. solve_decision. Defined.

#[global] Instance JsonNumber_countable : Countable JsonNumber.
Proof.
  refine (inj_countable'
    (fun j => match j with
              | JNull => inl false
              | JZero => inl true
              | JNum s m e => inr (s, m, e)
              end)
    (fun x => match x with
              | inl false => JNull
              | inl true => JZero
              | inr (s, m, e) => JNum s m e
              end) _).
  intros []; reflexivity.
Defined.

Definition CacheKey : Type := list (string * JsonNumber).

Definition json_number (x : float) : JsonNumber :=
  match Prim2SF x with
  | S754_zero _ => JZero
  | S754_finite s m e => JNum s m e
  | _ => JNull
  end.

Module OptimizationService.

Record Options := {
  maxIterations : nat;
  tolerance : float;
  gridSteps : nat;
  warmStartEnabled : bool;
  cacheSize : nat;
  cacheTTL : Z;                  (* milliseconds *)
  useWebWorkers : bool;
  fallbackToMainThread : bool
}.

Definition defaultOptions : Options := {|
  maxIterations := 1000;
  tolerance := 1e-12;
  gridSteps := 100;
  warmStartEnabled := true;
  cacheSize := 100;
  cacheTTL := 60000;
  useWebWorkers := false;
  fallbackToMainThread := true
|}.

Inductive Convergence := converged | grid_only.
Inductive Method := grid_search | numerical_refinement | hybrid.

Record SearchSpace := {
  w1Min : float; w1Max : float;
  w2Min : float; w2Max : float;
  centerW1 : float; centerW2 : float
}.

(** What [gridSearch] returns. *)
Record GridResult := {
  success : bool;
  g_w1 : float;
  g_w2 : float;
  g_utility : float;
  evaluations : nat;
  g_method : Method
}.

(** What [numericalRefinement] builds when it accepts the refined point. *)
Record RefinedResult := {
  r_w1 : float;
  r_w2 : float;
  r_utility : float;
  r_iterations : float;
  r_convergence : Convergence;
  r_method : Method
}.

(** [numericalRefinement] returns the refined object or [gridResult]
    itself. *)
Inductive PhaseResult :=
| Refined (x : RefinedResult)
| Unrefined (g : GridResult).

(** What [performMainThreadOptimization] returns. *)
Record MainThreadResult := {
  m_w1 : float;
  m_w2 : float;
  m_utility : float;
  m_iterations : float;
  m_convergence : Convergence;
  m_method : Method;
  fallbackUsed : bool
}.

(** What [performOptimization] returns, and what the cache stores. *)
Record OptimizationResult := {
  w1 : float;
  w2 : float;
  utility : float;
  iterations : float;
  convergence : Convergence;
  method : Method;
  calculationTime : float;
  usedWorker : bool
}.

(** What [findOptimalWealth] returns: [{ ...result, cacheHit }]. *)
Record FinalResult := {
  fields : OptimizationResult;
  cacheHit : bool
}.

Record CacheEntry := {
  entry_result : OptimizationResult;
  timestamp : Z
}.

(** The readings of the clocks during one call of [findOptimalWealth]:
    [Date.now()] in [getFromCache] and in [addToCache] (milliseconds), and
    the duration [performance.now() - startTime] put in the result. *)
Record Clock := {
  now_lookup : Z;
  now_insert : Z;
  elapsed : float
}.

(** The fields of the service object. *)
Record Service := {
  options : Options;
  cache : gmap CacheKey CacheEntry;
  cacheOrder : list CacheKey;
  lastOptimalResult : option (float * float);
  lastParameters : option Parameters;
  workerJobs : nat;
  mainThreadJobs : nat
}.

(** [new OptimizationService(options)] *)
Definition create (opts : Options) : Service := {|
  options := opts;
  cache := ∅;
  cacheOrder := [];
  lastOptimalResult := None;
  lastParameters := None;
  workerJobs := 0;
  mainThreadJobs := 0
|}.

Definition set_cache (s : Service) (c : gmap CacheKey CacheEntry)
    (order : list CacheKey) : Service :=
  {| options := options s; cache := c; cacheOrder := order;
     lastOptimalResult := lastOptimalResult s;
     lastParameters := lastParameters s;
     workerJobs := workerJobs s; mainThreadJobs := mainThreadJobs s |}.

Definition set_warmStart (s : Service) (res : option (float * float))
    (params : option Parameters) : Service :=
  {| options := options s; cache := cache s; cacheOrder := cacheOrder s;
     lastOptimalResult := res; lastParameters := params;
     workerJobs := workerJobs s; mainThreadJobs := mainThreadJobs s |}.

Definition count_mainThreadJob (s : Service) : Service :=
  {| options := options s; cache := cache s; cacheOrder := cacheOrder s;
     lastOptimalResult := lastOptimalResult s;
     lastParameters := lastParameters s;
     workerJobs := workerJobs s; mainThreadJobs := S (mainThreadJobs s) |}.

Inductive Cause := GridSearchFailed | WorkerFailed.

Inductive ServiceError :=
| ValidationError (errors : list string)
| OptimizationError (cause : Cause).

(** A call returns, throws, or never comes back. *)
Inductive Outcome (A : Type) :=
| Returns (a : A)
| Throws (e : ServiceError)
| Diverges.
Arguments Returns {A} a.
Arguments Throws {A} e.
Arguments Diverges {A}.

(** *** Cache management *)

Definition round3 (value : float) : float := Math_round (value * 1000) / 1000.

(** [Object.entries(parameters)]; a field that is [undefined] is left out
    by [JSON.stringify]. *)
Definition entries : list (string * (Parameters -> option float)) :=
  [ ("r", fun p => Some (r p)); ("rho", fun p => Some (rho p));
    ("gamma", fun p => Some (gamma p)); ("eta", fun p => Some (eta p));
    ("beta", fun p => Some (beta p)); ("tau", fun p => Some (tau p));
    ("t1", fun p => Some (t1 p)); ("t2", fun p => Some (t2 p));
    ("w0", w0) ]%string.

Definition generateCacheKey (parameters : Parameters) : CacheKey :=
  omap (fun '(key, field) =>
          (fun value => (key, json_number (round3 value))) <$> field parameters)
       entries.

(** [cacheOrder.indexOf(key)], [-1] being [None]. *)
Fixpoint indexOf (order : list CacheKey) (key : CacheKey) : option nat :=
  match order with
  | [] => None
  | k :: rest => if decide (k = key) then Some 0%nat
                 else S <$> indexOf rest key
  end.

(** [cacheOrder.splice(index, 1)] *)
Definition splice1 (order : list CacheKey) (index : nat) : list CacheKey :=
  take index order ++ drop (S index) order.

Definition getFromCache (s : Service) (key : CacheKey) (now : Z)
    : option OptimizationResult * Service :=
  match cache s !! key with
  | None => (None, s)
  | Some entry =>
      if (now - timestamp entry >? cacheTTL (options s))%Z then
        (None, set_cache s (delete key (cache s)) (cacheOrder s))
      else
        let order :=
          match indexOf (cacheOrder s) key with
          | Some index => splice1 (cacheOrder s) index
          | None => cacheOrder s
          end in
        (Some (entry_result entry), set_cache s (cache s) (key :: order))
  end.

(** [while (this.cacheOrder.length >= this.options.cacheSize)
       { const oldKey = this.cacheOrder.pop(); this.cache.delete(oldKey); }]
    [None] when [fuel] iterations are not enough. *)
Fixpoint evict (fuel : nat) (size : nat) (c : gmap CacheKey CacheEntry)
    (order : list CacheKey) : option (gmap CacheKey CacheEntry * list CacheKey) :=
  if (size <=? length order)%nat then
    match fuel with
    | O => None
    | S fuel' =>
        match last order with
        | Some oldKey => evict fuel' size (delete oldKey c) (removelast order)
        | None => evict fuel' size c order
        end
    end
  else Some (c, order).

(** The loop pops one key per iteration, so [length order + 1] iterations
    are enough whenever it ends at all; it does not end when [cacheSize]
    is [0]. *)
Definition addToCache (s : Service) (key : CacheKey)
    (result : OptimizationResult) (now : Z) : option Service :=
  match evict (S (length (cacheOrder s))) (cacheSize (options s))
              (cache s) (cacheOrder s) with
  | None => None
  | Some (c, order) =>
      Some (set_cache s
              (<[key := {| entry_result := result; timestamp := now |}]> c)
              (key :: order))
  end.

Definition clearCache (s : Service) : Service := set_cache s ∅ [].

(** *** Warm starting *)

Definition updateWarmStart (s : Service) (parameters : Parameters)
    (result : OptimizationResult) : Service :=
  set_warmStart s (Some (w1 result, w2 result)) (Some parameters).

Definition resetWarmStart (s : Service) : Service :=
  set_warmStart s None None.

Definition importantParams : list (Parameters -> float) :=
  [r; rho; gamma; eta; beta; tau].

Definition isParameterSimilar (params1 : Parameters)
    (params2 : option Parameters) : bool :=
  match params2 with
  | None => false
  | Some params2 =>
      let threshold := 0.1 in
      forallb
        (fun param : Parameters -> float =>
           let val1 := param params1 in
           let val2 := param params2 in
           negb (gt (Math_abs (val1 - val2) / Math_max val1 val2) threshold))
        importantParams
  end.

Section Optimization.

Context {RT : Runtime}.

(** *** Search space *)

Definition determineSearchSpace (s : Service) (parameters : Parameters)
    : SearchSpace :=
  let r := r parameters in
  let t1 := t1 parameters in
  let w0 := w0_or_default parameters in
  let maxW1 := Math_exp (r * t1) * w0 in
  let '(centerW1, centerW2, radius) :=
    match lastOptimalResult s with
    | Some (lastW1, lastW2) =>
        if warmStartEnabled (options s)
           && isParameterSimilar parameters (lastParameters s)
        then
          if negb (checkConstraints lastW1 lastW2 parameters)
          then (maxW1 * 0.6, maxW1 * 0.5, 0.4)
          else (lastW1, lastW2, 0.2)
        else (maxW1 * 0.6, maxW1 * 0.5, 0.4)
    | None => (maxW1 * 0.6, maxW1 * 0.5, 0.4)
    end in
  {| w1Min := Math_max 0.01 (centerW1 * (1 - radius));
     w1Max := Math_min (maxW1 - 0.01) (centerW1 * (1 + radius));
     w2Min := Math_max 0.01 (centerW2 * (1 - radius));
     w2Max := Math_min (centerW2 * (1 + radius * 2)) (maxW1 * 3);
     centerW1 := centerW1;
     centerW2 := centerW2 |}.

(** *** Phase 1: grid search *)

(** The running best of the two loops:
    [(bestW1, bestW2, bestUtility, evaluations)]. *)
Definition Best : Type := float * float * float * nat.

(** The body of the inner loop at the sample [(w1, w2)]. *)
Definition visit (parameters : Parameters) (w1 w2 : float) (best : Best)
    : Best :=
  let '(bestW1, bestW2, bestUtility, evaluations) := best in
  let evaluations := S evaluations in
  if negb (checkConstraints w1 w2 parameters) then
    (bestW1, bestW2, bestUtility, evaluations)
  else
    let utility :=
      lifetimeUtility (r parameters) (rho parameters) (gamma parameters)
        (t1 parameters) (t2 parameters) (beta parameters) (eta parameters)
        (tau parameters) (w0_or_default parameters) w1 w2 in
    if isFinite utility && gt utility bestUtility then
      (w1, w2, utility, evaluations)
    else (bestW1, bestW2, bestUtility, evaluations).

(** The lifetime utility of a sample, as both phases compute it. *)
Definition utilityAt (parameters : Parameters) (w1 w2 : float) : float :=
  lifetimeUtility (r parameters) (rho parameters) (gamma parameters)
    (t1 parameters) (t2 parameters) (beta parameters) (eta parameters)
    (tau parameters) (w0_or_default parameters) w1 w2.

(** What the loops maintain: the running best is still the initial
    [-Infinity], or it is a sample that passed [checkConstraints], with its
    utility, a finite number. *)
Definition best_ok (parameters : Parameters) (best : Best) : Prop :=
  let '(bestW1, bestW2, bestUtility, _) := best in
  bestUtility = neg_infinity
  \/ (checkConstraints bestW1 bestW2 parameters = true
      /\ bestUtility = utilityAt parameters bestW1 bestW2
      /\ isFinite bestUtility = true).

(** [for (let j = 0; j <= gridSteps; j++)] at a given [w1]. *)
Definition innerLoop (parameters : Parameters) (space : SearchSpace)
    (gridSteps : nat) (w1 : float) (best : Best) : Best :=
  fold_left
    (fun best j =>
       let w2 := w2Min space
                 + (w2Max space - w2Min space) * of_nat j / of_nat gridSteps in
       visit parameters w1 w2 best)
    (seq 0 (S gridSteps)) best.

(** [for (let i = 0; i <= gridSteps; i++)] *)
Definition outerLoop (parameters : Parameters) (space : SearchSpace)
    (gridSteps : nat) (best : Best) : Best :=
  fold_left
    (fun best i =>
       let w1 := w1Min space
                 + (w1Max space - w1Min space) * of_nat i / of_nat gridSteps in
       innerLoop parameters space gridSteps w1 best)
    (seq 0 (S gridSteps)) best.

Definition gridSearch (s : Service) (parameters : Parameters)
    (searchSpace : SearchSpace) : GridResult :=
  let gridSteps := gridSteps (options s) in
  let '(bestW1, bestW2, bestUtility, evaluations) :=
    outerLoop parameters searchSpace gridSteps
      (centerW1 searchSpace, centerW2 searchSpace, neg_infinity, 0%nat) in
  {| success := gt bestUtility neg_infinity;
     g_w1 := bestW1;
     g_w2 := bestW2;
     g_utility := bestUtility;
     evaluations := evaluations;
     g_method := grid_search |}.

(** *** Phase 2: numerical refinement *)

Definition objectiveFunction (parameters : Parameters)
    (vars : float * float) : float :=
  let '(w1, w2) := vars in
  if negb (checkConstraints w1 w2 parameters) then 1e10
  else
    let utility :=
      lifetimeUtility (r parameters) (rho parameters) (gamma parameters)
        (t1 parameters) (t2 parameters) (beta parameters) (eta parameters)
        (tau parameters) (w0_or_default parameters) w1 w2 in
    if negb (isFinite utility) || strict_eq utility (-5000) then 1e10
    else - utility.

Definition numericalRefinement (s : Service) (parameters : Parameters)
    (gridResult : GridResult) : PhaseResult :=
  match uncmin (objectiveFunction parameters)
               (g_w1 gridResult, g_w2 gridResult)
               (tolerance (options s)) (maxIterations (options s)) with
  | UncminReturns (Some result) =>
      if isFinite (f result) && lt (f result) 1e9 then
        let '(finalW1, finalW2) := solution result in
        if checkConstraints finalW1 finalW2 parameters then
          let finalUtility := - f result in
          Refined {| r_w1 := finalW1;
                     r_w2 := finalW2;
                     r_utility := finalUtility;
                     r_iterations := or_else (u_iterations result) 0;
                     r_convergence := converged;
                     r_method := numerical_refinement |}
        else Unrefined gridResult
      else Unrefined gridResult
  | UncminReturns None => Unrefined gridResult
  | UncminThrows => Unrefined gridResult
  end.

(** *** The two phases together *)

Definition performMainThreadOptimization (s : Service)
    (parameters : Parameters) : Outcome MainThreadResult :=
  let searchSpace := determineSearchSpace s parameters in
  let gridResult := gridSearch s parameters searchSpace in
  if negb (success gridResult) then
    Throws (OptimizationError GridSearchFailed)
  else
    match numericalRefinement s parameters gridResult with
    | Refined finalResult =>
        Returns {| m_w1 := r_w1 finalResult;
                   m_w2 := r_w2 finalResult;
                   m_utility := r_utility finalResult;
                   m_iterations := or_else (r_iterations finalResult) 0;
                   m_convergence := r_convergence finalResult;
                   m_method := r_method finalResult;
                   fallbackUsed := true |}
    | Unrefined finalResult =>
        (* [finalResult.iterations] and [.convergence] are undefined *)
        Returns {| m_w1 := g_w1 finalResult;
                   m_w2 := g_w2 finalResult;
                   m_utility := g_utility finalResult;
                   m_iterations := 0;
                   m_convergence := grid_only;
                   m_method := g_method finalResult;
                   fallbackUsed := true |}
    end.

(** The module's [workerManager] is a mock without [optimizeWealth], so
    the worker branch throws at the call and, when allowed, falls back
    to the main thread. *)
Definition performOptimization (s : Service) (parameters : Parameters)
    (clock : Clock) : Outcome OptimizationResult * Service :=
  let attempt : Outcome MainThreadResult :=
    if useWebWorkers (options s) then
      if fallbackToMainThread (options s) then
        performMainThreadOptimization s parameters
      else Throws (OptimizationError WorkerFailed)
    else performMainThreadOptimization s parameters in
  match attempt with
  | Returns result =>
      (Returns {| w1 := m_w1 result;
                  w2 := m_w2 result;
                  utility := m_utility result;
                  iterations := or_else (m_iterations result) 0;
                  convergence := m_convergence result;
                  method := m_method result;
                  calculationTime := elapsed clock;
                  usedWorker := useWebWorkers (options s)
                                && negb (fallbackUsed result) |},
       count_mainThreadJob s)
  | Throws (OptimizationError cause) => (Throws (OptimizationError cause), s)
  | Throws e => (Throws e, s)
  | Diverges => (Diverges, s)
  end.

Definition findOptimalWealth (s : Service) (parameters : Parameters)
    (clock : Clock) : Outcome FinalResult * Service :=
  match validate parameters with
  | (_ :: _) as errors => (Throws (ValidationError errors), s)
  | [] =>
      let cacheKey := generateCacheKey parameters in
      match getFromCache s cacheKey (now_lookup clock) with
      | (Some cached, s) =>
          (Returns {| fields := cached; cacheHit := true |}, s)
      | (None, s) =>
          match performOptimization s parameters clock with
          | (Returns result, s) =>
              match addToCache s cacheKey result (now_insert clock) with
              | Some s =>
                  let s := updateWarmStart s parameters result in
                  (Returns {| fields := result; cacheHit := false |}, s)
              | None => (Diverges, s)
              end
          | (Throws e, s) => (Throws e, s)
          | (Diverges, s) => (Diverges, s)
          end
      end
  end.

(** *** Sequences of calls on one service *)

Inductive Call :=
| CallFindOptimalWealth (parameters : Parameters) (clock : Clock)
| CallClearCache.

(** The service after a call, whether it returned or threw; [None] when
    the call never comes back. *)
Definition step (s : Service) (call : Call) : option Service :=
  match call with
  | CallFindOptimalWealth parameters clock =>
      match findOptimalWealth s parameters clock with
      | (Diverges, _) => None
      | (_, s) => Some s
      end
  | CallClearCache => Some (clearCache s)
  end.

Fixpoint run (s : Service) (calls : list Call) : option Service :=
  match calls with
  | [] => Some s
  | call :: calls =>
      match step s call with
      | Some s => run s calls
      | None => None
      end
  end.

(** *** Invariants of the service *)

(** Every key of the map occurs in the order list, and the order list is
    no longer than the capacity. *)
Definition cache_inv (s : Service) : Prop :=
  dom (cache s) ⊆ list_to_set (cacheOrder s)
  /\ (length (cacheOrder s) <= cacheSize (options s))%nat.

(** A result whose utility is a finite number, whose iteration count is
    one too when the minimizer's counts are, and whose point passes
    [checkConstraints] for the given parameters. *)
Definition result_sound (parameters : Parameters)
    (result : OptimizationResult) : Prop :=
  isFinite (utility result) = true
  /\ (counts_iterations RT -> isFinite (iterations result) = true)
  /\ checkConstraints (w1 result) (w2 result) parameters = true.

(** Every cached result is sound for some parameters with the key it is
    stored under. *)
Definition cache_sound (s : Service) : Prop :=
  forall key entry,
    cache s !! key = Some entry ->
    exists parameters,
      generateCacheKey parameters = key
      /\ result_sound parameters (entry_result entry).

End Optimization.

End OptimizationService.

(* ===================================================================== *)
(** * A reference runtime

    One concrete runtime, to run the code on concrete inputs: [Math.exp]
    and [Math.log] by argument reduction and a truncated series, [Math.pow]
    through them with the special cases of the language standard, and a
    derivative-free descent (compass search) in the place of
    [numeric.uncmin].  No theorem about the code depends on it. *)
(* ===================================================================== *)

Module Reference.

Definition ln2 : float := 0.6931471805599453.

(** [1 + x + x^2/2! + ... ] by Horner's rule, [n] terms from the [k]-th. *)
Fixpoint exp_series (n : nat) (k : float) (x : float) : float :=
  match n with
  | O => 1
  | S n' => 1 + x / k * exp_series n' (k + 1) x
  end.

Definition exp (x : float) : float :=
  if PrimFloat.is_nan x then nan
  else if 709.782712893384 <? x then infinity
  else if x <? -745.1332191019412 then 0
  else
    let k := floor_Z (x / ln2 + 0.5) in
    let y := x - of_Z k * ln2 in
    Z.ldexp (exp_series 22 1 y) k.

(** [2 (s + s^3/3 + s^5/5 + ...)], [n] terms from the one in [s^d/d]. *)
Fixpoint atanh_series (n : nat) (d : float) (s2 : float) : float :=
  match n with
  | O => 0
  | S n' => 1 / d + s2 * atanh_series n' (d + 2) s2
  end.

Definition log (x : float) : float :=
  if PrimFloat.is_nan x then nan
  else if x <? 0 then nan
  else if x =? 0 then neg_infinity
  else if PrimFloat.is_infinity x then infinity
  else
    let '(m, e) := Z.frexp x in
    let '(m, e) := if m <? 0.7071067811865476 then (m * 2, (e - 1)%Z) else (m, e) in
    let s := (m - 1) / (m + 1) in
    of_Z e * ln2 + 2 * s * atanh_series 14 1 (s * s).

Definition is_odd_integer (y : float) : bool :=
  Number_isInteger y && negb (Number_isInteger (y / 2)).

Definition pow (x y : float) : float :=
  if PrimFloat.is_nan y then nan
  else if y =? 0 then 1
  else if PrimFloat.is_nan x then nan
  else if (0 <? x) || ((x =? 0) && negb (PrimFloat.get_sign x)) then
    exp (y * log x)
  else if Number_isInteger y then
    let magnitude := exp (y * log (- x)) in
    if is_odd_integer y then - magnitude else magnitude
  else if PrimFloat.is_infinity x || (x =? 0) || PrimFloat.is_infinity y then
    exp (y * log (- x))
  else nan.

(** Compass search: try a step of length [h] along each axis, move to the
    first strict improvement, halve [h] when there is none, stop when [h]
    drops below the tolerance or after [fuel] rounds. *)
Fixpoint compass (objective : float * float -> float) (fuel : nat)
    (x : float * float) (fx : float) (h tol : float) (rounds : nat)
    : float * float * float * nat :=
  match fuel with
  | O => (x, fx, rounds)
  | S fuel' =>
      let '(a, b) := x in
      let better :=
        List.find (fun y => objective y <? fx)
                  [(a + h, b); (a - h, b); (a, b + h); (a, b - h)] in
      match better with
      | Some y => compass objective fuel' y (objective y) h tol (S rounds)
      | None =>
          if h <? tol then (x, fx, rounds)
          else compass objective fuel' x fx (h / 2) tol (S rounds)
      end
  end.

Definition finite_or_zero (x : float) : float :=
  if isFinite x then x else 0.

Definition minimize (objective : float * float -> float) (x0 : float * float)
    (tol : float) (maxit : nat) : UncminOutcome :=
  let f0 := objective x0 in
  if PrimFloat.is_nan f0 then UncminThrows
  else
    let '(x, fx, rounds) := compass objective maxit x0 f0 0.01 tol 0 in
    UncminReturns
      (Some {| solution := x; f := fx;
               u_iterations := finite_or_zero (of_nat rounds) |}).

#[local] Instance runtime : Runtime := {|
  Math_exp := exp;
  Math_log := log;
  Math_pow := pow;
  uncmin := minimize
|}.

End Reference.

(* ===================================================================== *)
(** * Scenarios

    Concrete services, clocks and one more runtime, for the examples. *)
(* ===================================================================== *)

Module Scenario.

Import OptimizationService.

(** The default options with a coarse grid and a short refinement. *)
Definition coarse : Options := {|
  maxIterations := 10;
  tolerance := 1e-12;
  gridSteps := 4;
  warmStartEnabled := true;
  cacheSize := 100;
  cacheTTL := 60000;
  useWebWorkers := false;
  fallbackToMainThread := true
|}.


Definition at_time (t : Z) : Clock :=
  {| now_lookup := t; now_insert := (t + 5)%Z; elapsed := 5 |}.

(** A service with the default options whose warm-start slot holds a
    solution found for the default parameters. *)
Definition warm : Service :=
  set_warmStart (create defaultOptions) (Some (1.6, 2.35))
    (Some DEFAULT_PARAMETERS).

(** The default parameters with a slightly larger bequest weight. *)
Definition nearby : Parameters :=
  {| r := 0.06; rho := 0.04; gamma := 0.7; eta := 1.7; beta := 3.2;
     tau := 0; t1 := 20; t2 := 25; w0 := Some 1 |}.

(** The reference [Math] functions with a [numeric.uncmin] that throws
    on the [null] gradient, as the library the page loads does. *)
#[local] Instance nullGradient : Runtime := {|
  Math_exp := Reference.exp;
  Math_log := Reference.log;
  Math_pow := Reference.pow;
  uncmin := fun _ _ _ _ => UncminThrows
|}.

End Scenario.

(* ===================================================================== *)
(** * The order of the numbers

    [<] and [<=] compare two numbers that are not NaN as the
    lexicographic order compares their ranks: the class (negative
    infinity, negative, zero, positive, positive infinity), then the
    exponent, then the mantissa. *)
(* ===================================================================== *)

Definition rank (x : spec_float) : option (Z * Z * Z) :=
  match x with
  | S754_nan => None
  | S754_infinity true => Some (-2, 0, 0)%Z
  | S754_infinity false => Some (2, 0, 0)%Z
  | S754_zero _ => Some (0, 0, 0)%Z
  | S754_finite false m e => Some (1, e, Z.pos m)%Z
  | S754_finite true m e => Some (-1, - e, Z.neg m)%Z
  end.

Definition lex (p q : Z * Z * Z) : comparison :=
  let '(a, b, c) := p in
  let '(a', b', c') := q in
  match (a ?= a')%Z with
  | Eq => match (b ?= b')%Z with
          | Eq => (c ?= c')%Z
          | o => o
          end
  | o => o
  end.

(* ===================================================================== *)
(** * math/UtilityFunctions.js: consumption and wealth paths *)
(* ===================================================================== *)

(** The messages of the [MathematicalError]s the path functions throw; an
    error of [kappa] passes through them unchanged. *)
Inductive PathError :=
| FromKappa (e : MathematicalError)
| NearZeroDenominator      (* Division by near-zero denominator in consumption calculation *)
| InvalidConsumption       (* Invalid consumption calculation *)
| TimeOutsideRange         (* Time t outside valid range [0, T] *)
| WealthNonFinite          (* Wealth path calculation produced non-finite result *)
| TimeNegative             (* Time t must be non-negative *)
| ConsumptionNonFinite.    (* Consumption path calculation produced non-finite result *)

Inductive attempt (A : Type) :=
| Value (a : A)
| Raise (e : PathError).
Arguments Value {A} a.
Arguments Raise {A} e.

Definition raised {A : Type} (a : attempt A) : bool :=
  match a with Raise _ => true | Value _ => false end.

Section Paths.

Context {RT : Runtime}.

(** The [catch] blocks of the two functions rethrow a [MathematicalError]
    as it is, and nothing else is thrown inside them. *)
Definition initialConsumption1 (r rho gamma t1 w0 w1 : float) : attempt float :=
  match kappa r rho gamma with
  | Throw e => Raise (FromKappa e)
  | Return k =>
      let expRt1 := Math_exp (r * t1) in
      let expRminusRhoT1 := Math_exp ((r - rho) * t1 / gamma) in
      let num := k * (expRt1 * w0 - w1) in
      let den := expRt1 - expRminusRhoT1 in
      if lt (Math_abs den) 1e-10 then Raise NearZeroDenominator
      else
        let result := num / den in
        if negb (isFinite result) || le result 0 then Raise InvalidConsumption
        else Value result
  end.

Definition initialConsumption2 (r rho gamma t2 w1 tau w2 : float) : attempt float :=
  match kappa r rho gamma with
  | Throw e => Raise (FromKappa e)
  | Return k =>
      let expRt2 := Math_exp (r * t2) in
      let expRminusRhoT2 := Math_exp ((r - rho) * t2 / gamma) in
      let num := k * (expRt2 * w1 * (1 - tau) - w2) in
      let den := expRt2 - expRminusRhoT2 in
      if lt (Math_abs den) 1e-10 then Raise NearZeroDenominator
      else
        let result := num / den in
        if negb (isFinite result) || le result 0 then Raise InvalidConsumption
        else Value result
  end.

(** [createWealthPath1] throws, or returns the function [w(t)]. *)
Definition createWealthPath1 (r rho gamma t1 w0 w1 : float)
    : attempt (float -> attempt float) :=
  match kappa r rho gamma with
  | Throw e => Raise (FromKappa e)
  | Return k =>
      match initialConsumption1 r rho gamma t1 w0 w1 with
      | Raise e => Raise e
      | Value c =>
          Value (fun t =>
            if lt t 0 || gt t t1 then Raise TimeOutsideRange
            else
              let expRt := Math_exp (r * t) in
              let expNegKt := Math_exp (- k * t) in
              let result := expRt * w0 - c * expRt * (1 - expNegKt) / k in
              if negb (isFinite result) then Raise WealthNonFinite
              else Value result)
      end
  end.

Definition createWealthPath2 (r rho gamma t2 w1 tau w2 : float)
    : attempt (float -> attempt float) :=
  match kappa r rho gamma with
  | Throw e => Raise (FromKappa e)
  | Return k =>
      match initialConsumption2 r rho gamma t2 w1 tau w2 with
      | Raise e => Raise e
      | Value c =>
          Value (fun s =>
            if lt s 0 || gt s t2 then Raise TimeOutsideRange
            else
              let expRs := Math_exp (r * s) in
              let expNegKs := Math_exp (- k * s) in
              let result :=
                expRs * w1 * (1 - tau) - c * expRs * (1 - expNegKs) / k in
              if negb (isFinite result) then Raise WealthNonFinite
              else Value result)
      end
  end.

Definition createConsumptionPath1 (r rho gamma c01 : float)
    : float -> attempt float :=
  fun t =>
    if lt t 0 then Raise TimeNegative
    else
      let result := c01 * Math_exp ((r - rho) * t / gamma) in
      if negb (isFinite result) then Raise ConsumptionNonFinite
      else Value result.

Definition createConsumptionPath2 (r rho gamma c02 : float)
    : float -> attempt float :=
  fun s =>
    if lt s 0 then Raise TimeNegative
    else
      let result := c02 * Math_exp ((r - rho) * s / gamma) in
      if negb (isFinite result) then Raise ConsumptionNonFinite
      else Value result.

End Paths.

(** [Math.exp] maps [0] and [-0] to [1], as the language standard
    requires.  Where a statement needs this of the runtime it says so. *)
Definition exp_of_zero (RT : Runtime) : Prop :=
  forall z, strict_eq z 0 = true -> Math_exp z = 1.

(* ===================================================================== *)
(** * math/MathCache.js *)
(* ===================================================================== *)

(** The token [String(x)] of a number: it determines the number up to the
    sign of zero. *)
Inductive NumberToken :=
| TNaN
| TZero
| TInfinity (negative : bool)
| TFinite (negative : bool) (mantissa : positive) (exponent : Z).

#[global] Instance NumberToken_eq_dec : EqDecision NumberToken.
Proof. solve_decision. Defined.

#[global] Instance NumberToken_countable : Countable NumberToken.
Proof.
  refine (inj_countable'
    (fun t => match t with
              | TNaN => inl (inl tt)
              | TZero => inl (inr tt)
              | TInfinity s => inr (inl s)
              | TFinite s m e => inr (inr (s, m, e))
              end)
    (fun x => match x with
              | inl (inl tt) => TNaN
              | inl (inr tt) => TZero
              | inr (inl s) => TInfinity s
              | inr (inr (s, m, e)) => TFinite s m e
              end) _).
  intros []; reflexivity.
Defined.

Definition number_token (x : float) : NumberToken :=
  match Prim2SF x with
  | S754_nan => TNaN
  | S754_zero _ => TZero
  | S754_infinity s => TInfinity s
  | S754_finite s m e => TFinite s m e
  end.

(** The keys of the memoised functions: [exp_<x>], [pow_<b>_<e>] and
    [log_<x>]. *)
Inductive MathKey :=
| ExpKey (x : NumberToken)
| PowKey (b e : NumberToken)
| LogKey (x : NumberToken).

#[global] Instance MathKey_eq_dec : EqDecision MathKey.
Proof. solve_decision. Defined.

#[global] Instance MathKey_countable : Countable MathKey.
Proof.
  refine (inj_countable'
    (fun k => match k with
              | ExpKey x => inl x
              | PowKey b e => inr (inl (b, e))
              | LogKey x => inr (inr x)
              end)
    (fun x => match x with
              | inl x => ExpKey x
              | inr (inl (b, e)) => PowKey b e
              | inr (inr x) => LogKey x
              end) _).
  intros []; reflexivity.
Defined.

Module MathCache.

Section Cache.

Context {K : Type} `{Countable K} {V : Type}.

(** The fields of a [MathCache]: the capacity, the [Map] and the keys from
    the most to the least recently used. *)
Record MathCache := {
  maxSize : nat;
  cache : gmap K V;
  accessOrder : list K
}.

(** [new MathCache(maxSize)] *)
Definition create (maxSize : nat) : MathCache :=
  {| maxSize := maxSize; cache := ∅; accessOrder := [] |}.

Fixpoint indexOf (order : list K) (key : K) : option nat :=
  match order with
  | [] => None
  | k :: rest => if decide (k = key) then Some 0%nat
                 else S <$> indexOf rest key
  end.

(** [index = order.indexOf(key); if (index > -1) order.splice(index, 1)] *)
Definition forget (order : list K) (key : K) : list K :=
  match indexOf order key with
  | Some index => take index order ++ drop (S index) order
  | None => order
  end.

Definition has (c : MathCache) (key : K) : bool :=
  bool_decide (is_Some (cache c !! key)).

Definition set (c : MathCache) (key : K) (value : V) : MathCache :=
  let '(m, order) :=
    if (maxSize c <=? size (cache c))%nat && negb (has c key) then
      match last (accessOrder c) with
      | Some oldest => (delete oldest (cache c), removelast (accessOrder c))
      | None => (cache c, accessOrder c)
      end
    else (cache c, accessOrder c) in
  let order :=
    if bool_decide (is_Some (m !! key)) then forget order key else order in
  {| maxSize := maxSize c;
     cache := <[key := value]> m;
     accessOrder := key :: order |}.

(** [computeFn] is called on a miss only. *)
Definition getOrCompute (c : MathCache) (key : K) (computeFn : unit -> V)
    : V * MathCache :=
  match cache c !! key with
  | Some value =>
      (value,
       {| maxSize := maxSize c;
          cache := cache c;
          accessOrder := key :: forget (accessOrder c) key |})
  | None =>
      let value := computeFn tt in
      (value, set c key value)
  end.

Definition clear (c : MathCache) : MathCache :=
  {| maxSize := maxSize c; cache := ∅; accessOrder := [] |}.

(** The map and the access list hold the same keys, each once. *)
Definition consistent (c : MathCache) : Prop :=
  NoDup (accessOrder c)
  /\ forall key, key ∈ accessOrder c <-> is_Some (cache c !! key).

(** The calls a client can make, and a sequence of them on one cache. *)
Inductive Op :=
| Get (key : K) (computeFn : unit -> V)
| Put (key : K) (value : V)
| Clear.

Definition apply (c : MathCache) (op : Op) : MathCache :=
  match op with
  | Get key computeFn => snd (getOrCompute c key computeFn)
  | Put key value => set c key value
  | Clear => clear c
  end.

Definition applyAll (c : MathCache) (ops : list Op) : MathCache :=
  fold_left apply ops c.

End Cache.

Arguments MathCache K {_ _} V.
Arguments Op K V : clear implicits.

End MathCache.

Module ExponentialCache.

Section Cache.

Context {RT : Runtime}.

(** An [ExponentialCache]: a [MathCache] with the number of decimals the
    arguments are rounded to and the two counters. *)
Record ExponentialCache := {
  base : MathCache.MathCache MathKey float;
  precision : float;
  hits : nat;
  requests : nat
}.

(** [new ExponentialCache(maxSize, precision)] *)
Definition create (maxSize : nat) (precision : float) : ExponentialCache :=
  {| base := MathCache.create maxSize; precision := precision;
     hits := 0; requests := 0 |}.

(** [Math.round(value * Math.pow(10, precision)) / Math.pow(10, precision)] *)
Definition rounded (precision value : float) : float :=
  Math_round (value * Math_pow 10 precision) / Math_pow 10 precision.

(** The closure passed to [getOrCompute] increments [hits] when it is
    called, that is, when the key is not in the cache. *)
Definition memoised (c : ExponentialCache) (key : MathKey)
    (compute : unit -> float) : float * ExponentialCache :=
  let '(value, b) := MathCache.getOrCompute (base c) key compute in
  (value,
   {| base := b;
      precision := precision c;
      hits := if MathCache.has (base c) key then hits c else S (hits c);
      requests := S (requests c) |}).

Definition exp (c : ExponentialCache) (value : float)
    : float * ExponentialCache :=
  memoised c (ExpKey (number_token (rounded (precision c) value)))
    (fun _ => Math_exp value).

Definition pow (c : ExponentialCache) (b exponent : float)
    : float * ExponentialCache :=
  memoised c
    (PowKey (number_token (rounded (precision c) b))
            (number_token (rounded (precision c) exponent)))
    (fun _ => Math_pow b exponent).

Definition log (c : ExponentialCache) (value : float)
    : float * ExponentialCache :=
  memoised c (LogKey (number_token (rounded (precision c) value)))
    (fun _ => Math_log value).

End Cache.

End ExponentialCache.

(* ===================================================================== *)
(** * services/VisualizationService.js: the data of the charts

    The series the chart configurations are built from; the styling of
    the charts has no counterpart. *)
(* ===================================================================== *)

Module VisualizationService.

Import OptimizationService.

Record Point := { x : float; y : float }.

(** What stops a chart: an error of the optimisation service or of a path
    function. *)
Inductive ChartError :=
| FromService (e : ServiceError)
| FromPath (e : PathError).

Inductive Chart (A : Type) :=
| Drawn (a : A)
| Failed (e : ChartError)
| Pending.                           (* the optimisation never comes back *)
Arguments Drawn {A} a.
Arguments Failed {A} e.
Arguments Pending {A}.

Definition numPoints : nat := 100.

Definition taxRates : list float := [0; 0.1; 0.2; 0.3; 0.4; 0.5].

(** [{ ...parameters, tau }] *)
Definition with_tau (parameters : Parameters) (tau : float) : Parameters :=
  {| r := r parameters; rho := rho parameters; gamma := gamma parameters;
     eta := eta parameters; beta := beta parameters; tau := tau;
     t1 := t1 parameters; t2 := t2 parameters; w0 := w0 parameters |}.

(** The three series of the tax-effect chart and table. *)
Record TaxEffect := {
  beforeTaxData : list Point;
  afterTaxData : list Point;
  bequestData : list Point
}.

(** The series of the wealth-trajectory chart. *)
Record WealthTrajectory := {
  preTaxData : list Point;
  postTaxData : list Point;
  atTaxTime : Point;
  afterTax : Point;
  finalBequest : Point
}.

Section Charts.

Context {RT : Runtime}.

(** [for (const tau of taxRates) { ... }]: one call of [findOptimalWealth]
    per rate, the [i]-th with the clock readings [clock i]; the first call
    that throws ends the loop. *)
Fixpoint sweep (s : Service) (parameters : Parameters) (clock : nat -> Clock)
    (i : nat) (rates : list float) : Outcome TaxEffect * Service :=
  match rates with
  | [] =>
      (Returns {| beforeTaxData := []; afterTaxData := []; bequestData := [] |},
       s)
  | tau :: rates =>
      let params := with_tau parameters tau in
      match findOptimalWealth s params (clock i) with
      | (Returns optimization, s) =>
          let w1 := w1 (fields optimization) in
          let w2 := w2 (fields optimization) in
          match sweep s parameters clock (S i) rates with
          | (Returns rest, s) =>
              (Returns
                 {| beforeTaxData := {| x := tau; y := w1 |} :: beforeTaxData rest;
                    afterTaxData :=
                      {| x := tau; y := w1 * (1 - tau) |} :: afterTaxData rest;
                    bequestData := {| x := tau; y := w2 |} :: bequestData rest |},
               s)
          | (Throws e, s) => (Throws e, s)
          | (Diverges, s) => (Diverges, s)
          end
      | (Throws e, s) => (Throws e, s)
      | (Diverges, s) => (Diverges, s)
      end
  end.

(** The data loop of [createTaxEffectConfig] and [generateTaxEffectTable]. *)
Definition taxEffectData (s : Service) (parameters : Parameters)
    (clock : nat -> Clock) : Outcome TaxEffect * Service :=
  sweep s parameters clock 0 taxRates.

(** The calls a sweep makes, as a sequence of calls on the service. *)
Fixpoint sweepCalls (parameters : Parameters) (clock : nat -> Clock)
    (i : nat) (rates : list float) : list Call :=
  match rates with
  | [] => []
  | tau :: rates =>
      CallFindOptimalWealth (with_tau parameters tau) (clock i)
      :: sweepCalls parameters clock (S i) rates
  end.

(** [for (let i = 0; i <= numPoints; i++) data.push({ x, y: path(t) })],
    with the abscissa and the argument of the path at step [i] given by
    [sample]; the first point at which the path throws ends the loop. *)
Fixpoint plot (path : float -> attempt float) (sample : nat -> float * float)
    (indices : list nat) : attempt (list Point) :=
  match indices with
  | [] => Value []
  | i :: indices =>
      let '(abscissa, t) := sample i in
      match path t with
      | Raise e => Raise e
      | Value wealth =>
          match plot path sample indices with
          | Raise e => Raise e
          | Value points => Value ({| x := abscissa; y := wealth |} :: points)
          end
      end
  end.

(** The sample times of the two periods. *)
Definition preTaxSample (t1 : float) (i : nat) : float * float :=
  let t := t1 / of_nat numPoints * of_nat i in (t, t).

Definition postTaxSample (t1 t2 : float) (i : nat) : float * float :=
  let s := t1 + t2 / of_nat numPoints * of_nat i in (s, s - t1).

(** The data of [createWealthTrajectoryConfig]; the initial wealth of the
    first period is the literal [1]. *)
Definition wealthTrajectoryData (s : Service) (parameters : Parameters)
    (clock : Clock) : Chart WealthTrajectory * Service :=
  let r := r parameters in
  let rho := rho parameters in
  let gamma := gamma parameters in
  let t1 := t1 parameters in
  let t2 := t2 parameters in
  let tau := tau parameters in
  match findOptimalWealth s parameters clock with
  | (Throws e, s) => (Failed (FromService e), s)
  | (Diverges, s) => (Pending, s)
  | (Returns optimization, s) =>
      let w1 := w1 (fields optimization) in
      let w2 := w2 (fields optimization) in
      let chart :=
        match createWealthPath1 r rho gamma t1 1 w1 with
        | Raise e => Failed (FromPath e)
        | Value wealthPath1 =>
            match createWealthPath2 r rho gamma t2 w1 tau w2 with
            | Raise e => Failed (FromPath e)
            | Value wealthPath2 =>
                match plot wealthPath1 (preTaxSample t1)
                           (seq 0 (S numPoints)) with
                | Raise e => Failed (FromPath e)
                | Value preTaxData =>
                    match plot wealthPath2 (postTaxSample t1 t2)
                               (seq 0 (S numPoints)) with
                    | Raise e => Failed (FromPath e)
                    | Value postTaxData =>
                        Drawn {| preTaxData := preTaxData;
                                 postTaxData := postTaxData;
                                 atTaxTime := {| x := t1; y := w1 |};
                                 afterTax := {| x := t1; y := w1 * (1 - tau) |};
                                 finalBequest := {| x := t1 + t2; y := w2 |} |}
                    end
                end
            end
        end in
      (chart, s)
  end.

End Charts.

End VisualizationService.

(* ===================================================================== *)
(** * services/OptimizationService.js: the samples of the grid

    The expressions of the two loops of [gridSearch], given names so that
    statements can mention them. *)
(* ===================================================================== *)

Definition w1Sample (space : OptimizationService.SearchSpace)
    (gridSteps i : nat) : float :=
  OptimizationService.w1Min space
  + (OptimizationService.w1Max space - OptimizationService.w1Min space)
    * of_nat i / of_nat gridSteps.

Definition w2Sample (space : OptimizationService.SearchSpace)
    (gridSteps j : nat) : float :=
  OptimizationService.w2Min space
  + (OptimizationService.w2Max space - OptimizationService.w2Min space)
    * of_nat j / of_nat gridSteps.

(** The running best is at least as good as the sample [q], if [q] passes
    [checkConstraints]. *)
Definition dominates {RT : Runtime} (parameters : Parameters)
    (best : OptimizationService.Best) (q : float * float) : Prop :=
  checkConstraints (fst q) (snd q) parameters = true ->
  le (OptimizationService.utilityAt parameters (fst q) (snd q))
     (snd (fst best)) = true.

(** The running best is still the initial one, or it is a sample of the
    grid. *)
Definition on_grid (space : OptimizationService.SearchSpace) (gridSteps : nat)
    (best : OptimizationService.Best) : Prop :=
  snd (fst best) = neg_infinity
  \/ exists i j, (i <= gridSteps)%nat /\ (j <= gridSteps)%nat
                 /\ fst (fst (fst best)) = w1Sample space gridSteps i
                 /\ snd (fst (fst best)) = w2Sample space gridSteps j.

(* ===================================================================== *)
(** * services/OptimizationService.js: predicates on the cache *)
(* ===================================================================== *)

(** Every cached result satisfies [P]. *)
Definition every_entry (P : OptimizationService.OptimizationResult -> Prop)
    (s : OptimizationService.Service) : Prop :=
  forall key entry,
    OptimizationService.cache s !! key = Some entry ->
    P (OptimizationService.entry_result entry).

(** *** The statistics on workers

    [performanceStats.workerTime] and [.mainThreadTime], the sums of the
    durations of the jobs, are arguments. *)
Definition calculateWorkerSpeedup (s : OptimizationService.Service)
    (workerTime mainThreadTime : float) : float :=
  let avgWorkerTime :=
    if (0 <? OptimizationService.workerJobs s)%nat
    then workerTime / of_nat (OptimizationService.workerJobs s) else 0 in
  let avgMainThreadTime :=
    if (0 <? OptimizationService.mainThreadJobs s)%nat
    then mainThreadTime / of_nat (OptimizationService.mainThreadJobs s) else 0 in
  if gt avgWorkerTime 0 && gt avgMainThreadTime 0
  then avgMainThreadTime / avgWorkerTime
  else 1.

Definition shouldRecommendWorkers (s : OptimizationService.Service)
    (workerTime mainThreadTime : float) : bool :=
  let speedup := calculateWorkerSpeedup s workerTime mainThreadTime in
  let totalJobs :=
    (OptimizationService.workerJobs s + OptimizationService.mainThreadJobs s)%nat in
  gt speedup 1.2 && (5 <=? totalJobs)%nat.

(** More concrete services, for the examples. *)
Module Cases.

Import OptimizationService.

(** Workers requested, and no fallback to the main thread. *)
Definition workersOnly : Options := {|
  maxIterations := 10;
  tolerance := 1e-12;
  gridSteps := 4;
  warmStartEnabled := true;
  cacheSize := 100;
  cacheTTL := 60000;
  useWebWorkers := true;
  fallbackToMainThread := false
|}.

(** A cache of two entries on a coarse grid. *)
Definition twoEntries : Options := {|
  maxIterations := 10;
  tolerance := 1e-12;
  gridSteps := 2;
  warmStartEnabled := true;
  cacheSize := 2;
  cacheTTL := 60000;
  useWebWorkers := false;
  fallbackToMainThread := true
|}.

(** The default parameters with another tax rate. *)
Definition taxed (tau : float) : Parameters :=
  {| r := 0.06; rho := 0.04; gamma := 0.7; eta := 1.7; beta := 3;
     tau := tau; t1 := 20; t2 := 25; w0 := Some 1 |}.

(** The default parameters with an interest rate that differs from the
    default one in the fourth decimal. *)
Definition almostDefault : Parameters :=
  {| r := 0.0604; rho := 0.04; gamma := 0.7; eta := 1.7; beta := 3;
     tau := 0; t1 := 20; t2 := 25; w0 := Some 1 |}.

(** The default parameters with a first period of seven years. *)
Definition sevenYears : Parameters :=
  {| r := 0.06; rho := 0.04; gamma := 0.7; eta := 1.7; beta := 3;
     tau := 0; t1 := 7; t2 := 25; w0 := Some 1 |}.

End Cases.

(* ===================================================================== *)
(** * The runtimes at work *)
(* ===================================================================== *)

Example Math_round_half : Math_round 2.5 = 3 /\ Math_round (-2.5) = -2.
Proof. split; vm_compute; reflexivity. Qed.

Example Math_round_thousandth :
  Math_round (0.0604 * 1000) / 1000 = 0.06.
Proof. vm_compute. reflexivity. Qed.

Example rem_fraction : rem 0.75 1 = 0.75 /\ strict_eq (rem (1 - 3) 1) 0 = true.
Proof. split; vm_compute; reflexivity. Qed.

Example Math_max_nan : PrimFloat.is_nan (Math_max 0.01 nan) = true.
Proof. vm_compute. reflexivity. Qed.

Example of_nat_100 : of_nat 100 = 100.
Proof. vm_compute. reflexivity. Qed.

Example Number_isInteger_cases :
  Number_isInteger 20 = true /\ Number_isInteger 20.5 = false
  /\ Number_isInteger infinity = false.
Proof. repeat split. Qed.

(** The reference [Math] functions agree with the usual values to a few
    units in the last place. *)
Example Reference_exp_close :
  Math_abs (Reference.exp 1.2 - 3.3201169227365472) <? 1e-15 = true
  /\ Reference.exp neg_infinity = 0
  /\ Reference.exp infinity = infinity.
Proof. repeat split. Qed.

Example Reference_log_close :
  Math_abs (Reference.log 10 - 2.302585092994046) <? 1e-15 = true
  /\ Reference.log 0 = neg_infinity
  /\ isNaN (Reference.log (-1)) = true.
Proof. repeat split. Qed.

Example Reference_pow_close :
  Math_abs (Reference.pow 2 0.5 - 1.4142135623730951) <? 1e-15 = true
  /\ Reference.pow nan 0 = 1
  /\ isNaN (Reference.pow nan 0.3) = true
  /\ isNaN (Reference.pow (-2) 0.5) = true.
Proof. repeat split. Qed.

(** [kappa(r, rho, 1)] is [rho]. *)
Example kappa_gamma_one : kappa 0.06 0.04 1 = Return 0.04.
Proof. vm_compute. reflexivity. Qed.

(** The default parameters are valid, and a search for them on a coarse
    grid returns a refined point. *)
Example DEFAULT_PARAMETERS_valid : validate DEFAULT_PARAMETERS = [].
Proof. vm_compute. reflexivity. Qed.

Example coarse_search :
  OptimizationService.performMainThreadOptimization (RT := Reference.runtime)
    (OptimizationService.create Scenario.coarse) DEFAULT_PARAMETERS
  = OptimizationService.Returns
      {| OptimizationService.m_w1 := 1.6036561229135426;
         OptimizationService.m_w2 := 2.4200876920524119;
         OptimizationService.m_utility := 26.997117266761101;
         OptimizationService.m_iterations := 10;
         OptimizationService.m_convergence := OptimizationService.converged;
         OptimizationService.m_method := OptimizationService.numerical_refinement;
         OptimizationService.fallbackUsed := true |}.
Proof. vm_compute. reflexivity. Qed.

(* ===================================================================== *)
(** * Properties of the number runtime *)
(* ===================================================================== *)

Section NumberFacts.

Lemma SFcompare_refl_finite s m e :
  SFcompare (S754_finite s m e) (S754_finite s m e) = Some Eq.
Proof.
  destruct s; simpl; rewrite Z.compare_refl, Pos.compare_refl; reflexivity.
Qed.

(** [isFinite] holds of zeros and finite numbers only. *)
Lemma isFinite_spec x :
  isFinite x =
    match Prim2SF x with
    | S754_zero _ | S754_finite _ _ _ => true
    | _ => false
    end.
Proof.
  unfold isFinite, PrimFloat.is_nan, PrimFloat.is_infinity.
  rewrite !FloatAxioms.eqb_spec, abs_spec.
  replace (Prim2SF infinity) with (S754_infinity false) by reflexivity.
  destruct (Prim2SF x) as [s | s | | s m e]; try reflexivity.
  - destruct s; reflexivity.
  - unfold SFeqb. rewrite SFcompare_refl_finite. reflexivity.
Qed.

Lemma isNaN_spec x :
  isNaN x = match Prim2SF x with S754_nan => true | _ => false end.
Proof.
  unfold isNaN, PrimFloat.is_nan. rewrite FloatAxioms.eqb_spec.
  destruct (Prim2SF x) as [s | s | | s m e]; try reflexivity.
  - destruct s; reflexivity.
  - unfold SFeqb. rewrite SFcompare_refl_finite. reflexivity.
Qed.

Lemma isFinite_not_NaN x : isFinite x = true -> isNaN x = false.
Proof. rewrite isFinite_spec, isNaN_spec. destruct (Prim2SF x); congruence. Qed.

Lemma isFinite_opp x : isFinite (- x) = isFinite x.
Proof.
  rewrite !isFinite_spec, opp_spec. destruct (Prim2SF x); reflexivity.
Qed.

Lemma isFinite_or_else x : isFinite x = true -> isFinite (or_else x 0) = true.
Proof. intros H. unfold or_else. destruct (truthy x); [exact H | reflexivity]. Qed.

Lemma SFcompare_antisym x y :
  SFcompare y x = option_map CompOpp (SFcompare x y).
Proof.
  destruct x as [sx | sx | | sx mx ex], y as [sy | sy | | sy my ey];
    try reflexivity;
    try (destruct sx; reflexivity);
    try (destruct sy; reflexivity);
    try (destruct sx, sy; reflexivity).
  destruct sx, sy; simpl; try reflexivity;
    rewrite (Z.compare_antisym ex ey); destruct (ex ?= ey)%Z; simpl;
    try reflexivity;
    rewrite (Pos.compare_cont_antisym mx my Eq); reflexivity.
Qed.

(** A strict inequality excludes the converse inequality. *)
Lemma lt_not_ge x y : lt x y = true -> ge x y = false.
Proof.
  unfold lt, ge. rewrite ltb_spec, leb_spec. unfold SFltb, SFleb.
  rewrite (SFcompare_antisym (Prim2SF x) (Prim2SF y)).
  destruct (SFcompare (Prim2SF x) (Prim2SF y)) as [[] |]; simpl; congruence.
Qed.

Lemma gt_not_le x y : gt x y = true -> le x y = false.
Proof. unfold gt, le. intros H. apply (lt_not_ge y x H). Qed.

Lemma lt_le x y : lt x y = true -> le x y = true.
Proof.
  unfold lt, le. rewrite ltb_spec, leb_spec. unfold SFltb, SFleb.
  destruct (SFcompare (Prim2SF x) (Prim2SF y)) as [[] |]; congruence.
Qed.

Lemma not_le_not_lt x y : le x y = false -> lt x y = false.
Proof.
  intros H. destruct (lt x y) eqn:E; [| reflexivity].
  apply lt_le in E. congruence.
Qed.

Lemma le_refl_finite x : isFinite x = true -> le x x = true.
Proof.
  unfold le. rewrite isFinite_spec, leb_spec. unfold SFleb.
  destruct (Prim2SF x) as [s | s | | s m e]; try discriminate; intros _.
  - reflexivity.
  - rewrite SFcompare_refl_finite. reflexivity.
Qed.

Lemma SFcompare_opp_swap x y :
  SFcompare x (SFopp y) = SFcompare y (SFopp x).
Proof.
  destruct x as [sx | sx | | sx mx ex], y as [sy | sy | | sy my ey];
    try reflexivity;
    try (destruct sx; reflexivity);
    try (destruct sy; reflexivity);
    try (destruct sx, sy; reflexivity).
  destruct sx, sy; simpl; try reflexivity;
    rewrite (Z.compare_antisym ex ey); destruct (ex ?= ey)%Z; simpl;
    try reflexivity.
  - f_equal. exact (Pos.compare_cont_antisym mx my Eq).
  - f_equal. symmetry. exact (Pos.compare_cont_antisym my mx Eq).
Qed.

(** [a <= -u] and [u <= -a] say the same. *)
Lemma le_opp_swap a u : le a (- u) = le u (- a).
Proof.
  unfold le. rewrite !leb_spec, !opp_spec. unfold SFleb.
  rewrite (SFcompare_opp_swap (Prim2SF a) (Prim2SF u)). reflexivity.
Qed.

(** A number that is neither [<= 0] nor [>= M], for a number [M], is finite
    unless it is NaN. *)
Lemma between_finite w M :
  le w 0 = false -> ge w M = false ->
  isNaN M = false -> isNaN w = false -> isFinite w = true.
Proof.
  unfold le, ge. rewrite !leb_spec, !isNaN_spec, isFinite_spec.
  replace (Prim2SF 0) with (S754_zero false) by reflexivity.
  unfold SFleb.
  destruct (Prim2SF w) as [s | s | | s m e], (Prim2SF M) as [sM | sM | | sM mM eM];
    simpl; try congruence;
    try (destruct s; simpl; congruence);
    try (destruct s, sM; simpl; congruence).
Qed.

End NumberFacts.

(* ===================================================================== *)
(** * math/UtilityFunctions.js: properties *)
(* ===================================================================== *)

Section UtilityFacts.

Context {RT : Runtime}.

Lemma sentinel_finite : isFinite sentinel = true.
Proof. reflexivity. Qed.

Lemma kappa_gamma_zero r rho gamma :
  strict_eq gamma 0 = true -> kappa r rho gamma = Throw GammaZero.
Proof. intros H. unfold kappa. rewrite H. reflexivity. Qed.

Lemma kappa_returns_finite r rho gamma k :
  kappa r rho gamma = Return k -> isFinite k = true.
Proof.
  unfold kappa. destruct (strict_eq gamma 0); [discriminate |].
  destruct (isFinite _) eqn:E; simpl; [| discriminate].
  intros [= <-]. exact E.
Qed.

(** Whatever [U2] returns is a finite number. *)
Lemma U2_returns_finite r rho gamma T A B u :
  U2 r rho gamma T A B = Return u -> isFinite u = true.
Proof.
  unfold U2.
  destruct (le T 0); [discriminate |].
  destruct (le _ 0); [discriminate |].
  destruct (kappa r rho gamma) as [k | e]; [| discriminate].
  destruct (le _ 0); [discriminate |].
  destruct (_ && _); [discriminate |].
  destruct (_ && _); [discriminate |].
  match goal with |- context [isFinite ?x] => destruct (isFinite x) eqn:E end;
    simpl; [| discriminate].
  destruct (isNaN _); [discriminate |].
  intros [= <-]. exact E.
Qed.

Lemma U2_gamma_zero r rho gamma T A B :
  strict_eq gamma 0 = true -> returned (U2 r rho gamma T A B) = false.
Proof.
  intros H. unfold U2.
  destruct (le T 0); [reflexivity |].
  destruct (le _ 0); [reflexivity |].
  rewrite (kappa_gamma_zero _ _ _ H). reflexivity.
Qed.

End UtilityFacts.

(** C6: [checkConstraints] is false as soon as [w1 <= 0], [w2 <= 0],
    [w1 >= exp(r t1) w0] or [w2 >= w1 (1 - tau) exp(r t2)] holds, and true
    when the four strict inequalities hold; being a total function to
    [bool], it has no other outcome. *)
Theorem checkConstraints_boundaries {RT : Runtime}
    (w1 w2 : float) (parameters : Parameters) :
  ((le w1 0 = true \/ le w2 0 = true \/
    ge w1 (maxW1 parameters) = true \/ ge w2 (maxW2 w1 parameters) = true) ->
   checkConstraints w1 w2 parameters = false)
  /\ (gt w1 0 = true -> gt w2 0 = true ->
      lt w1 (maxW1 parameters) = true -> lt w2 (maxW2 w1 parameters) = true ->
      checkConstraints w1 w2 parameters = true).
Proof.
  unfold checkConstraints, maxW1, maxW2. split.
  - intros H.
    destruct (le w1 0) eqn:E1; [reflexivity |].
    destruct (le w2 0) eqn:E2; [reflexivity |]. simpl.
    destruct (ge w1 _) eqn:E3; [reflexivity |].
    destruct (ge w2 _) eqn:E4; [reflexivity |].
    destruct H as [H | [H | [H | H]]]; discriminate.
  - intros H1 H2 H3 H4.
    rewrite (gt_not_le _ _ H1), (gt_not_le _ _ H2). simpl.
    rewrite (lt_not_ge _ _ H3), (lt_not_ge _ _ H4). reflexivity.
Qed.

Lemma checkConstraints_boundaries_witness :
  checkConstraints (RT := Reference.runtime) 2 1.5 DEFAULT_PARAMETERS = true
  /\ checkConstraints (RT := Reference.runtime) 0 1.5 DEFAULT_PARAMETERS = false.
Proof.
  split.
  - apply (proj2 (checkConstraints_boundaries (RT := Reference.runtime)
                    2 1.5 DEFAULT_PARAMETERS)); vm_compute; reflexivity.
  - apply (proj1 (checkConstraints_boundaries (RT := Reference.runtime)
                    0 1.5 DEFAULT_PARAMETERS)).
    left. vm_compute. reflexivity.
Defined.

(** C7 (as the code has it): [U2] throws whenever [T <= 0], whenever
    [term1 = exp(rT) A - B <= 0] and whenever
    [term2 = exp(rT) - exp((r - rho) T / gamma) <= 0]; it also throws
    whenever [gamma] is [0], whenever [kappa = (r (gamma - 1) + rho) / gamma]
    is not a finite number and whenever the closed form is not one.  When
    none of the six holds, [U2] returns the closed form. *)
Theorem U2_feasibility {RT : Runtime} (r rho gamma T A B : float) :
  (le T 0 = true -> returned (U2 r rho gamma T A B) = false)
  /\ (le (term1 r T A B) 0 = true -> returned (U2 r rho gamma T A B) = false)
  /\ (le (term2 r rho gamma T) 0 = true ->
      returned (U2 r rho gamma T A B) = false)
  /\ (strict_eq gamma 0 = true -> returned (U2 r rho gamma T A B) = false)
  /\ (isFinite (kappaFormula r rho gamma) = false ->
      returned (U2 r rho gamma T A B) = false)
  /\ (isFinite (periodUtilityFormula r rho gamma T A B) = false ->
      returned (U2 r rho gamma T A B) = false)
  /\ (le T 0 = false -> le (term1 r T A B) 0 = false ->
      le (term2 r rho gamma T) 0 = false ->
      strict_eq gamma 0 = false ->
      isFinite (kappaFormula r rho gamma) = true ->
      isFinite (periodUtilityFormula r rho gamma T A B) = true ->
      U2 r rho gamma T A B = Return (periodUtilityFormula r rho gamma T A B)).
Proof.
  unfold U2, kappa, periodUtilityFormula, kappaFormula, term1, term2.
  cbv zeta.
  destruct (le T 0) eqn:ET; [repeat split; (reflexivity || discriminate) |].
  destruct (le (Math_exp (r * T) * A - B) 0) eqn:E1;
    [repeat split; (reflexivity || discriminate) |].
  destruct (strict_eq gamma 0) eqn:Eg;
    [repeat split; (reflexivity || discriminate) |].
  destruct (isFinite ((r * (gamma - 1) + rho) / gamma)) eqn:Ek; cbn [negb];
    [| repeat split; (reflexivity || discriminate)].
  destruct (le (Math_exp (r * T) - Math_exp ((r - rho) * T / gamma)) 0) eqn:E2;
    [repeat split; (reflexivity || discriminate) |].
  rewrite (not_le_not_lt _ _ E1), (not_le_not_lt _ _ E2), !andb_false_r.
  match goal with
  | |- context [negb (isFinite ?x) || isNaN ?x] =>
      destruct (isFinite x) eqn:Ef; cbn [negb orb]
  end.
  - rewrite (isFinite_not_NaN _ Ef).
    repeat split; (reflexivity || discriminate).
  - repeat split; (reflexivity || discriminate).
Qed.

Lemma U2_feasibility_witness :
  returned (U2 (RT := Reference.runtime) 0.06 0.04 0.7 (-1) 1 2) = false
  /\ returned (U2 (RT := Reference.runtime) 0.06 0.04 0.7 20 1 4) = false
  /\ returned (U2 (RT := Reference.runtime) 0.06 0.04 0.1 20 1 2) = false
  /\ U2 (RT := Reference.runtime) 0.06 0.04 0.7 20 1 2
     = Return (periodUtilityFormula (RT := Reference.runtime)
                 0.06 0.04 0.7 20 1 2).
Proof.
  split; [| split; [| split]].
  - apply (proj1 (U2_feasibility (RT := Reference.runtime)
                    0.06 0.04 0.7 (-1) 1 2)). vm_compute. reflexivity.
  - apply (proj1 (proj2 (U2_feasibility (RT := Reference.runtime)
                           0.06 0.04 0.7 20 1 4))). vm_compute. reflexivity.
  - apply (proj1 (proj2 (proj2 (U2_feasibility (RT := Reference.runtime)
                                  0.06 0.04 0.1 20 1 2)))).
    vm_compute. reflexivity.
  - apply (proj2 (proj2 (proj2 (proj2 (proj2 (proj2
             (U2_feasibility (RT := Reference.runtime)
                0.06 0.04 0.7 20 1 2)))))));
      vm_compute; reflexivity.
Defined.

(** With none of [T <= 0], [term1 <= 0] and [term2 <= 0] and with a closed
    form that is a finite number, [U2] still throws: for a [gamma] so small
    that [kappa] overflows, and for [gamma = 0]. *)
Lemma U2_throws_past_the_guards :
  (le 20 0 = false
   /\ le (term1 (RT := Reference.runtime) 0.04 20 1 1) 0 = false
   /\ le (term2 (RT := Reference.runtime) 0.04 0.06 1e-320 20) 0 = false
   /\ isFinite (periodUtilityFormula (RT := Reference.runtime)
                  0.04 0.06 1e-320 20 1 1) = true
   /\ U2 (RT := Reference.runtime) 0.04 0.06 1e-320 20 1 1
      = Throw KappaNonFinite)
  /\ (le (term2 (RT := Reference.runtime) 0.04 0.06 0 20) 0 = false
      /\ isFinite (periodUtilityFormula (RT := Reference.runtime)
                     0.04 0.06 0 20 1 1) = true
      /\ U2 (RT := Reference.runtime) 0.04 0.06 0 20 1 1 = Throw GammaZero).
Proof. vm_compute. repeat split. Qed.

(** C2: [lifetimeUtility] always returns a finite number (it cannot throw:
    its value is a number in every case), and it returns the sentinel
    [-5000] whenever the period-1 utility or the period-2 utility throws,
    the bequest is not positive ([w2 <= 0]), the bequest term is not
    finite, or the combined total is not finite. *)
Theorem lifetimeUtility_total {RT : Runtime}
    (r rho gamma t1 t2 beta eta tau w0 w1 w2 : float) :
  let total := lifetimeUtility r rho gamma t1 t2 beta eta tau w0 w1 w2 in
  isFinite total = true
  /\ (returned (U2 r rho gamma t1 w0 w1) = false -> total = sentinel)
  /\ (returned (U2 r rho gamma t2 (w1 * (1 - tau)) w2) = false ->
      total = sentinel)
  /\ (le w2 0 = true -> total = sentinel)
  /\ (isFinite (bequestValue beta eta w2) = false -> total = sentinel)
  /\ (forall u1 u2,
        U2 r rho gamma t1 w0 w1 = Return u1 ->
        U2 r rho gamma t2 (w1 * (1 - tau)) w2 = Return u2 ->
        isFinite (u1 + Math_exp (- rho * t1) * u2 + bequestValue beta eta w2)
          = false ->
        total = sentinel).
Proof.
  unfold lifetimeUtility, bequestValue.
  destruct (U2 r rho gamma t1 w0 w1) as [u1 | e1];
    [| cbv zeta; repeat split; (reflexivity || discriminate)].
  destruct (negb (isFinite u1) || strict_eq u1 neg_infinity);
    [cbv zeta; repeat split; reflexivity |].
  destruct (U2 r rho gamma t2 (w1 * (1 - tau)) w2) as [u2 | e2];
    [| cbv zeta; repeat split; (reflexivity || discriminate)].
  destruct (negb (isFinite u2) || strict_eq u2 neg_infinity);
    [cbv zeta; repeat split; reflexivity |].
  destruct (le w2 0); [cbv zeta; repeat split; reflexivity |].
  rewrite andb_false_l.
  assert (Hb :
    (if strict_eq eta 1
     then Some (beta * Math_log (Math_max w2 1e-10))
     else Some (beta * Math_pow (Math_max w2 1e-10) (1 - eta) / (1 - eta)))
    = Some (if strict_eq eta 1
            then beta * Math_log (Math_max w2 1e-10)
            else beta * Math_pow (Math_max w2 1e-10) (1 - eta) / (1 - eta)))
    by (destruct (strict_eq eta 1); reflexivity).
  cbv zeta. rewrite Hb. clear Hb.
  set (bequest := if strict_eq eta 1 then _ else _).
  destruct (isFinite bequest) eqn:Eb; simpl;
    [| repeat split; (reflexivity || discriminate)].
  rewrite (isFinite_not_NaN _ Eb).
  set (sum := u1 + Math_exp (- rho * t1) * u2 + bequest).
  destruct (isFinite sum) eqn:Es; simpl.
  - rewrite (isFinite_not_NaN _ Es). repeat split; try discriminate.
    + exact Es.
    + intros u1' u2' [= <-] [= <-]. fold sum. congruence.
  - repeat split; reflexivity.
Qed.

Lemma lifetimeUtility_total_witness :
  lifetimeUtility (RT := Reference.runtime) 0.06 0.04 0.7 20 25 3 1.7 0 1 4 1.5
  = sentinel
  /\ lifetimeUtility (RT := Reference.runtime)
       0.06 0.04 0.7 20 25 3 1.7 0 1 2 (-1)
     = sentinel.
Proof.
  split.
  - apply (proj1 (proj2 (lifetimeUtility_total (RT := Reference.runtime)
                           0.06 0.04 0.7 20 25 3 1.7 0 1 4 1.5))).
    vm_compute. reflexivity.
  - apply (proj1 (proj2 (proj2 (proj2
             (lifetimeUtility_total (RT := Reference.runtime)
                0.06 0.04 0.7 20 25 3 1.7 0 1 2 (-1)))))).
    vm_compute. reflexivity.
Defined.

(** C10: when [gamma] is [0] (or [-0]), [kappa] throws its domain error,
    [U2] throws with it, and [lifetimeUtility] returns the sentinel [-5000]
    whatever the other arguments are. *)
Theorem lifetimeUtility_gamma_zero {RT : Runtime}
    (r rho gamma t1 t2 beta eta tau w0 w1 w2 : float) :
  strict_eq gamma 0 = true ->
  kappa r rho gamma = Throw GammaZero
  /\ returned (U2 r rho gamma t1 w0 w1) = false
  /\ lifetimeUtility r rho gamma t1 t2 beta eta tau w0 w1 w2 = sentinel.
Proof.
  intros H. split; [exact (kappa_gamma_zero r rho gamma H) | split].
  - exact (U2_gamma_zero r rho gamma t1 w0 w1 H).
  - pose proof (U2_gamma_zero r rho gamma t1 w0 w1 H) as HU.
    unfold lifetimeUtility.
    destruct (U2 r rho gamma t1 w0 w1); [discriminate | reflexivity].
Qed.

Lemma lifetimeUtility_gamma_zero_witness :
  lifetimeUtility (RT := Reference.runtime) 0.06 0.04 0 20 25 3 1.7 0 1 2 1.5
  = sentinel.
Proof.
  apply (lifetimeUtility_gamma_zero (RT := Reference.runtime)
           0.06 0.04 0 20 25 3 1.7 0 1 2 1.5).
  vm_compute. reflexivity.
Defined.

(* ===================================================================== *)
(** * services/OptimizationService.js: the result cache *)
(* ===================================================================== *)

Import OptimizationService.

Section CacheFacts.

Implicit Types (s : Service) (key : CacheKey) (order : list CacheKey).
Implicit Types (c : gmap CacheKey CacheEntry).

Lemma size_list_to_set_le order :
  size (list_to_set order : gset CacheKey) <= length order.
Proof.
  induction order as [| k order IH].
  - rewrite list_to_set_nil, size_empty. simpl. lia.
  - rewrite list_to_set_cons, size_union_alt, size_singleton. simpl.
    assert (size (list_to_set order ∖ {[k]} : gset CacheKey)
            <= size (list_to_set order : gset CacheKey)) as Hle.
    { apply subseteq_size. set_solver. }
    lia.
Qed.

Lemma indexOf_lookup order key i :
  indexOf order key = Some i -> order !! i = Some key.
Proof.
  revert i. induction order as [| k order IH]; intros i; simpl; [discriminate |].
  destruct (decide (k = key)) as [-> | _].
  - intros [= <-]. reflexivity.
  - destruct (indexOf order key) as [j |]; simpl; [| discriminate].
    intros [= <-]. simpl. apply IH. reflexivity.
Qed.

Lemma indexOf_elem order key :
  key ∈ order -> is_Some (indexOf order key).
Proof.
  induction order as [| k order IH]; [intros H; inversion H |].
  intros H. simpl. destruct (decide (k = key)); [eauto |].
  apply elem_of_cons in H as [-> | H]; [congruence |].
  destruct (IH H) as [j ->]. simpl. eauto.
Qed.

Lemma splice1_length order i key :
  order !! i = Some key -> S (length (splice1 order i)) = length order.
Proof.
  intros H. apply lookup_lt_Some in H. unfold splice1.
  rewrite length_app, length_take, length_drop. lia.
Qed.

Lemma splice1_elem order i key x :
  order !! i = Some key -> x ∈ order -> x = key \/ x ∈ splice1 order i.
Proof.
  intros H Hx. rewrite <- (take_drop_middle order i key H) in Hx.
  unfold splice1. set_solver.
Qed.

Lemma cache_inv_size s : cache_inv s -> size (cache s) <= cacheSize (options s).
Proof.
  intros [Hdom Hlen]. rewrite <- size_dom.
  pose proof (subseteq_size _ _ Hdom).
  pose proof (size_list_to_set_le (cacheOrder s)). lia.
Qed.

Lemma cache_inv_create opts : cache_inv (create opts).
Proof. split; simpl; [set_solver | lia]. Qed.

Lemma cache_inv_clearCache s : cache_inv (clearCache s).
Proof. split; simpl; [set_solver | lia]. Qed.

Lemma getFromCache_options s key now :
  options (snd (getFromCache s key now)) = options s.
Proof.
  unfold getFromCache. destruct (cache s !! key) as [entry |]; [| reflexivity].
  destruct (_ >? _)%Z; reflexivity.
Qed.

Lemma getFromCache_warmStart s key now :
  lastOptimalResult (snd (getFromCache s key now)) = lastOptimalResult s
  /\ lastParameters (snd (getFromCache s key now)) = lastParameters s.
Proof.
  unfold getFromCache. destruct (cache s !! key) as [entry |]; [| split; reflexivity].
  destruct (_ >? _)%Z; split; reflexivity.
Qed.

Lemma getFromCache_inv s key now :
  cache_inv s -> cache_inv (snd (getFromCache s key now)).
Proof.
  intros [Hdom Hlen]. unfold getFromCache.
  destruct (cache s !! key) as [entry |] eqn:E; [| split; assumption].
  destruct (_ >? _)%Z; split; simpl; try assumption.
  - rewrite dom_delete_L. set_solver.
  - assert (Hin : key ∈ cacheOrder s).
    { apply (elem_of_list_to_set (C := gset CacheKey)), Hdom, elem_of_dom. eauto. }
    destruct (indexOf_elem _ _ Hin) as [i Hi]. rewrite Hi.
    apply indexOf_lookup in Hi.
    intros x Hx. apply Hdom in Hx.
    rewrite elem_of_list_to_set in Hx.
    destruct (splice1_elem _ _ _ _ Hi Hx) as [-> | Hs]; set_solver.
  - assert (Hin : key ∈ cacheOrder s).
    { apply (elem_of_list_to_set (C := gset CacheKey)), Hdom, elem_of_dom. eauto. }
    destruct (indexOf_elem _ _ Hin) as [i Hi]. rewrite Hi.
    apply indexOf_lookup in Hi.
    rewrite (splice1_length _ _ _ Hi). exact Hlen.
Qed.

(** What a read of the cache returns. *)
Lemma getFromCache_hit s key now entry :
  cache s !! key = Some entry ->
  (now - timestamp entry <= cacheTTL (options s))%Z ->
  fst (getFromCache s key now) = Some (entry_result entry)
  /\ cache (snd (getFromCache s key now)) = cache s.
Proof.
  intros E Hage. unfold getFromCache. rewrite E.
  destruct (_ >? _)%Z eqn:Hgt; [lia |]. split; reflexivity.
Qed.

Lemma getFromCache_expired s key now entry :
  cache s !! key = Some entry ->
  (now - timestamp entry > cacheTTL (options s))%Z ->
  getFromCache s key now
  = (None, set_cache s (delete key (cache s)) (cacheOrder s)).
Proof.
  intros E Hage. unfold getFromCache. rewrite E.
  destruct (_ >? _)%Z eqn:Hgt; [reflexivity | lia].
Qed.

Lemma getFromCache_Some s key now cached :
  fst (getFromCache s key now) = Some cached ->
  exists entry,
    cache s !! key = Some entry /\ cached = entry_result entry
    /\ (now - timestamp entry <= cacheTTL (options s))%Z
    /\ cache (snd (getFromCache s key now)) = cache s.
Proof.
  unfold getFromCache. destruct (cache s !! key) as [entry |]; [| discriminate].
  destruct (_ >? _)%Z eqn:Hgt; simpl; [discriminate |].
  intros [= <-]. exists entry. repeat split. lia.
Qed.

Lemma getFromCache_None_lookup s key now :
  fst (getFromCache s key now) = None ->
  cache (snd (getFromCache s key now)) !! key = None.
Proof.
  unfold getFromCache. destruct (cache s !! key) as [entry |] eqn:E; [| intros _; exact E].
  destruct (_ >? _)%Z; simpl; [| discriminate].
  intros _. apply lookup_delete_eq.
Qed.

(** *** The eviction loop *)

Lemma evict_inv fuel size c order c' order' :
  dom c ⊆ list_to_set order ->
  evict fuel size c order = Some (c', order') ->
  dom c' ⊆ list_to_set order' /\ length order' < size.
Proof.
  revert c order. induction fuel as [| fuel IH]; intros c order Hdom; simpl.
  - destruct (size <=? length order)%nat eqn:E; [discriminate |].
    intros [= <- <-]. apply Nat.leb_gt in E. split; [exact Hdom | lia].
  - destruct (size <=? length order)%nat eqn:E.
    + destruct (last order) as [oldKey |] eqn:El.
      * apply IH. apply last_Some in El as [l' ->].
        rewrite removelast_last, dom_delete_L.
        rewrite list_to_set_app_L in Hdom. set_solver.
      * apply IH. exact Hdom.
    + intros [= <- <-]. apply Nat.leb_gt in E. split; [exact Hdom | lia].
Qed.

(** With a capacity of at least one the loop ends within
    [length order + 1] iterations. *)
Lemma evict_terminates size c order fuel :
  1 <= size -> length order < fuel ->
  is_Some (evict fuel size c order).
Proof.
  intros Hsize. revert c order.
  induction fuel as [| fuel IH]; intros c order Hfuel; [lia |]. simpl.
  destruct (size <=? length order)%nat eqn:E; [| eauto].
  apply Nat.leb_le in E.
  destruct (last order) as [oldKey |] eqn:El.
  - apply IH. apply last_Some in El as [l' ->].
    rewrite removelast_last. rewrite length_app in Hfuel. simpl in Hfuel. lia.
  - apply last_None in El. subst order. simpl in E. lia.
Qed.

(** More iterations than needed change nothing. *)
Lemma evict_fuel_irrelevant fuel fuel' size c order res :
  evict fuel size c order = Some res -> fuel <= fuel' ->
  evict fuel' size c order = Some res.
Proof.
  revert fuel' c order. induction fuel as [| fuel IH]; intros fuel' c order; simpl.
  - destruct (size <=? length order)%nat eqn:E; [discriminate |].
    intros H _. destruct fuel'; simpl; rewrite E; exact H.
  - destruct (size <=? length order)%nat eqn:E.
    + intros H Hle. destruct fuel' as [| fuel']; [lia |]. simpl. rewrite E.
      destruct (last order); apply IH; (exact H || lia).
    + intros H _. destruct fuel'; simpl; rewrite E; exact H.
Qed.

(** With a capacity of zero the loop never ends. *)
Lemma evict_never_ends fuel c order : evict fuel 0 c order = None.
Proof.
  revert c order. induction fuel as [| fuel IH]; intros c order; simpl;
    [reflexivity |].
  destruct (last order); apply IH.
Qed.

Lemma addToCache_returns s key result now :
  1 <= cacheSize (options s) -> is_Some (addToCache s key result now).
Proof.
  intros H. unfold addToCache.
  destruct (evict_terminates (cacheSize (options s)) (cache s) (cacheOrder s)
              (S (length (cacheOrder s))) H) as [[c order] ->]; [lia |].
  eauto.
Qed.

Lemma addToCache_never_returns s key result now :
  cacheSize (options s) = 0%nat -> addToCache s key result now = None.
Proof.
  intros H. unfold addToCache. rewrite H, evict_never_ends. reflexivity.
Qed.

Lemma addToCache_inv s key result now s' :
  cache_inv s -> addToCache s key result now = Some s' ->
  cache_inv s' /\ options s' = options s
  /\ lastOptimalResult s' = lastOptimalResult s
  /\ lastParameters s' = lastParameters s
  /\ cache s' !! key = Some {| entry_result := result; timestamp := now |}.
Proof.
  intros [Hdom Hlen]. unfold addToCache.
  destruct (evict _ _ _ _) as [[c order] |] eqn:E; [| discriminate].
  intros [= <-]. apply evict_inv in E as [Hdom' Hlen']; [| exact Hdom].
  repeat split; simpl.
  - rewrite dom_insert_L. set_solver.
  - lia.
  - apply lookup_insert_eq.
Qed.

End CacheFacts.

(* ===================================================================== *)
(** * services/OptimizationService.js: [findOptimalWealth] and its state *)
(* ===================================================================== *)

Lemma pair_of_fst {A B : Type} (x : A * B) (a : A) :
  fst x = a -> x = (a, snd x).
Proof. intros <-. destruct x; reflexivity. Defined.

Section ServiceFacts.

Context {RT : Runtime}.

Implicit Types (s : Service) (parameters : Parameters) (clock : Clock).

(** [performOptimization] touches nothing but the job counter. *)
Lemma performOptimization_frame s parameters clock :
  let s' := snd (performOptimization s parameters clock) in
  cache s' = cache s /\ cacheOrder s' = cacheOrder s
  /\ options s' = options s
  /\ lastOptimalResult s' = lastOptimalResult s
  /\ lastParameters s' = lastParameters s.
Proof.
  unfold performOptimization.
  destruct (if useWebWorkers (options s) then _ else _) as [res | [errs | cause] |];
    simpl; repeat split.
Qed.

Lemma performOptimization_inv s parameters clock :
  cache_inv s -> cache_inv (snd (performOptimization s parameters clock)).
Proof.
  pose proof (performOptimization_frame s parameters clock) as (Hc & Ho & Hopt & _).
  cbv zeta in *. unfold cache_inv. rewrite Hc, Ho, Hopt. tauto.
Qed.

(** The two ways in which [findOptimalWealth] returns: from the cache, or
    after a search whose result is cached and becomes the warm start. *)
Lemma findOptimalWealth_Returns s parameters clock res s' :
  findOptimalWealth s parameters clock = (Returns res, s') ->
  let key := generateCacheKey parameters in
  let looked := getFromCache s key (now_lookup clock) in
  validate parameters = []
  /\ ((exists cached,
         fst looked = Some cached
         /\ res = {| fields := cached; cacheHit := true |}
         /\ s' = snd looked)
      \/ (exists result computed stored,
            fst looked = None
            /\ performOptimization (snd looked) parameters clock
               = (Returns result, computed)
            /\ addToCache computed key result (now_insert clock) = Some stored
            /\ res = {| fields := result; cacheHit := false |}
            /\ s' = updateWarmStart stored parameters result)).
Proof.
  unfold findOptimalWealth.
  destruct (validate parameters) as [| error errors]; [| discriminate].
  cbv zeta.
  destruct (getFromCache s _ _) as [[cached |] looked]; simpl.
  - intros [= <- <-]. split; [reflexivity |]. left. eauto.
  - destruct (performOptimization looked parameters clock)
      as [[result | e |] computed] eqn:Ep; try discriminate.
    destruct (addToCache computed _ result _) as [stored |] eqn:Ea;
      [| discriminate].
    intros [= <- <-]. split; [reflexivity |]. right.
    exists result, computed, stored. repeat split; assumption.
Qed.

(** Every call keeps the options and the invariant of the cache. *)
Lemma findOptimalWealth_inv s parameters clock :
  cache_inv s ->
  fst (findOptimalWealth s parameters clock) <> Diverges ->
  cache_inv (snd (findOptimalWealth s parameters clock))
  /\ options (snd (findOptimalWealth s parameters clock)) = options s.
Proof.
  intros Hinv. unfold findOptimalWealth.
  destruct (validate parameters) as [| error errors]; [| intros _; split; [exact Hinv | reflexivity]].
  pose proof (getFromCache_inv s (generateCacheKey parameters)
                (now_lookup clock) Hinv) as Hl.
  pose proof (getFromCache_options s (generateCacheKey parameters)
                (now_lookup clock)) as Hlo.
  destruct (getFromCache s _ _) as [[cached |] looked]; simpl in *.
  - intros _. split; assumption.
  - pose proof (performOptimization_inv looked parameters clock Hl) as Hp.
    pose proof (performOptimization_frame looked parameters clock)
      as (_ & _ & Hpo & _). cbv zeta in Hpo.
    destruct (performOptimization looked parameters clock)
      as [[result | e |] computed]; simpl in *.
    + destruct (addToCache computed _ result _) as [stored |] eqn:Ea; simpl;
        [| congruence].
      intros _. apply addToCache_inv in Ea as (Hi & Ho & _); [| exact Hp].
      split; [exact Hi | simpl; congruence].
    + intros _. split; [exact Hp | congruence].
    + congruence.
Qed.

(** With a capacity of at least one entry every call comes back. *)
Lemma findOptimalWealth_comes_back s parameters clock :
  (1 <= cacheSize (options s))%nat ->
  fst (findOptimalWealth s parameters clock) <> Diverges.
Proof.
  intros Hsize. unfold findOptimalWealth.
  destruct (validate parameters); [| discriminate].
  pose proof (getFromCache_options s (generateCacheKey parameters)
                (now_lookup clock)) as Hlo.
  destruct (getFromCache s _ _) as [[cached |] looked]; simpl in *;
    [discriminate |].
  pose proof (performOptimization_frame looked parameters clock)
    as (_ & _ & Hpo & _). cbv zeta in Hpo.
  assert (Hnd : fst (performOptimization looked parameters clock) <> Diverges).
  { unfold performOptimization, performMainThreadOptimization.
    destruct (useWebWorkers (options looked));
      [destruct (fallbackToMainThread (options looked)) |];
      try discriminate;
      (destruct (negb _); [discriminate |];
       destruct (numericalRefinement _ _ _); discriminate). }
  destruct (performOptimization looked parameters clock)
    as [[result | e |] computed]; simpl in *; try discriminate; [| congruence].
  destruct (addToCache_returns computed (generateCacheKey parameters) result
              (now_insert clock)) as [stored ->]; [| discriminate].
  rewrite Hpo, Hlo. exact Hsize.
Qed.

Lemma step_inv s call s' :
  cache_inv s -> step s call = Some s' ->
  cache_inv s' /\ options s' = options s.
Proof.
  intros Hinv. destruct call as [parameters clock |]; simpl.
  - pose proof (findOptimalWealth_inv s parameters clock Hinv) as H.
    destruct (findOptimalWealth s parameters clock) as [[res | e |] s1];
      simpl in *; try discriminate; intros [= <-]; apply H; discriminate.
  - intros [= <-]. split; [apply cache_inv_clearCache | reflexivity].
Qed.

Lemma run_inv calls s s' :
  cache_inv s -> run s calls = Some s' ->
  cache_inv s' /\ options s' = options s.
Proof.
  revert s. induction calls as [| call calls IH]; intros s Hinv; simpl.
  - intros [= <-]. split; [exact Hinv | reflexivity].
  - destruct (step s call) as [s1 |] eqn:E; [| discriminate].
    apply step_inv in E as [H1 Ho]; [| exact Hinv].
    intros Hr. destruct (IH s1 H1 Hr) as [H2 Ho2]. split; [exact H2 | congruence].
Qed.

End ServiceFacts.

(** C8: a call of [findOptimalWealth] that is answered from the cache leaves
    the warm-start slot as it was; a call that returns a newly computed
    result overwrites the slot with that result's [(w1, w2)] and the
    parameters of the call. *)
Theorem warmStart_updated_on_search_only {RT : Runtime}
    (s : Service) (parameters : Parameters) (clock : Clock)
    (res : FinalResult) (s' : Service) :
  findOptimalWealth s parameters clock = (Returns res, s') ->
  (cacheHit res = true ->
   lastOptimalResult s' = lastOptimalResult s
   /\ lastParameters s' = lastParameters s)
  /\ (cacheHit res = false ->
      lastOptimalResult s' = Some (w1 (fields res), w2 (fields res))
      /\ lastParameters s' = Some parameters).
Proof.
  intros H. apply findOptimalWealth_Returns in H as [_ H]. cbv zeta in H.
  destruct H as [(cached & _ & -> & ->) | (result & computed & stored & _ & _ & _ & -> & ->)].
  - split; [intros _ | discriminate]. apply getFromCache_warmStart.
  - split; [discriminate | intros _]. split; reflexivity.
Qed.

Lemma warmStart_updated_on_search_only_witness :
  lastParameters
    (snd (findOptimalWealth (RT := Reference.runtime) (create Scenario.coarse)
            DEFAULT_PARAMETERS (Scenario.at_time 0)))
  = Some DEFAULT_PARAMETERS.
Proof.
  assert (H : exists res,
             fst (findOptimalWealth (RT := Reference.runtime)
                    (create Scenario.coarse) DEFAULT_PARAMETERS
                    (Scenario.at_time 0)) = Returns res
             /\ cacheHit res = false).
  { vm_compute. eexists. split; reflexivity. }
  destruct H as (res & Hfst & Hmiss).
  exact (proj2 (proj2 (warmStart_updated_on_search_only
                         (RT := Reference.runtime) _ _ _ _ _
                         (pair_of_fst _ _ Hfst)) Hmiss)).
Defined.

(** C5: after [findOptimalWealth] has returned for some parameters, the
    cache holds an entry for them with the returned values.  A second call
    with the same parameters no later than [cacheTTL] after the entry was
    inserted returns the same values with [cacheHit] true.  A second call
    later than that finds the entry expired: the read deletes it from the
    map and reports a miss, and whatever the call then returns was computed
    anew by [performOptimization]. *)
Theorem cached_result_reused {RT : Runtime}
    (s : Service) (parameters : Parameters) (clock1 : Clock)
    (res1 : FinalResult) (s1 : Service) :
  findOptimalWealth s parameters clock1 = (Returns res1, s1) ->
  let key := generateCacheKey parameters in
  exists entry,
    cache s1 !! key = Some entry
    /\ entry_result entry = fields res1
    /\ (cacheHit res1 = false -> timestamp entry = now_insert clock1)
    /\ (forall clock2,
          (now_lookup clock2 - timestamp entry <= cacheTTL (options s1))%Z ->
          exists s2,
            findOptimalWealth s1 parameters clock2
            = (Returns {| fields := fields res1; cacheHit := true |}, s2))
    /\ (forall clock2,
          (now_lookup clock2 - timestamp entry > cacheTTL (options s1))%Z ->
          let evicted := set_cache s1 (delete key (cache s1)) (cacheOrder s1) in
          getFromCache s1 key (now_lookup clock2) = (None, evicted)
          /\ cache evicted !! key = None
          /\ forall res2 s2,
               findOptimalWealth s1 parameters clock2 = (Returns res2, s2) ->
               cacheHit res2 = false
               /\ fst (performOptimization evicted parameters clock2)
                  = Returns (fields res2)).
Proof.
  intros H key.
  pose proof H as Hret. apply findOptimalWealth_Returns in Hret as [Hvalid Hret].
  cbv zeta in Hret. fold key in Hret.
  assert (Hentry : exists entry,
            cache s1 !! key = Some entry /\ entry_result entry = fields res1
            /\ (cacheHit res1 = false -> timestamp entry = now_insert clock1)).
  { destruct Hret as [(cached & Hl & -> & ->)
                     | (result & computed & stored & _ & _ & Ha & -> & ->)].
    - apply getFromCache_Some in Hl as (entry & He & -> & _ & Hc).
      exists entry. rewrite Hc. repeat split; [exact He | discriminate].
    - exists {| entry_result := result; timestamp := now_insert clock1 |}.
      unfold addToCache in Ha.
      destruct (evict _ _ _ _) as [[c order] |]; [| discriminate].
      injection Ha as <-. repeat split. simpl. apply lookup_insert_eq. }
  destruct Hentry as (entry & He & Hres & Hts).
  exists entry.
  split; [exact He | split; [exact Hres | split; [exact Hts | split]]].
  - intros clock2 Hage.
    destruct (getFromCache_hit s1 key (now_lookup clock2) entry He Hage)
      as [Hhit _].
    exists (snd (getFromCache s1 key (now_lookup clock2))).
    unfold findOptimalWealth. rewrite Hvalid. cbv zeta. fold key.
    destruct (getFromCache s1 key (now_lookup clock2)) as [looked s2].
    simpl in *. rewrite Hhit, Hres. reflexivity.
  - intros clock2 Hage evicted.
    pose proof (getFromCache_expired s1 key (now_lookup clock2) entry He Hage)
      as Hexp.
    split; [exact Hexp | split; [apply lookup_delete_eq |]].
    intros res2 s2 H2.
    apply findOptimalWealth_Returns in H2 as [_ H2]. cbv zeta in H2.
    fold key in H2. rewrite Hexp in H2. simpl in H2.
    destruct H2 as [(cached & Hl & _)
                   | (result & computed & stored & _ & Hp & _ & -> & _)];
      [discriminate |].
    split; [reflexivity |]. fold evicted in Hp. rewrite Hp. reflexivity.
Qed.

Lemma cached_result_reused_witness :
  exists res1 res2,
    fst (findOptimalWealth (RT := Reference.runtime) (create Scenario.coarse)
           DEFAULT_PARAMETERS (Scenario.at_time 0)) = Returns res1
    /\ fst (findOptimalWealth (RT := Reference.runtime)
              (snd (findOptimalWealth (RT := Reference.runtime)
                      (create Scenario.coarse) DEFAULT_PARAMETERS
                      (Scenario.at_time 0)))
              DEFAULT_PARAMETERS (Scenario.at_time 30000)) = Returns res2
    /\ fields res2 = fields res1 /\ cacheHit res2 = true.
Proof.
  assert (H : exists res,
             fst (findOptimalWealth (RT := Reference.runtime)
                    (create Scenario.coarse) DEFAULT_PARAMETERS
                    (Scenario.at_time 0)) = Returns res
             /\ cacheHit res = false).
  { vm_compute. eexists. split; reflexivity. }
  destruct H as (res1 & Hfst & Hmiss).
  destruct (cached_result_reused (RT := Reference.runtime) _ _ _ _ _
              (pair_of_fst _ _ Hfst))
    as (entry & _ & _ & Hts & Hhit & _).
  destruct (Hhit (Scenario.at_time 30000)) as [s2 Hsecond].
  { rewrite (Hts Hmiss). vm_compute. discriminate. }
  exists res1, {| fields := fields res1; cacheHit := true |}.
  rewrite Hsecond. repeat split. exact Hfst.
Defined.

Example cacheTTL_default :
  cacheTTL defaultOptions = 60000%Z /\ cacheSize defaultOptions = 100%nat.
Proof. split; reflexivity. Qed.

(** C9: after any sequence of [findOptimalWealth] and [clearCache] calls on
    a new service, the cache map holds at most [cacheSize] entries; it never
    holds more entries than the order list has keys. *)
Theorem cache_within_capacity {RT : Runtime}
    (opts : Options) (calls : list Call) (s : Service) :
  run (create opts) calls = Some s ->
  size (cache s) <= length (cacheOrder s)
  /\ size (cache s) <= cacheSize opts.
Proof.
  intros H. apply run_inv in H as [Hinv Ho]; [| apply cache_inv_create].
  simpl in Ho. rewrite <- Ho. split; [| apply cache_inv_size, Hinv].
  destruct Hinv as [Hdom _]. rewrite <- size_dom.
  pose proof (subseteq_size _ _ Hdom).
  pose proof (size_list_to_set_le (cacheOrder s)). lia.
Qed.

Lemma cache_within_capacity_witness :
  exists s,
    run (RT := Reference.runtime) (create Scenario.coarse)
      [CallFindOptimalWealth DEFAULT_PARAMETERS (Scenario.at_time 0);
       CallFindOptimalWealth DEFAULT_PARAMETERS (Scenario.at_time 100000)]
    = Some s
    /\ size (cache s) <= 100.
Proof.
  destruct (run (RT := Reference.runtime) (create Scenario.coarse)
              [CallFindOptimalWealth DEFAULT_PARAMETERS (Scenario.at_time 0);
               CallFindOptimalWealth DEFAULT_PARAMETERS (Scenario.at_time 100000)])
    as [s |] eqn:E.
  - exists s. split; [reflexivity |].
    exact (proj2 (cache_within_capacity (RT := Reference.runtime) _ _ _ E)).
  - exfalso.
    assert (Hsome :
      match run (RT := Reference.runtime) (create Scenario.coarse)
              [CallFindOptimalWealth DEFAULT_PARAMETERS (Scenario.at_time 0);
               CallFindOptimalWealth DEFAULT_PARAMETERS
                 (Scenario.at_time 100000)]
      with Some _ => true | None => false end = true).
    { vm_compute. reflexivity. }
    rewrite E in Hsome. discriminate.
Defined.

(** After an expired entry has been read and recomputed, its key occurs
    twice in the order list and once in the map. *)
Example order_longer_than_map :
  match run (RT := Reference.runtime) (create Scenario.coarse)
          [CallFindOptimalWealth DEFAULT_PARAMETERS (Scenario.at_time 0);
           CallFindOptimalWealth DEFAULT_PARAMETERS (Scenario.at_time 100000)]
  with
  | Some s => (size (cache s), length (cacheOrder s))
  | None => (0, 0)%nat
  end = (1, 2)%nat.
Proof. vm_compute. reflexivity. Qed.

(* ===================================================================== *)
(** * services/OptimizationService.js: the two phases of the search *)
(* ===================================================================== *)

Section SearchFacts.

Context {RT : Runtime}.

Implicit Types (s : Service) (parameters : Parameters) (best : Best).

Lemma fold_left_invariant {A B : Type} (P : A -> Prop) (step : A -> B -> A)
    (l : list B) (a : A) :
  P a -> (forall a b, P a -> P (step a b)) -> P (fold_left step l a).
Proof.
  intros Ha Hstep. revert a Ha.
  induction l as [| b l IH]; intros a Ha; simpl; [exact Ha |].
  apply IH, Hstep, Ha.
Qed.

(** *** The number of samples *)

Lemma visit_evaluations parameters w1 w2 best :
  snd (visit parameters w1 w2 best) = S (snd best).
Proof.
  unfold visit. destruct best as [[[bw1 bw2] bu] ev].
  destruct (negb _); [reflexivity |]. destruct (_ && _); reflexivity.
Qed.

Lemma fold_left_evaluations {B : Type} (step : Best -> B -> Best) (k : nat)
    (l : list B) best :
  (forall best b, snd (step best b) = (snd best + k)%nat) ->
  snd (fold_left step l best) = (snd best + length l * k)%nat.
Proof.
  intros Hstep. revert best.
  induction l as [| b l IH]; intros best; simpl; [lia |].
  rewrite IH, Hstep. lia.
Qed.

Lemma innerLoop_evaluations parameters space n w1 best :
  snd (innerLoop parameters space n w1 best) = (snd best + S n)%nat.
Proof.
  unfold innerLoop.
  rewrite (fold_left_evaluations _ 1%nat).
  - rewrite length_seq. lia.
  - intros b j. rewrite visit_evaluations. lia.
Qed.

Lemma outerLoop_evaluations parameters space n best :
  snd (outerLoop parameters space n best) = (snd best + S n * S n)%nat.
Proof.
  unfold outerLoop.
  rewrite (fold_left_evaluations _ (S n)).
  - rewrite length_seq. reflexivity.
  - intros b i. apply innerLoop_evaluations.
Qed.

(** [gridSearch] evaluates [(gridSteps + 1)^2] samples, whatever the box. *)
Lemma gridSearch_evaluations s parameters space :
  evaluations (gridSearch s parameters space)
  = (S (gridSteps (options s)) * S (gridSteps (options s)))%nat.
Proof.
  unfold gridSearch.
  pose proof (outerLoop_evaluations parameters space (gridSteps (options s))
                (centerW1 space, centerW2 space, neg_infinity, 0%nat)) as H.
  destruct (outerLoop _ _ _ _) as [[[bw1 bw2] bu] ev]. simpl in *. exact H.
Qed.

(** *** The running best *)

Lemma visit_best_ok parameters w1 w2 best :
  best_ok parameters best -> best_ok parameters (visit parameters w1 w2 best).
Proof.
  unfold visit, best_ok. destruct best as [[[bw1 bw2] bu] ev]. intros H.
  destruct (checkConstraints w1 w2 parameters) eqn:Ec; simpl; [| exact H].
  fold (utilityAt parameters w1 w2).
  destruct (isFinite (utilityAt parameters w1 w2)) eqn:Ef; simpl; [| exact H].
  destruct (gt _ bu); [| exact H]. right. repeat split; assumption.
Qed.

Lemma outerLoop_best_ok parameters space n best :
  best_ok parameters best ->
  best_ok parameters (outerLoop parameters space n best).
Proof.
  intros H. unfold outerLoop.
  apply (fold_left_invariant (best_ok parameters)); [exact H |].
  intros b i Hb. unfold innerLoop.
  apply (fold_left_invariant (best_ok parameters)); [exact Hb |].
  intros b' j Hb'. apply visit_best_ok, Hb'.
Qed.

(** A successful grid search returns a sample that passes
    [checkConstraints], with its lifetime utility, a finite number. *)
Lemma gridSearch_success s parameters space :
  let grid := gridSearch s parameters space in
  success grid = true ->
  checkConstraints (g_w1 grid) (g_w2 grid) parameters = true
  /\ g_utility grid = utilityAt parameters (g_w1 grid) (g_w2 grid)
  /\ isFinite (g_utility grid) = true.
Proof.
  unfold gridSearch.
  pose proof (outerLoop_best_ok parameters space (gridSteps (options s))
                (centerW1 space, centerW2 space, neg_infinity, 0%nat)) as H.
  destruct (outerLoop _ _ _ _) as [[[bw1 bw2] bu] ev]. simpl.
  intros Hs. destruct H as [-> | H]; [left; reflexivity | discriminate | exact H].
Qed.

(** *** Refinement *)

(** At a successful grid result other than the sentinel, the objective is
    the negated utility. *)
Lemma objectiveFunction_seed s parameters space :
  let grid := gridSearch s parameters space in
  success grid = true ->
  strict_eq (g_utility grid) sentinel = false ->
  objectiveFunction parameters (g_w1 grid, g_w2 grid) = - g_utility grid.
Proof.
  intros grid Hs Hne.
  destruct (gridSearch_success s parameters space Hs) as (Hc & Hu & Hf).
  fold grid in Hc, Hu, Hf.
  unfold objectiveFunction. rewrite Hc. simpl.
  fold (utilityAt parameters (g_w1 grid) (g_w2 grid)). rewrite <- Hu, Hf.
  simpl. unfold sentinel in Hne. rewrite Hne. reflexivity.
Qed.

(** [numericalRefinement] hands back the grid result, or the point and the
    negated objective the minimizer reported. *)
Lemma numericalRefinement_cases s parameters grid :
  numericalRefinement s parameters grid = Unrefined grid
  \/ exists u finalW1 finalW2,
       uncmin (objectiveFunction parameters) (g_w1 grid, g_w2 grid)
              (tolerance (options s)) (maxIterations (options s))
       = UncminReturns (Some u)
       /\ solution u = (finalW1, finalW2)
       /\ isFinite (f u) = true /\ lt (f u) 1e9 = true
       /\ checkConstraints finalW1 finalW2 parameters = true
       /\ numericalRefinement s parameters grid
          = Refined {| r_w1 := finalW1; r_w2 := finalW2;
                       r_utility := - f u;
                       r_iterations := or_else (u_iterations u) 0;
                       r_convergence := converged;
                       r_method := numerical_refinement |}.
Proof.
  unfold numericalRefinement.
  destruct (uncmin _ _ _ _) as [| [u |]] eqn:Eu; [left; reflexivity | | left; reflexivity].
  destruct (isFinite (f u)) eqn:Ef; simpl; [| left; reflexivity].
  destruct (lt (f u) 1e9) eqn:El; [| left; reflexivity].
  destruct (solution u) as [finalW1 finalW2] eqn:Es.
  destruct (checkConstraints finalW1 finalW2 parameters) eqn:Ec;
    [| left; reflexivity].
  right. exists u, finalW1, finalW2. repeat split; assumption.
Qed.

Lemma numericalRefinement_accepts s parameters grid u :
  uncmin (objectiveFunction parameters) (g_w1 grid, g_w2 grid)
         (tolerance (options s)) (maxIterations (options s))
  = UncminReturns (Some u) ->
  isFinite (f u) = true -> lt (f u) 1e9 = true ->
  checkConstraints (fst (solution u)) (snd (solution u)) parameters = true ->
  numericalRefinement s parameters grid
  = Refined {| r_w1 := fst (solution u); r_w2 := snd (solution u);
               r_utility := - f u;
               r_iterations := or_else (u_iterations u) 0;
               r_convergence := converged;
               r_method := numerical_refinement |}.
Proof.
  intros Eu Ef El Ec. unfold numericalRefinement. rewrite Eu, Ef, El. simpl.
  destruct (solution u) as [finalW1 finalW2]. simpl in *. rewrite Ec.
  reflexivity.
Qed.

End SearchFacts.

(** C4 (as the code has it): the grid always has [gridSteps + 1] samples
    per axis, [gridSteps] being the configured option (100 by default),
    whether or not the search warm-starts; what a warm start changes is the
    box, which is centred on the hint with radius [0.2]. *)
Theorem warm_start_same_step_count {RT : Runtime}
    (s : Service) (parameters : Parameters) :
  evaluations (gridSearch s parameters (determineSearchSpace s parameters))
  = (S (gridSteps (options s)) * S (gridSteps (options s)))%nat
  /\ forall hintW1 hintW2,
       lastOptimalResult s = Some (hintW1, hintW2) ->
       warmStartEnabled (options s) = true ->
       isParameterSimilar parameters (lastParameters s) = true ->
       checkConstraints hintW1 hintW2 parameters = true ->
       determineSearchSpace s parameters
       = {| w1Min := Math_max 0.01 (hintW1 * (1 - 0.2));
            w1Max := Math_min (maxW1 parameters - 0.01) (hintW1 * (1 + 0.2));
            w2Min := Math_max 0.01 (hintW2 * (1 - 0.2));
            w2Max := Math_min (hintW2 * (1 + 0.2 * 2)) (maxW1 parameters * 3);
            centerW1 := hintW1;
            centerW2 := hintW2 |}.
Proof.
  split; [apply gridSearch_evaluations |].
  intros hintW1 hintW2 Hlast Hen Hsim Hc.
  unfold determineSearchSpace. rewrite Hlast, Hen, Hsim, Hc. reflexivity.
Qed.

Lemma warm_start_same_step_count_witness :
  centerW1 (determineSearchSpace (RT := Reference.runtime)
              Scenario.warm Scenario.nearby) = 1.6.
Proof.
  rewrite (proj2 (warm_start_same_step_count (RT := Reference.runtime)
                    Scenario.warm Scenario.nearby) 1.6 2.35);
    [reflexivity | | | |]; vm_compute; reflexivity.
Defined.

(** With the default options and a warm start (a previous solution, similar
    parameters, a hint that is still feasible) the grid has 101 samples per
    axis: no step count below 100 is in use. *)
Lemma warm_start_uses_configured_steps :
  lastOptimalResult Scenario.warm = Some (1.6, 2.35)
  /\ warmStartEnabled (options Scenario.warm) = true
  /\ isParameterSimilar Scenario.nearby (lastParameters Scenario.warm) = true
  /\ checkConstraints (RT := Reference.runtime) 1.6 2.35 Scenario.nearby = true
  /\ ~ exists N : nat,
         (N < 100)%nat
         /\ evaluations
              (gridSearch (RT := Reference.runtime) Scenario.warm Scenario.nearby
                 (determineSearchSpace (RT := Reference.runtime)
                    Scenario.warm Scenario.nearby))
            = (S N * S N)%nat.
Proof.
  split; [reflexivity |]. split; [reflexivity |].
  split; [vm_compute; reflexivity |]. split; [vm_compute; reflexivity |].
  rewrite gridSearch_evaluations. intros (N & Hlt & Heq).
  change (gridSteps (options Scenario.warm)) with 100%nat in Heq. nia.
Qed.

(** C3: when the grid search succeeds, the solve returns a point that
    satisfies [checkConstraints], with a finite utility, and the refinement
    never regresses the grid result.  [numeric.uncmin] is handed [null] for
    its gradient and throws; [numericalRefinement] catches the error and
    the grid result is returned unchanged: the same point, the same utility.
    The other parts say what the code does with a minimizer that returns:
    the result is the grid result unchanged or the point the minimizer
    reported, taken exactly when the reported objective is finite and below
    [1e9] and the point satisfies [checkConstraints], with the negated
    objective as utility; that utility is at least the grid utility
    provided the minimizer reports no objective above the one at its seed
    and the grid utility is not the sentinel [-5000]. *)
Theorem refinement_outcome {RT : Runtime}
    (s : Service) (parameters : Parameters) :
  let grid := gridSearch s parameters (determineSearchSpace s parameters) in
  let seed := (g_w1 grid, g_w2 grid) in
  let attempt := uncmin (objectiveFunction parameters) seed
                   (tolerance (options s)) (maxIterations (options s)) in
  success grid = true ->
  exists res,
    performMainThreadOptimization s parameters = Returns res
    /\ checkConstraints (m_w1 res) (m_w2 res) parameters = true
    /\ isFinite (m_utility res) = true
    /\ (null_gradient_throws RT ->
        (m_w1 res, m_w2 res, m_utility res)
        = (g_w1 grid, g_w2 grid, g_utility grid)
        /\ m_iterations res = 0
        /\ m_convergence res = grid_only
        /\ ge (m_utility res) (g_utility grid) = true)
    /\ ((m_w1 res, m_w2 res, m_utility res)
        = (g_w1 grid, g_w2 grid, g_utility grid)
        \/ exists u,
             attempt = UncminReturns (Some u)
             /\ isFinite (f u) = true /\ lt (f u) 1e9 = true
             /\ (m_w1 res, m_w2 res) = solution u
             /\ m_utility res = - f u)
    /\ (forall u,
          attempt = UncminReturns (Some u) ->
          isFinite (f u) = true -> lt (f u) 1e9 = true ->
          checkConstraints (fst (solution u)) (snd (solution u)) parameters
            = true ->
          (m_w1 res, m_w2 res) = solution u /\ m_utility res = - f u)
    /\ ((forall u, attempt = UncminReturns (Some u) ->
                   le (f u) (objectiveFunction parameters seed) = true) ->
        strict_eq (g_utility grid) sentinel = false ->
        ge (m_utility res) (g_utility grid) = true).
Proof.
  cbv zeta.
  set (grid := gridSearch s parameters (determineSearchSpace s parameters)).
  intros Hs.
  pose proof (gridSearch_success s parameters
                (determineSearchSpace s parameters)) as Hg.
  cbv zeta in Hg. fold grid in Hg. destruct (Hg Hs) as (Hc & Hu & Hf).
  pose proof (objectiveFunction_seed s parameters
                (determineSearchSpace s parameters)) as Hobj.
  cbv zeta in Hobj. fold grid in Hobj. specialize (Hobj Hs).
  pose proof (numericalRefinement_accepts s parameters grid) as Hacc.
  unfold performMainThreadOptimization. fold grid. rewrite Hs. cbn [negb].
  destruct (numericalRefinement_cases s parameters grid)
    as [Hn | (u & finalW1 & finalW2 & Eu & Es & Ef & El & Ec & Hn)];
    rewrite Hn in *.
  - eexists. split; [reflexivity |].
    cbn [m_w1 m_w2 m_utility m_iterations m_convergence r_w1 r_w2 r_utility].
    split; [exact Hc |]. split; [exact Hf |].
    split.
    { intros _. repeat split. unfold ge. apply le_refl_finite, Hf. }
    split; [left; reflexivity |].
    split.
    + intros u Eu Ef El Ec. specialize (Hacc u Eu Ef El Ec). discriminate.
    + intros _ _. unfold ge. apply le_refl_finite, Hf.
  - eexists. split; [reflexivity |].
    cbn [m_w1 m_w2 m_utility m_iterations m_convergence r_w1 r_w2 r_utility].
    split; [exact Ec |]. split; [rewrite isFinite_opp; exact Ef |].
    split.
    { intros Hthrows. rewrite Hthrows in Eu. discriminate. }
    split; [right; exists u; rewrite Es; repeat split; assumption |].
    split.
    + intros u' Eu' _ _ _. rewrite Eu in Eu'. injection Eu' as <-.
      rewrite Es. split; reflexivity.
    + intros Hdescent Hne. specialize (Hdescent u Eu).
      rewrite (Hobj Hne) in Hdescent.
      unfold ge. rewrite le_opp_swap. exact Hdescent.
Qed.

Lemma refinement_outcome_witness :
  exists res,
    performMainThreadOptimization (RT := Scenario.nullGradient)
      (create Scenario.coarse) DEFAULT_PARAMETERS = Returns res
    /\ checkConstraints (RT := Scenario.nullGradient) (m_w1 res) (m_w2 res)
         DEFAULT_PARAMETERS = true
    /\ ge (m_utility res)
          (g_utility
             (gridSearch (RT := Scenario.nullGradient) (create Scenario.coarse)
                DEFAULT_PARAMETERS
                (determineSearchSpace (RT := Scenario.nullGradient)
                   (create Scenario.coarse) DEFAULT_PARAMETERS))) = true.
Proof.
  destruct (refinement_outcome (RT := Scenario.nullGradient)
              (create Scenario.coarse) DEFAULT_PARAMETERS)
    as (res & Hres & Hc & _ & Hthrows & _).
  { vm_compute. reflexivity. }
  exists res. split; [exact Hres |]. split; [exact Hc |].
  apply Hthrows. intros objective x0 tol maxit. reflexivity.
Defined.

(* ===================================================================== *)
(** * services/OptimizationService.js: the numbers in a result *)
(* ===================================================================== *)

Lemma Reference_counts_iterations : counts_iterations Reference.runtime.
Proof.
  intros objective x0 tol maxit res. cbn. unfold Reference.minimize.
  destruct (PrimFloat.is_nan (objective x0)); [discriminate |].
  destruct (Reference.compass _ _ _ _ _ _ _) as [[x fx] rounds].
  intros [= <-]. cbn. unfold Reference.finite_or_zero.
  destruct (isFinite (of_nat rounds)) eqn:E; [exact E | reflexivity].
Qed.

Section ResultFacts.

Context {RT : Runtime}.

Implicit Types (s : Service) (parameters : Parameters) (clock : Clock).

(** A point that passes [checkConstraints] has coordinates that are finite
    unless they are NaN, as long as the two bounds are numbers. *)
Lemma checkConstraints_finite w1 w2 parameters :
  checkConstraints w1 w2 parameters = true ->
  (isNaN (maxW1 parameters) = false -> isNaN w1 = false -> isFinite w1 = true)
  /\ (isNaN (maxW2 w1 parameters) = false -> isNaN w2 = false ->
      isFinite w2 = true).
Proof.
  unfold checkConstraints. fold (maxW1 parameters) (maxW2 w1 parameters).
  destruct (le w1 0) eqn:E1; [discriminate |].
  destruct (le w2 0) eqn:E2; [discriminate |]. simpl.
  destruct (ge w1 (maxW1 parameters)) eqn:E3; [discriminate |].
  destruct (ge w2 (maxW2 w1 parameters)) eqn:E4; [discriminate |].
  intros _. split; intros HM Hw; eapply between_finite; eassumption.
Qed.

Lemma performMainThreadOptimization_sound s parameters res :
  performMainThreadOptimization s parameters = Returns res ->
  isFinite (m_utility res) = true
  /\ (counts_iterations RT -> isFinite (m_iterations res) = true)
  /\ checkConstraints (m_w1 res) (m_w2 res) parameters = true.
Proof.
  unfold performMainThreadOptimization.
  set (grid := gridSearch s parameters (determineSearchSpace s parameters)).
  pose proof (gridSearch_success s parameters
                (determineSearchSpace s parameters)) as Hg.
  cbv zeta in Hg. fold grid in Hg.
  destruct (success grid); [| discriminate]. cbn [negb].
  destruct (Hg eq_refl) as (Hc & _ & Hf).
  destruct (numericalRefinement_cases s parameters grid)
    as [-> | (u & finalW1 & finalW2 & Eu & Es & Ef & El & Ec & ->)];
    intros [= <-]; cbn [m_w1 m_w2 m_utility m_iterations r_w1 r_w2 r_utility
                        r_iterations].
  - split; [exact Hf |]. split; [reflexivity | exact Hc].
  - split; [rewrite isFinite_opp; exact Ef |]. split; [| exact Ec].
    intros Hcounts. apply isFinite_or_else, isFinite_or_else.
    exact (Hcounts _ _ _ _ _ Eu).
Qed.

Lemma performOptimization_sound s parameters clock result s' :
  performOptimization s parameters clock = (Returns result, s') ->
  result_sound parameters result.
Proof.
  unfold performOptimization.
  assert (Hm : forall res,
             performMainThreadOptimization s parameters = Returns res ->
             result_sound parameters
               {| w1 := m_w1 res; w2 := m_w2 res; utility := m_utility res;
                  iterations := or_else (m_iterations res) 0;
                  convergence := m_convergence res; method := m_method res;
                  calculationTime := elapsed clock;
                  usedWorker := useWebWorkers (options s)
                                && negb (fallbackUsed res) |}).
  { intros res Hres.
    destruct (performMainThreadOptimization_sound s parameters res Hres)
      as (Hu & Hi & Hc).
    split; [exact Hu |]. split; [| exact Hc].
    intros Hcounts. apply isFinite_or_else, Hi, Hcounts. }
  destruct (useWebWorkers (options s)); [destruct (fallbackToMainThread (options s)) |];
    try (destruct (performMainThreadOptimization s parameters)
           as [res | [errs | cause] |] eqn:E; try discriminate;
         intros [= <- _]; apply Hm; reflexivity).
Qed.

Lemma evict_lookup (fuel capacity : nat) (c : gmap CacheKey CacheEntry)
    (order : list CacheKey) c' order' :
  evict fuel capacity c order = Some (c', order') ->
  forall key entry, c' !! key = Some entry -> c !! key = Some entry.
Proof.
  revert c order. induction fuel as [| fuel IH]; intros c order; simpl.
  - destruct (capacity <=? length order)%nat; [discriminate |].
    intros [= <- <-] key entry H. exact H.
  - destruct (capacity <=? length order)%nat.
    + destruct (last order) as [oldKey |].
      * intros H key entry Hk. specialize (IH _ _ H key entry Hk).
        apply lookup_delete_Some in IH. tauto.
      * apply IH.
    + intros [= <- <-] key entry H. exact H.
Qed.

Lemma getFromCache_sound s key now :
  cache_sound s -> cache_sound (snd (getFromCache s key now)).
Proof.
  intros Hs. unfold getFromCache.
  destruct (cache s !! key) as [entry |]; [| exact Hs].
  destruct (_ >? _)%Z; simpl; [| exact Hs].
  intros k e Hk. simpl in Hk. apply lookup_delete_Some in Hk as [_ Hk].
  exact (Hs k e Hk).
Qed.

Lemma addToCache_sound s parameters result now s' :
  cache_sound s -> result_sound parameters result ->
  addToCache s (generateCacheKey parameters) result now = Some s' ->
  cache_sound s'.
Proof.
  intros Hs Hr. unfold addToCache.
  destruct (evict _ _ _ _) as [[c order] |] eqn:E; [| discriminate].
  intros [= <-] k e Hk. simpl in Hk.
  apply lookup_insert_Some in Hk as [[<- <-] | [_ Hk]].
  - exists parameters. split; [reflexivity | exact Hr].
  - exact (Hs k e (evict_lookup _ _ _ _ _ _ E k e Hk)).
Qed.

Lemma findOptimalWealth_sound s parameters clock :
  cache_sound s -> cache_sound (snd (findOptimalWealth s parameters clock)).
Proof.
  intros Hs. unfold findOptimalWealth.
  destruct (validate parameters); [| exact Hs].
  pose proof (getFromCache_sound s (generateCacheKey parameters)
                (now_lookup clock) Hs) as Hl.
  destruct (getFromCache s _ _) as [[cached |] looked]; simpl in *; [exact Hl |].
  pose proof (performOptimization_frame looked parameters clock) as (Hc & _).
  cbv zeta in Hc.
  assert (Hp : cache_sound (snd (performOptimization looked parameters clock))).
  { unfold cache_sound. rewrite Hc. exact Hl. }
  destruct (performOptimization looked parameters clock)
    as [[result | e |] computed] eqn:Ep; simpl in *; try exact Hp.
  destruct (addToCache computed _ result _) as [stored |] eqn:Ea; simpl;
    [| exact Hp].
  assert (Hst : cache_sound stored).
  { eapply addToCache_sound; [exact Hp | | exact Ea].
    eapply performOptimization_sound. exact Ep. }
  exact Hst.
Qed.

Lemma run_sound calls s s' :
  cache_sound s -> run s calls = Some s' -> cache_sound s'.
Proof.
  revert s. induction calls as [| call calls IH]; intros s Hs; simpl.
  - intros [= <-]. exact Hs.
  - destruct (step s call) as [s1 |] eqn:E; [| discriminate].
    apply IH. destruct call as [parameters clock |]; simpl in E.
    + pose proof (findOptimalWealth_sound s parameters clock Hs) as H.
      destruct (findOptimalWealth s parameters clock) as [[res | e |] s2];
        simpl in *; try discriminate; injection E as <-; exact H.
    + injection E as <-. intros k e Hk. simpl in Hk.
      rewrite lookup_empty in Hk. discriminate.
Qed.

End ResultFacts.

(** The numbers in a result.  In every result that [findOptimalWealth]
    returns, from the cache or newly computed, [utility] is a finite
    number, [iterations] is one too when the iteration counts reported by
    the minimizer are, and [(w1, w2)] passes [checkConstraints] for the
    parameters the result was computed for (those of the call, when it was
    not a cache hit; parameters with the same cache key otherwise).  Hence
    [w1] and [w2] are finite unless they are NaN, as long as the two bounds
    of [checkConstraints] are numbers. *)
Theorem result_numbers {RT : Runtime}
    (opts : Options) (calls : list Call) (s : Service)
    (parameters : Parameters) (clock : Clock)
    (res : FinalResult) (s' : Service) :
  run (create opts) calls = Some s ->
  findOptimalWealth s parameters clock = (Returns res, s') ->
  isFinite (utility (fields res)) = true
  /\ (counts_iterations RT -> isFinite (iterations (fields res)) = true)
  /\ exists computedFor,
       generateCacheKey computedFor = generateCacheKey parameters
       /\ (cacheHit res = false -> computedFor = parameters)
       /\ checkConstraints (w1 (fields res)) (w2 (fields res)) computedFor
          = true
       /\ (isNaN (maxW1 computedFor) = false ->
           isNaN (w1 (fields res)) = false ->
           isFinite (w1 (fields res)) = true)
       /\ (isNaN (maxW2 (w1 (fields res)) computedFor) = false ->
           isNaN (w2 (fields res)) = false ->
           isFinite (w2 (fields res)) = true).
Proof.
  intros Hrun H.
  assert (Hs : cache_sound s).
  { eapply run_sound; [| exact Hrun]. intros k e Hk. simpl in Hk.
    rewrite lookup_empty in Hk. discriminate. }
  apply findOptimalWealth_Returns in H as [_ H]. cbv zeta in H.
  assert (Hsound : exists computedFor,
            generateCacheKey computedFor = generateCacheKey parameters
            /\ (cacheHit res = false -> computedFor = parameters)
            /\ result_sound computedFor (fields res)).
  { destruct H as [(cached & Hl & -> & _)
                  | (result & computed & stored & _ & Hp & _ & -> & _)].
    - apply getFromCache_Some in Hl as (entry & He & -> & _).
      destruct (Hs _ _ He) as (p' & Hkey & Hr).
      exists p'. split; [exact Hkey |]. split; [discriminate | exact Hr].
    - exists parameters. split; [reflexivity |]. split; [reflexivity |].
      eapply performOptimization_sound. exact Hp. }
  destruct Hsound as (p' & Hkey & Hmiss & Hu & Hi & Hc).
  split; [exact Hu |]. split; [exact Hi |].
  exists p'. split; [exact Hkey |]. split; [exact Hmiss |].
  split; [exact Hc |]. exact (checkConstraints_finite _ _ _ Hc).
Qed.

Lemma result_numbers_witness :
  exists res,
    fst (findOptimalWealth (RT := Reference.runtime) (create Scenario.coarse)
           DEFAULT_PARAMETERS (Scenario.at_time 0)) = Returns res
    /\ isFinite (utility (fields res)) = true
    /\ isFinite (iterations (fields res)) = true.
Proof.
  assert (H : exists res,
             fst (findOptimalWealth (RT := Reference.runtime)
                    (create Scenario.coarse) DEFAULT_PARAMETERS
                    (Scenario.at_time 0)) = Returns res).
  { vm_compute. eexists. reflexivity. }
  destruct H as (res & Hfst). exists res. split; [exact Hfst |].
  destruct (result_numbers (RT := Reference.runtime)
              Scenario.coarse [] _ _ _ _ _ eq_refl (pair_of_fst _ _ Hfst))
    as (Hu & Hi & _).
  split; [exact Hu | exact (Hi Reference_counts_iterations)].
Defined.


(* ===================================================================== *)
(** * The order of the numbers: properties *)
(* ===================================================================== *)

Section OrderFacts.

Lemma SFcompare_rank x y :
  SFcompare x y =
    match rank x, rank y with
    | Some p, Some q => Some (lex p q)
    | _, _ => None
    end.
Proof.
  destruct x as [sx | sx | | sx mx ex], y as [sy | sy | | sy my ey];
    try reflexivity;
    try (destruct sx; reflexivity);
    try (destruct sy; reflexivity);
    try (destruct sx, sy; reflexivity).
  destruct sx, sy; try reflexivity; simpl.
  rewrite Z.compare_opp. rewrite (Z.compare_antisym ex ey).
  destruct (ex ?= ey)%Z; reflexivity.
Qed.

Lemma lex_refl p : lex p p = Eq.
Proof. destruct p as [[a b] c]. simpl. rewrite !Z.compare_refl. reflexivity. Qed.

Lemma lex_antisym p q : lex q p = CompOpp (lex p q).
Proof.
  destruct p as [[a b] c], q as [[a' b'] c']. simpl.
  rewrite (Z.compare_antisym a a'), (Z.compare_antisym b b'),
    (Z.compare_antisym c c').
  destruct (a ?= a')%Z, (b ?= b')%Z, (c ?= c')%Z; reflexivity.
Qed.

Lemma lex_le_trans p q t : lex p q <> Gt -> lex q t <> Gt -> lex p t <> Gt.
Proof.
  destruct p as [[a b] c], q as [[a' b'] c'], t as [[a'' b''] c'']. simpl.
  destruct (Z.compare_spec a a'), (Z.compare_spec a' a''),
    (Z.compare_spec a a''); try congruence; try lia;
  destruct (Z.compare_spec b b'), (Z.compare_spec b' b''),
    (Z.compare_spec b b''); try congruence; try lia;
  destruct (Z.compare_spec c c'), (Z.compare_spec c' c''),
    (Z.compare_spec c c''); try congruence; try lia.
Qed.

Lemma lex_lt_le_trans p q t : lex p q = Lt -> lex q t <> Gt -> lex p t = Lt.
Proof.
  destruct p as [[a b] c], q as [[a' b'] c'], t as [[a'' b''] c'']. simpl.
  destruct (Z.compare_spec a a'), (Z.compare_spec a' a''),
    (Z.compare_spec a a''); try congruence; try lia;
  destruct (Z.compare_spec b b'), (Z.compare_spec b' b''),
    (Z.compare_spec b b''); try congruence; try lia;
  destruct (Z.compare_spec c c'), (Z.compare_spec c' c''),
    (Z.compare_spec c c''); try congruence; try lia.
Qed.

Lemma rank_NaN x : isNaN x = false -> is_Some (rank (Prim2SF x)).
Proof.
  rewrite isNaN_spec.
  destruct (Prim2SF x) as [[] | [] | | [] m e]; simpl; try discriminate; eauto.
Qed.

Lemma le_rank x y :
  le x y = true <->
  exists p q, rank (Prim2SF x) = Some p /\ rank (Prim2SF y) = Some q
              /\ lex p q <> Gt.
Proof.
  unfold le. rewrite leb_spec. unfold SFleb. rewrite SFcompare_rank.
  destruct (rank (Prim2SF x)) as [p |], (rank (Prim2SF y)) as [q |]; split;
    try discriminate;
    try (intros (p' & q' & ? & ? & ?); discriminate).
  - intros Hc. exists p, q. repeat split. destruct (lex p q); congruence.
  - intros (p' & q' & [= <-] & [= <-] & Hc). destruct (lex p q); congruence.
Qed.

Lemma lt_rank x y :
  lt x y = true <->
  exists p q, rank (Prim2SF x) = Some p /\ rank (Prim2SF y) = Some q
              /\ lex p q = Lt.
Proof.
  unfold lt. rewrite ltb_spec. unfold SFltb. rewrite SFcompare_rank.
  destruct (rank (Prim2SF x)) as [p |], (rank (Prim2SF y)) as [q |]; split;
    try discriminate;
    try (intros (p' & q' & ? & ? & ?); discriminate).
  - intros Hc. exists p, q. repeat split. destruct (lex p q); congruence.
  - intros (p' & q' & [= <-] & [= <-] & Hc). rewrite Hc. reflexivity.
Qed.

(** [<=] is transitive. *)
Lemma le_trans x y z : le x y = true -> le y z = true -> le x z = true.
Proof.
  rewrite !le_rank.
  intros (p & q & Hp & Hq & Hpq) (q' & t & Hq' & Ht & Hqt).
  rewrite Hq in Hq'. injection Hq' as <-.
  exists p, t. repeat split; try assumption. eapply lex_le_trans; eassumption.
Qed.

Lemma lt_le_trans x y z : lt x y = true -> le y z = true -> lt x z = true.
Proof.
  rewrite !lt_rank, le_rank.
  intros (p & q & Hp & Hq & Hpq) (q' & t & Hq' & Ht & Hqt).
  rewrite Hq in Hq'. injection Hq' as <-.
  exists p, t. repeat split; try assumption. eapply lex_lt_le_trans; eassumption.
Qed.

(** Two numbers that are not NaN are comparable. *)
Lemma not_gt_le x y :
  isNaN x = false -> isNaN y = false -> gt x y = false -> le x y = true.
Proof.
  intros Hx Hy. unfold gt. intros Hgt.
  destruct (rank_NaN x Hx) as [p Hp], (rank_NaN y Hy) as [q Hq].
  apply le_rank. exists p, q. repeat split; try assumption.
  intros Hc.
  assert (lt y x = true) as Hlt; [| unfold lt in Hlt; congruence].
  apply lt_rank. exists q, p. repeat split; try assumption.
  rewrite lex_antisym, Hc. reflexivity.
Qed.

Lemma le_refl x : isNaN x = false -> le x x = true.
Proof.
  intros Hx. destruct (rank_NaN x Hx) as [p Hp].
  apply le_rank. exists p, p. repeat split; try assumption.
  rewrite lex_refl. discriminate.
Qed.

(** Every finite number is above [-Infinity]. *)
Lemma finite_gt_neg_infinity x : isFinite x = true -> gt x neg_infinity = true.
Proof.
  rewrite isFinite_spec. unfold gt. rewrite ltb_spec. unfold SFltb.
  replace (Prim2SF neg_infinity) with (S754_infinity true) by reflexivity.
  destruct (Prim2SF x) as [s | s | | s m e]; try discriminate; reflexivity.
Qed.

Lemma gt_neg_infinity_not_NaN x : gt x neg_infinity = true -> isNaN x = false.
Proof.
  rewrite isNaN_spec. unfold gt. rewrite ltb_spec. unfold SFltb.
  replace (Prim2SF neg_infinity) with (S754_infinity true) by reflexivity.
  destruct (Prim2SF x) as [s | s | | s m e]; simpl; congruence.
Qed.

End OrderFacts.

(* ===================================================================== *)
(** * math/UtilityFunctions.js: what the utilities return *)
(* ===================================================================== *)

Section UtilityValues.

Context {RT : Runtime}.

Lemma kappa_errors r rho gamma e :
  kappa r rho gamma = Throw e -> e = GammaZero \/ e = KappaNonFinite.
Proof.
  unfold kappa. destruct (strict_eq gamma 0); [intros [= <-]; now left |].
  destruct (negb _); [intros [= <-]; now right | discriminate].
Qed.

Lemma U2_errors r rho gamma T A B e :
  U2 r rho gamma T A B = Throw e ->
  e <> ComplexTerm1 /\ e <> ComplexTerm2.
Proof.
  unfold U2.
  destruct (le T 0); [intros [= <-]; split; discriminate |].
  destruct (le (Math_exp (r * T) * A - B) 0) eqn:E1;
    [intros [= <-]; split; discriminate |].
  destruct (kappa r rho gamma) as [k | e'] eqn:Ek.
  - destruct (le (Math_exp (r * T) - Math_exp ((r - rho) * T / gamma)) 0) eqn:E2;
      [intros [= <-]; split; discriminate |].
    rewrite (not_le_not_lt _ _ E1), (not_le_not_lt _ _ E2), !andb_false_r.
    cbv zeta.
    destruct (_ || _); [intros [= <-]; split; discriminate | discriminate].
  - intros [= <-]. destruct (kappa_errors _ _ _ _ Ek) as [-> | ->];
      split; discriminate.
Qed.

(** The ways in which [U2] throws. *)
Lemma U2_Throw_inv r rho gamma T A B e :
  U2 r rho gamma T A B = Throw e ->
  (e = TimeNotPositive /\ le T 0 = true)
  \/ (e = InsufficientWealth /\ le (term1 r T A B) 0 = true)
  \/ kappa r rho gamma = Throw e
  \/ (e = Term2NotPositive /\ le (term2 r rho gamma T) 0 = true)
  \/ e = U2NonFinite.
Proof.
  unfold U2, term1, term2.
  destruct (le T 0) eqn:ET; [intros [= <-]; left; now split |].
  destruct (le (Math_exp (r * T) * A - B) 0) eqn:E1;
    [intros [= <-]; right; left; now split |].
  destruct (kappa r rho gamma) as [k | e'] eqn:Ek;
    [| intros [= <-]; right; right; left; reflexivity].
  destruct (le (Math_exp (r * T) - Math_exp ((r - rho) * T / gamma)) 0) eqn:E2;
    [intros [= <-]; right; right; right; left; now split |].
  rewrite (not_le_not_lt _ _ E1), (not_le_not_lt _ _ E2), !andb_false_r.
  cbv zeta.
  destruct (_ || _); [intros [= <-]; right; right; right; now right | discriminate].
Qed.

(** [lifetimeUtility] is the sentinel, or the sum of the two period
    utilities (the second discounted) and the bequest term. *)
Lemma lifetimeUtility_cases r rho gamma t1 t2 beta eta tau w0 w1 w2 :
  let total := lifetimeUtility r rho gamma t1 t2 beta eta tau w0 w1 w2 in
  isFinite total = true
  /\ (total = sentinel
      \/ exists u1 u2,
           U2 r rho gamma t1 w0 w1 = Return u1
           /\ U2 r rho gamma t2 (w1 * (1 - tau)) w2 = Return u2
           /\ le w2 0 = false
           /\ isFinite (bequestValue beta eta w2) = true
           /\ total = u1 + Math_exp (- rho * t1) * u2
                      + bequestValue beta eta w2).
Proof.
  unfold lifetimeUtility, bequestValue.
  destruct (U2 r rho gamma t1 w0 w1) as [u1 | e1];
    [| cbv zeta; split; [reflexivity | now left]].
  destruct (negb (isFinite u1) || strict_eq u1 neg_infinity);
    [cbv zeta; split; [reflexivity | now left] |].
  destruct (U2 r rho gamma t2 (w1 * (1 - tau)) w2) as [u2 | e2];
    [| cbv zeta; split; [reflexivity | now left]].
  destruct (negb (isFinite u2) || strict_eq u2 neg_infinity);
    [cbv zeta; split; [reflexivity | now left] |].
  destruct (le w2 0); [cbv zeta; split; [reflexivity | now left] |].
  rewrite andb_false_l.
  assert (Hb :
    (if strict_eq eta 1
     then Some (beta * Math_log (Math_max w2 1e-10))
     else Some (beta * Math_pow (Math_max w2 1e-10) (1 - eta) / (1 - eta)))
    = Some (if strict_eq eta 1
            then beta * Math_log (Math_max w2 1e-10)
            else beta * Math_pow (Math_max w2 1e-10) (1 - eta) / (1 - eta)))
    by (destruct (strict_eq eta 1); reflexivity).
  cbv zeta. rewrite Hb. clear Hb.
  set (bequest := if strict_eq eta 1 then _ else _).
  destruct (isFinite bequest) eqn:Eb; simpl;
    [| split; [reflexivity | now left]].
  rewrite (isFinite_not_NaN _ Eb).
  set (sum := u1 + Math_exp (- rho * t1) * u2 + bequest).
  destruct (isFinite sum) eqn:Es; simpl.
  - rewrite (isFinite_not_NaN _ Es). split; [exact Es |].
    right. exists u1, u2. repeat split.
  - split; [reflexivity | now left].
Qed.

Lemma utilityAt_finite parameters w1 w2 :
  isFinite (utilityAt parameters w1 w2) = true.
Proof. unfold utilityAt. apply lifetimeUtility_cases. Qed.

End UtilityValues.

(** X1: whatever [U2] returns is the closed form, a finite number, and
    then none of its three guards holds: [T > 0], [term1 > 0] and
    [term2 > 0] unless one of them is NaN. *)
Theorem U2_returns_closedForm {RT : Runtime} (r rho gamma T A B v : float) :
  U2 r rho gamma T A B = Return v ->
  le T 0 = false
  /\ le (term1 r T A B) 0 = false
  /\ le (term2 r rho gamma T) 0 = false
  /\ closedForm r rho gamma T A B = Return v
  /\ isFinite v = true.
Proof.
  unfold U2, closedForm, term1, term2.
  destruct (le T 0) eqn:ET; [discriminate |].
  destruct (le (Math_exp (r * T) * A - B) 0) eqn:E1; [discriminate |].
  destruct (kappa r rho gamma) as [k | e]; [| discriminate].
  destruct (le (Math_exp (r * T) - Math_exp ((r - rho) * T / gamma)) 0) eqn:E2;
    [discriminate |].
  rewrite (not_le_not_lt _ _ E1), (not_le_not_lt _ _ E2), !andb_false_r.
  cbv zeta.
  match goal with |- context [isFinite ?x] => destruct (isFinite x) eqn:E end;
    simpl; [| discriminate].
  destruct (isNaN _); [discriminate |].
  intros [= <-]. repeat split; try reflexivity. exact E.
Qed.

Lemma U2_returns_closedForm_witness :
  exists v,
    closedForm (RT := Reference.runtime) 0.06 0.04 0.7 20 1 2 = Return v
    /\ isFinite v = true.
Proof.
  destruct (U2 (RT := Reference.runtime) 0.06 0.04 0.7 20 1 2) as [v | e] eqn:E;
    [| vm_compute in E; discriminate].
  exists v.
  exact (proj2 (proj2 (proj2 (U2_returns_closedForm (RT := Reference.runtime)
                                0.06 0.04 0.7 20 1 2 v E)))).
Defined.

(** X2: [U2] never throws its two "complex number" errors: a negative
    [term1] or [term2] has already been rejected by the guards before
    them.  The errors it can throw are the other six. *)
Theorem U2_never_complex {RT : Runtime} (r rho gamma T A B : float) :
  U2 r rho gamma T A B <> Throw ComplexTerm1
  /\ U2 r rho gamma T A B <> Throw ComplexTerm2.
Proof.
  split; intros H; apply U2_errors in H; destruct H; congruence.
Qed.

(** X3: [lifetimeUtility] is either the sentinel [-5000] or exactly
    [u1 + exp(-rho t1) u2 + bequest] for the two values [U2] returns, a
    positive [w2] and a finite bequest term; the branch that rejects a
    non-positive [w2] with a fractional power is never reached. *)
Theorem lifetimeUtility_value {RT : Runtime}
    (r rho gamma t1 t2 beta eta tau w0 w1 w2 : float) :
  lifetimeUtility r rho gamma t1 t2 beta eta tau w0 w1 w2 = sentinel
  \/ exists u1 u2,
       U2 r rho gamma t1 w0 w1 = Return u1
       /\ U2 r rho gamma t2 (w1 * (1 - tau)) w2 = Return u2
       /\ le w2 0 = false
       /\ isFinite (bequestValue beta eta w2) = true
       /\ lifetimeUtility r rho gamma t1 t2 beta eta tau w0 w1 w2
          = u1 + Math_exp (- rho * t1) * u2 + bequestValue beta eta w2.
Proof. apply lifetimeUtility_cases. Qed.

(* ===================================================================== *)
(** * services/OptimizationService.js: the grid search finds the best sample *)
(* ===================================================================== *)

Section GridFacts.

Context {RT : Runtime}.

Implicit Types (s : Service) (parameters : Parameters) (best : Best).

Lemma best_ok_not_NaN parameters best :
  best_ok parameters best -> isNaN (snd (fst best)) = false.
Proof.
  destruct best as [[[bw1 bw2] bu] ev]. simpl.
  intros [-> | (_ & _ & Hf)]; [reflexivity | apply isFinite_not_NaN, Hf].
Qed.

Lemma visit_dominates parameters w1 w2 best q :
  best_ok parameters best ->
  q = (w1, w2) \/ dominates parameters best q ->
  dominates parameters (visit parameters w1 w2 best) q.
Proof.
  intros Hok Hq.
  pose proof (best_ok_not_NaN _ _ Hok) as Hnan.
  destruct best as [[[bw1 bw2] bu] ev]. unfold dominates, visit in *.
  simpl in Hnan.
  destruct (checkConstraints w1 w2 parameters) eqn:Ec; simpl.
  - fold (utilityAt parameters w1 w2).
    pose proof (utilityAt_finite parameters w1 w2) as Hf. rewrite Hf. simpl.
    destruct (gt (utilityAt parameters w1 w2) bu) eqn:Egt; simpl.
    + destruct Hq as [-> | Hq]; simpl; intros Hc.
      * apply le_refl, isFinite_not_NaN, Hf.
      * apply (le_trans _ bu); [apply Hq, Hc | apply lt_le, Egt].
    + destruct Hq as [-> | Hq]; simpl; intros Hc.
      * apply not_gt_le; [apply isFinite_not_NaN, Hf | exact Hnan | exact Egt].
      * apply Hq, Hc.
  - destruct Hq as [-> | Hq]; simpl; intros Hc; [congruence | apply Hq, Hc].
Qed.

(** A loop whose body keeps the running best sound and dominating covers
    every sample its iterations cover. *)
Lemma fold_left_dominates {B : Type} parameters (step : Best -> B -> Best)
    (covers : B -> float * float -> Prop) :
  (forall best b, best_ok parameters best -> best_ok parameters (step best b)) ->
  (forall best b q,
     best_ok parameters best ->
     covers b q \/ dominates parameters best q ->
     dominates parameters (step best b) q) ->
  forall (l : list B) best q,
    best_ok parameters best ->
    (exists b, b ∈ l /\ covers b q) \/ dominates parameters best q ->
    dominates parameters (fold_left step l best) q.
Proof.
  intros Hok Hdom l.
  induction l as [| b l IH]; intros best q Hb Hq; simpl.
  - destruct Hq as [(b & Hin & _) | Hq]; [| exact Hq].
    apply elem_of_nil in Hin. contradiction.
  - apply IH; [apply Hok, Hb |].
    destruct Hq as [(b' & Hin & Hc) | Hq].
    + apply elem_of_cons in Hin as [-> | Hin].
      * right. apply Hdom; [exact Hb | left; exact Hc].
      * left. exists b'. split; assumption.
    + right. apply Hdom; [exact Hb | right; exact Hq].
Qed.

Lemma innerLoop_best_ok parameters space n w1 best :
  best_ok parameters best ->
  best_ok parameters (innerLoop parameters space n w1 best).
Proof.
  intros Hb. unfold innerLoop.
  apply (fold_left_invariant (best_ok parameters)); [exact Hb |].
  intros b' j Hb'. apply visit_best_ok, Hb'.
Qed.

Lemma innerLoop_dominates parameters space n w1 best q :
  best_ok parameters best ->
  (exists j, (j <= n)%nat /\ q = (w1, w2Sample space n j))
  \/ dominates parameters best q ->
  dominates parameters (innerLoop parameters space n w1 best) q.
Proof.
  intros Hb Hq. unfold innerLoop.
  apply (fold_left_dominates parameters
           (fun best j => visit parameters w1 (w2Sample space n j) best)
           (fun j q => q = (w1, w2Sample space n j))).
  - intros b j Hok. apply visit_best_ok, Hok.
  - intros b j q' Hok Hq'. apply visit_dominates; assumption.
  - exact Hb.
  - destruct Hq as [(j & Hj & ->) | Hq]; [left | right; exact Hq].
    exists j. split; [| reflexivity]. apply elem_of_seq. lia.
Qed.

Lemma outerLoop_dominates parameters space n best i j :
  best_ok parameters best ->
  (i <= n)%nat -> (j <= n)%nat ->
  dominates parameters (outerLoop parameters space n best)
    (w1Sample space n i, w2Sample space n j).
Proof.
  intros Hb Hi Hj. unfold outerLoop.
  apply (fold_left_dominates parameters
           (fun best i => innerLoop parameters space n (w1Sample space n i) best)
           (fun i q => exists j, (j <= n)%nat
                                 /\ q = (w1Sample space n i, w2Sample space n j))).
  - intros b i' Hok. apply innerLoop_best_ok, Hok.
  - intros b i' q Hok Hq. apply innerLoop_dominates; assumption.
  - exact Hb.
  - left. exists i. split; [apply elem_of_seq; lia |].
    exists j. split; [exact Hj | reflexivity].
Qed.

Lemma fold_left_invariant_in {A B : Type} (P : A -> Prop) (step : A -> B -> A)
    (l : list B) (a : A) :
  P a -> (forall a b, b ∈ l -> P a -> P (step a b)) -> P (fold_left step l a).
Proof.
  revert a. induction l as [| b l IH]; intros a Ha Hstep; simpl; [exact Ha |].
  apply IH.
  - apply Hstep; [apply elem_of_cons; now left | exact Ha].
  - intros a' b' Hin. apply Hstep. apply elem_of_cons. now right.
Qed.

Lemma visit_on_grid parameters space n i j best :
  (i <= n)%nat -> (j <= n)%nat ->
  on_grid space n best ->
  on_grid space n
    (visit parameters (w1Sample space n i) (w2Sample space n j) best).
Proof.
  intros Hi Hj Hb. destruct best as [[[bw1 bw2] bu] ev]. unfold visit.
  destruct (negb _); [exact Hb |].
  destruct (_ && _); [| exact Hb].
  right. exists i, j. repeat split; assumption.
Qed.

Lemma outerLoop_on_grid parameters space n best :
  on_grid space n best ->
  on_grid space n (outerLoop parameters space n best).
Proof.
  intros Hb. unfold outerLoop.
  apply (fold_left_invariant_in (on_grid space n)); [exact Hb |].
  intros b i Hi Hok. unfold innerLoop.
  apply (fold_left_invariant_in (on_grid space n)); [exact Hok |].
  intros b' j Hj Hok'.
  apply elem_of_seq in Hi, Hj.
  apply (visit_on_grid parameters space n i j); [lia | lia | exact Hok'].
Qed.

(** The successful result of a grid search is a sample of the grid. *)
Lemma gridSearch_on_grid s parameters space :
  let grid := gridSearch s parameters space in
  let n := gridSteps (options s) in
  success grid = true ->
  exists i j, (i <= n)%nat /\ (j <= n)%nat
              /\ g_w1 grid = w1Sample space n i
              /\ g_w2 grid = w2Sample space n j.
Proof.
  unfold gridSearch.
  assert (Hinit : on_grid space (gridSteps (options s))
            (centerW1 space, centerW2 space, neg_infinity, 0%nat))
    by (left; reflexivity).
  pose proof (outerLoop_on_grid parameters space (gridSteps (options s))
                _ Hinit) as H.
  destruct (outerLoop _ _ _ _) as [[[bw1 bw2] bu] ev].
  unfold on_grid in H. simpl in *.
  intros Hs. destruct H as [-> | H]; [| exact H].
  vm_compute in Hs. discriminate.
Qed.

(** A sample that passes [checkConstraints] makes the grid search succeed,
    with a utility at least that of the sample. *)
Lemma gridSearch_dominates s parameters space i j :
  let grid := gridSearch s parameters space in
  let n := gridSteps (options s) in
  (i <= n)%nat -> (j <= n)%nat ->
  checkConstraints (w1Sample space n i) (w2Sample space n j) parameters = true ->
  success grid = true
  /\ le (utilityAt parameters (w1Sample space n i) (w2Sample space n j))
        (g_utility grid) = true.
Proof.
  unfold gridSearch. intros Hi Hj Hc.
  assert (Hinit : best_ok parameters
            (centerW1 space, centerW2 space, neg_infinity, 0%nat))
    by (left; reflexivity).
  pose proof (outerLoop_dominates parameters space (gridSteps (options s))
                _ i j Hinit Hi Hj Hc) as Hle.
  destruct (outerLoop _ _ _ _) as [[[bw1 bw2] bu] ev]. simpl in *.
  split; [| exact Hle].
  pose proof (finite_gt_neg_infinity _
                (utilityAt_finite parameters
                   (w1Sample space (gridSteps (options s)) i)
                   (w2Sample space (gridSteps (options s)) j))) as Hgt.
  unfold gt in Hgt. exact (lt_le_trans _ _ _ Hgt Hle).
Qed.

(** [performMainThreadOptimization] throws its grid-search error or
    returns, according to whether the grid search succeeds. *)
Lemma performMainThreadOptimization_cases s parameters :
  let grid := gridSearch s parameters (determineSearchSpace s parameters) in
  (success grid = false
   /\ performMainThreadOptimization s parameters
      = Throws (OptimizationError GridSearchFailed))
  \/ (success grid = true
      /\ exists res, performMainThreadOptimization s parameters = Returns res).
Proof.
  unfold performMainThreadOptimization. cbv zeta.
  destruct (success _) eqn:Es; simpl; [right | left; split; reflexivity].
  split; [reflexivity |].
  destruct (numericalRefinement _ _ _); eexists; reflexivity.
Qed.

End GridFacts.

(** X4: the grid search returns the best sample of its grid: when it
    succeeds its point is one of the [(gridSteps + 1)^2] samples, passes
    [checkConstraints] and carries its own lifetime utility; and every
    sample that passes [checkConstraints] makes it succeed with a utility
    at least as large as that of the sample. *)
Theorem gridSearch_best_sample {RT : Runtime}
    (s : Service) (parameters : Parameters) (space : SearchSpace) :
  let grid := gridSearch s parameters space in
  let n := gridSteps (options s) in
  (success grid = true ->
   exists i j, (i <= n)%nat /\ (j <= n)%nat
               /\ g_w1 grid = w1Sample space n i
               /\ g_w2 grid = w2Sample space n j
               /\ checkConstraints (g_w1 grid) (g_w2 grid) parameters = true
               /\ g_utility grid = utilityAt parameters (g_w1 grid) (g_w2 grid))
  /\ (forall i j,
        (i <= n)%nat -> (j <= n)%nat ->
        checkConstraints (w1Sample space n i) (w2Sample space n j) parameters
          = true ->
        success grid = true
        /\ le (utilityAt parameters (w1Sample space n i) (w2Sample space n j))
              (g_utility grid) = true).
Proof.
  intros grid n. split.
  - intros Hs.
    destruct (gridSearch_on_grid s parameters space Hs) as (i & j & Hi & Hj & H1 & H2).
    destruct (gridSearch_success s parameters space Hs) as (Hc & Hu & _).
    exists i, j. repeat split; assumption.
  - intros i j Hi Hj Hc. apply gridSearch_dominates; assumption.
Qed.

Lemma gridSearch_best_sample_witness :
  let s := create Scenario.coarse in
  let space := determineSearchSpace (RT := Reference.runtime) s DEFAULT_PARAMETERS in
  le (utilityAt (RT := Reference.runtime) DEFAULT_PARAMETERS
        (w1Sample space 4 2) (w2Sample space 4 1))
     (g_utility (gridSearch (RT := Reference.runtime) s DEFAULT_PARAMETERS space))
  = true.
Proof.
  intros s space.
  refine (proj2 (proj2 (gridSearch_best_sample (RT := Reference.runtime)
                          s DEFAULT_PARAMETERS space) 2%nat 1%nat _ _ _)).
  - vm_compute. lia.
  - vm_compute. lia.
  - vm_compute. reflexivity.
Defined.

(** X5: [performMainThreadOptimization] throws "Grid search failed" when
    no sample of the grid passes [checkConstraints] and returns a result
    as soon as one does; it has no other outcome. *)
Theorem gridSearch_fails_without_feasible_sample {RT : Runtime}
    (s : Service) (parameters : Parameters) :
  let space := determineSearchSpace s parameters in
  let n := gridSteps (options s) in
  ((forall i j, (i <= n)%nat -> (j <= n)%nat ->
      checkConstraints (w1Sample space n i) (w2Sample space n j) parameters
        = false) ->
   performMainThreadOptimization s parameters
   = Throws (OptimizationError GridSearchFailed))
  /\ (forall i j, (i <= n)%nat -> (j <= n)%nat ->
        checkConstraints (w1Sample space n i) (w2Sample space n j) parameters
          = true ->
        exists res, performMainThreadOptimization s parameters = Returns res)
  /\ (performMainThreadOptimization s parameters
        = Throws (OptimizationError GridSearchFailed)
      \/ exists res, performMainThreadOptimization s parameters = Returns res).
Proof.
  intros space n.
  pose proof (performMainThreadOptimization_cases s parameters) as Hcases.
  cbv zeta in Hcases. fold space in Hcases.
  split; [| split].
  - intros Hnone.
    destruct Hcases as [[_ H] | [Hs _]]; [exact H |].
    destruct (gridSearch_on_grid s parameters space Hs)
      as (i & j & Hi & Hj & H1 & H2).
    destruct (gridSearch_success s parameters space Hs) as (Hc & _).
    fold n in Hi, Hj, H1, H2. rewrite H1, H2, (Hnone i j Hi Hj) in Hc.
    discriminate.
  - intros i j Hi Hj Hc.
    destruct Hcases as [[Hf _] | [_ H]]; [| exact H].
    destruct (gridSearch_dominates s parameters space i j Hi Hj Hc) as [Hs _].
    congruence.
  - destruct Hcases as [[_ H] | [_ H]]; [left | right]; exact H.
Qed.

Lemma gridSearch_fails_without_feasible_sample_witness :
  exists res,
    performMainThreadOptimization (RT := Reference.runtime)
      (create Scenario.coarse) DEFAULT_PARAMETERS = Returns res.
Proof.
  refine (proj1 (proj2 (gridSearch_fails_without_feasible_sample
                          (RT := Reference.runtime)
                          (create Scenario.coarse) DEFAULT_PARAMETERS))
            2%nat 1%nat _ _ _).
  - vm_compute. lia.
  - vm_compute. lia.
  - vm_compute. reflexivity.
Defined.

(* ===================================================================== *)
(** * services/OptimizationService.js: the objective of the refinement *)
(* ===================================================================== *)

Section ObjectiveFacts.

Context {RT : Runtime}.

Lemma objectiveFunction_cases parameters vars :
  (objectiveFunction parameters vars = 1e10
   \/ (checkConstraints (fst vars) (snd vars) parameters = true
       /\ strict_eq (utilityAt parameters (fst vars) (snd vars)) sentinel = false
       /\ objectiveFunction parameters vars
          = - utilityAt parameters (fst vars) (snd vars)))
  /\ isFinite (objectiveFunction parameters vars) = true.
Proof.
  destruct vars as [w1 w2]. unfold objectiveFunction. simpl.
  destruct (checkConstraints w1 w2 parameters); simpl;
    [| split; [left |]; reflexivity].
  fold (utilityAt parameters w1 w2).
  rewrite (utilityAt_finite parameters w1 w2). simpl.
  change (-5000) with sentinel.
  destruct (strict_eq (utilityAt parameters w1 w2) sentinel);
    [split; [left |]; reflexivity |].
  split; [right; repeat split |].
  rewrite isFinite_opp. apply utilityAt_finite.
Qed.

End ObjectiveFacts.

(** X6: the objective handed to the minimizer is a finite number at every
    point: the negated lifetime utility where [checkConstraints] holds
    and the utility is not the sentinel, and the penalty [1e10] everywhere
    else. *)
Theorem objectiveFunction_total {RT : Runtime}
    (parameters : Parameters) (vars : float * float) :
  isFinite (objectiveFunction parameters vars) = true
  /\ objectiveFunction parameters vars
     = if checkConstraints (fst vars) (snd vars) parameters
          && negb (strict_eq (utilityAt parameters (fst vars) (snd vars))
                             sentinel)
       then - utilityAt parameters (fst vars) (snd vars)
       else 1e10.
Proof.
  split; [apply objectiveFunction_cases |].
  destruct vars as [w1 w2]. unfold objectiveFunction. cbn [fst snd].
  destruct (checkConstraints w1 w2 parameters); [| reflexivity].
  fold (utilityAt parameters w1 w2).
  rewrite (utilityAt_finite parameters w1 w2). cbn [negb orb andb].
  change (-5000) with sentinel.
  destruct (strict_eq (utilityAt parameters w1 w2) sentinel); reflexivity.
Qed.

(* ===================================================================== *)
(** * services/OptimizationService.js: workers and job counters *)
(* ===================================================================== *)

Section JobFacts.

Context {RT : Runtime}.

Implicit Types (s : Service) (parameters : Parameters) (clock : Clock).

Lemma getFromCache_every P s key now :
  every_entry P s ->
  every_entry P (snd (getFromCache s key now))
  /\ forall cached, fst (getFromCache s key now) = Some cached -> P cached.
Proof.
  intros Hs. unfold getFromCache.
  destruct (cache s !! key) as [entry |] eqn:E; [| split; [exact Hs | discriminate]].
  destruct (_ >? _)%Z; simpl.
  - split; [| discriminate].
    intros k e Hk. simpl in Hk. apply lookup_delete_Some in Hk as [_ Hk].
    exact (Hs k e Hk).
  - split; [exact Hs |]. intros cached [= <-]. exact (Hs key entry E).
Qed.

Lemma addToCache_every P s key result now s' :
  every_entry P s -> P result ->
  addToCache s key result now = Some s' -> every_entry P s'.
Proof.
  intros Hs Hr. unfold addToCache.
  destruct (evict _ _ _ _) as [[c order] |] eqn:E; [| discriminate].
  intros [= <-] k e Hk. simpl in Hk.
  apply lookup_insert_Some in Hk as [[<- <-] | [_ Hk]]; [exact Hr |].
  exact (Hs k e (evict_lookup _ _ _ _ _ _ E k e Hk)).
Qed.

Lemma findOptimalWealth_every P s parameters clock :
  (forall s0 result s1,
     performOptimization s0 parameters clock = (Returns result, s1) ->
     P result) ->
  every_entry P s ->
  every_entry P (snd (findOptimalWealth s parameters clock))
  /\ forall res,
       fst (findOptimalWealth s parameters clock) = Returns res ->
       P (fields res).
Proof.
  intros Hnew Hs. unfold findOptimalWealth.
  destruct (validate parameters); [| split; [exact Hs | discriminate]].
  destruct (getFromCache_every P s (generateCacheKey parameters)
              (now_lookup clock) Hs) as [Hl Hhit].
  destruct (getFromCache s _ _) as [[cached |] looked]; simpl in *.
  - split; [exact Hl |]. intros res [= <-]. apply Hhit. reflexivity.
  - pose proof (performOptimization_frame looked parameters clock) as (Hc & _).
    cbv zeta in Hc.
    assert (Hp : every_entry P (snd (performOptimization looked parameters clock))).
    { unfold every_entry. rewrite Hc. exact Hl. }
    destruct (performOptimization looked parameters clock)
      as [[result | e |] computed] eqn:Ep; simpl in *;
      try (split; [exact Hp | discriminate]).
    pose proof (Hnew _ _ _ Ep) as Hr.
    destruct (addToCache computed _ result _) as [stored |] eqn:Ea; simpl;
      [| split; [exact Hp | discriminate]].
    split; [| intros res [= <-]; exact Hr].
    exact (addToCache_every P _ _ _ _ _ Hp Hr Ea).
Qed.

Lemma run_every P calls s s' :
  (forall s0 parameters clock result s1,
     performOptimization s0 parameters clock = (Returns result, s1) ->
     P result) ->
  every_entry P s -> run s calls = Some s' -> every_entry P s'.
Proof.
  intros Hnew. revert s.
  induction calls as [| call calls IH]; intros s Hs; simpl.
  - intros [= <-]. exact Hs.
  - destruct (step s call) as [s1 |] eqn:E; [| discriminate].
    apply IH. destruct call as [parameters clock |]; simpl in E.
    + destruct (findOptimalWealth_every P s parameters clock
                  (fun s0 => Hnew s0 parameters clock) Hs) as [H _].
      destruct (findOptimalWealth s parameters clock) as [[res | e |] s2];
        simpl in *; try discriminate; injection E as <-; exact H.
    + injection E as <-. intros k e Hk. simpl in Hk.
      rewrite lookup_empty in Hk. discriminate.
Qed.

Lemma every_entry_create P opts : every_entry P (create opts).
Proof. intros k e Hk. simpl in Hk. rewrite lookup_empty in Hk. discriminate. Qed.

Lemma performMainThreadOptimization_fallbackUsed s parameters res :
  performMainThreadOptimization s parameters = Returns res ->
  fallbackUsed res = true.
Proof.
  unfold performMainThreadOptimization.
  destruct (negb _); [discriminate |].
  destruct (numericalRefinement _ _ _); intros [= <-]; reflexivity.
Qed.

(** A result is always computed on the main thread. *)
Lemma performOptimization_usedWorker s parameters clock result s' :
  performOptimization s parameters clock = (Returns result, s') ->
  usedWorker result = false /\ s' = count_mainThreadJob s.
Proof.
  unfold performOptimization.
  destruct (useWebWorkers (options s));
    [destruct (fallbackToMainThread (options s)) |];
    try discriminate;
    (destruct (performMainThreadOptimization s parameters)
       as [res | [errs | cause] |] eqn:E; try discriminate;
     intros [= <- <-]; simpl; split; [| reflexivity];
     try rewrite (performMainThreadOptimization_fallbackUsed _ _ _ E);
     reflexivity).
Qed.

Lemma performOptimization_counters s parameters clock :
  let out := performOptimization s parameters clock in
  workerJobs (snd out) = workerJobs s
  /\ mainThreadJobs (snd out)
     = (mainThreadJobs s
        + match fst out with Returns _ => 1 | _ => 0 end)%nat.
Proof.
  unfold performOptimization.
  destruct (if useWebWorkers (options s) then _ else _) as [res | [errs | cause] |];
    simpl; split; lia.
Qed.

Lemma performOptimization_comes_back s parameters clock :
  fst (performOptimization s parameters clock) <> Diverges.
Proof.
  unfold performOptimization, performMainThreadOptimization.
  destruct (useWebWorkers (options s));
    [destruct (fallbackToMainThread (options s)) |];
    try discriminate;
    (destruct (negb _); [discriminate |];
     destruct (numericalRefinement _ _ _); discriminate).
Qed.

Lemma getFromCache_counters s key now :
  workerJobs (snd (getFromCache s key now)) = workerJobs s
  /\ mainThreadJobs (snd (getFromCache s key now)) = mainThreadJobs s.
Proof.
  unfold getFromCache. destruct (cache s !! key); [| split; reflexivity].
  destruct (_ >? _)%Z; split; reflexivity.
Qed.

Lemma addToCache_counters s key result now s' :
  addToCache s key result now = Some s' ->
  workerJobs s' = workerJobs s /\ mainThreadJobs s' = mainThreadJobs s.
Proof.
  unfold addToCache. destruct (evict _ _ _ _) as [[c order] |]; [| discriminate].
  intros [= <-]. split; reflexivity.
Qed.

Lemma findOptimalWealth_counters s parameters clock :
  let out := findOptimalWealth s parameters clock in
  workerJobs (snd out) = workerJobs s
  /\ mainThreadJobs (snd out)
     = (mainThreadJobs s
        + match fst out with
          | Returns res => if cacheHit res then 0 else 1
          | Throws _ => 0
          | Diverges => 1
          end)%nat.
Proof.
  unfold findOptimalWealth.
  destruct (validate parameters); [| simpl; split; lia].
  destruct (getFromCache_counters s (generateCacheKey parameters)
              (now_lookup clock)) as [Hw Hm].
  destruct (getFromCache s _ _) as [[cached |] looked]; simpl in *;
    [split; lia |].
  destruct (performOptimization_counters looked parameters clock) as [Hw' Hm'].
  pose proof (performOptimization_comes_back looked parameters clock) as Hnd.
  destruct (performOptimization looked parameters clock)
    as [[result | e |] computed]; simpl in *; try (split; lia);
    [| congruence].
  destruct (addToCache computed _ result _) as [stored |] eqn:Ea; simpl;
    [| split; lia].
  apply addToCache_counters in Ea as [Hw'' Hm'']. split; lia.
Qed.

Lemma run_workerJobs calls s s' :
  run s calls = Some s' -> workerJobs s' = workerJobs s.
Proof.
  revert s. induction calls as [| call calls IH]; intros s; simpl.
  - intros [= <-]. reflexivity.
  - destruct (step s call) as [s1 |] eqn:E; [| discriminate].
    intros Hr. rewrite (IH _ Hr).
    destruct call as [parameters clock |]; simpl in E.
    + destruct (findOptimalWealth_counters s parameters clock) as [Hw _].
      destruct (findOptimalWealth s parameters clock) as [[res | e |] s2];
        simpl in *; try discriminate; injection E as <-; exact Hw.
    + injection E as <-. reflexivity.
Qed.

End JobFacts.

(** X7: no result ever comes from a worker.  After any sequence of calls
    on a new service, whatever its options, the worker-job counter is
    still [0] and every result [findOptimalWealth] returns, cached or
    new, has [usedWorker] false. *)
Theorem worker_never_used {RT : Runtime}
    (opts : Options) (calls : list Call) (s : Service) :
  run (create opts) calls = Some s ->
  workerJobs s = 0%nat
  /\ forall parameters clock res,
       fst (findOptimalWealth s parameters clock) = Returns res ->
       usedWorker (fields res) = false.
Proof.
  intros Hrun. split; [exact (run_workerJobs _ _ _ Hrun) |].
  assert (Hnew : forall s0 parameters clock result s1,
             performOptimization s0 parameters clock = (Returns result, s1) ->
             usedWorker result = false).
  { intros s0 p c result s1 H.
    apply (performOptimization_usedWorker _ _ _ _ _ H). }
  pose proof (run_every (fun result => usedWorker result = false) calls _ _
                Hnew (every_entry_create _ opts) Hrun) as Hs.
  intros parameters clock res Hres.
  exact (proj2 (findOptimalWealth_every _ s parameters clock
                  (fun s0 => Hnew s0 parameters clock) Hs) res Hres).
Qed.

Lemma worker_never_used_witness :
  exists s,
    run (RT := Reference.runtime) (create Scenario.coarse)
      [CallFindOptimalWealth DEFAULT_PARAMETERS (Scenario.at_time 0)] = Some s
    /\ workerJobs s = 0%nat.
Proof.
  destruct (run (RT := Reference.runtime) (create Scenario.coarse)
              [CallFindOptimalWealth DEFAULT_PARAMETERS (Scenario.at_time 0)])
    as [s |] eqn:E.
  - exists s. split; [reflexivity |].
    exact (proj1 (worker_never_used (RT := Reference.runtime) _ _ _ E)).
  - exfalso.
    assert (Hsome :
      match run (RT := Reference.runtime) (create Scenario.coarse)
              [CallFindOptimalWealth DEFAULT_PARAMETERS (Scenario.at_time 0)]
      with Some _ => true | None => false end = true).
    { vm_compute. reflexivity. }
    rewrite E in Hsome. discriminate.
Defined.

(** X8: with workers requested and the fallback switched off the service
    never produces a result: after any sequence of calls on a new service
    a call with valid parameters throws the worker error, one with invalid
    parameters throws the validation error, and the service is left as it
    was. *)
Theorem no_fallback_no_result {RT : Runtime}
    (opts : Options) (calls : list Call) (s : Service)
    (parameters : Parameters) (clock : Clock) :
  useWebWorkers opts = true -> fallbackToMainThread opts = false ->
  run (create opts) calls = Some s ->
  exists e,
    findOptimalWealth s parameters clock = (Throws e, s)
    /\ (validate parameters = [] -> e = OptimizationError WorkerFailed)
    /\ (validate parameters <> [] ->
        e = ValidationError (validate parameters)).
Proof.
  intros Hw Hf Hrun.
  assert (Hopt : options s = opts).
  { apply run_inv in Hrun as [_ Ho]; [exact Ho | apply cache_inv_create]. }
  assert (Hnew : forall s0 p c result s1,
             options s0 = opts ->
             performOptimization s0 p c <> (Returns result, s1)).
  { intros s0 p c result s1 Ho. unfold performOptimization.
    rewrite Ho, Hw, Hf. discriminate. }
  assert (Hempty : forall calls s0 s1,
             options s0 = opts -> every_entry (fun _ => False) s0 ->
             run s0 calls = Some s1 -> every_entry (fun _ => False) s1).
  { clear calls s Hrun Hopt. intros calls.
    induction calls as [| call calls IH]; intros s0 s1 Ho Hs; simpl.
    - intros [= <-]. exact Hs.
    - destruct (step s0 call) as [s2 |] eqn:E; [| discriminate].
      assert (H2 : options s2 = opts /\ every_entry (fun _ => False) s2).
      { destruct call as [p c |]; simpl in E.
        - unfold findOptimalWealth in E.
          destruct (validate p);
            [| injection E as <-; split; assumption].
          assert (Hnone : cache s0 !! generateCacheKey p = None).
          { destruct (cache s0 !! generateCacheKey p) as [e |] eqn:Ec;
              [destruct (Hs _ _ Ec) | reflexivity]. }
          unfold getFromCache in E. rewrite Hnone in E.
          unfold performOptimization in E. rewrite Ho, Hw, Hf in E.
          injection E as <-. split; assumption.
        - injection E as <-. split; [exact Ho |].
          intros k e Hk. simpl in Hk. rewrite lookup_empty in Hk.
          discriminate. }
      destruct H2 as [Ho2 Hs2]. apply IH; assumption. }
  pose proof (Hempty calls (create opts) s eq_refl
                (every_entry_create _ opts) Hrun) as Hs.
  unfold findOptimalWealth.
  destruct (validate parameters) as [| error errors] eqn:Ev.
  - exists (OptimizationError WorkerFailed).
    split; [| split; [reflexivity | congruence]].
    assert (Hnone : cache s !! generateCacheKey parameters = None).
    { destruct (cache s !! generateCacheKey parameters) as [e |] eqn:Ec;
        [destruct (Hs _ _ Ec) | reflexivity]. }
    unfold getFromCache. rewrite Hnone.
    unfold performOptimization. rewrite Hopt, Hw, Hf. reflexivity.
  - eexists. split; [reflexivity |]. split; [discriminate |].
    intros _. reflexivity.
Qed.

Lemma no_fallback_no_result_witness :
  findOptimalWealth (RT := Reference.runtime) (create Cases.workersOnly)
    DEFAULT_PARAMETERS (Scenario.at_time 0)
  = (Throws (OptimizationError WorkerFailed), create Cases.workersOnly).
Proof.
  destruct (no_fallback_no_result (RT := Reference.runtime) Cases.workersOnly []
              (create Cases.workersOnly) DEFAULT_PARAMETERS (Scenario.at_time 0)
              eq_refl eq_refl eq_refl) as (e & H & Hvalid & _).
  rewrite H, (Hvalid eq_refl). reflexivity.
Defined.

(** X9: the job counters of one call: [workerJobs] never changes, and
    [mainThreadJobs] grows by one exactly when the call ran a search that
    returned, that is, when it returns with [cacheHit] false (or never
    comes back from caching the result); it stays as it is on a cache hit
    and when the call throws. *)
Theorem job_counters {RT : Runtime}
    (s : Service) (parameters : Parameters) (clock : Clock) :
  let out := findOptimalWealth s parameters clock in
  workerJobs (snd out) = workerJobs s
  /\ mainThreadJobs (snd out)
     = (mainThreadJobs s
        + match fst out with
          | Returns res => if cacheHit res then 0 else 1
          | Throws _ => 0
          | Diverges => 1
          end)%nat.
Proof. apply findOptimalWealth_counters. Qed.

(* ===================================================================== *)
(** * services/OptimizationService.js: eviction, key collisions, failed calls *)
(* ===================================================================== *)

Section EvictionFacts.

Context {RT : Runtime}.

Implicit Types (s : Service) (parameters : Parameters) (clock : Clock).

(** The eviction loop keeps the first [capacity - 1] keys of the order
    list and deletes from the map every key it drops, by name. *)
Lemma evict_spec (fuel capacity : nat) (c : gmap CacheKey CacheEntry)
    (order : list CacheKey) c' order' :
  (1 <= capacity)%nat ->
  evict fuel capacity c order = Some (c', order') ->
  order' = take (capacity - 1) order
  /\ forall k,
       c' !! k = if decide (k ∈ drop (capacity - 1) order) then None else c !! k.
Proof.
  intros Hcap. revert c order.
  assert (Hbelow : forall (c : gmap CacheKey CacheEntry) (order : list CacheKey),
            (capacity <=? length order)%nat = false ->
            order = take (capacity - 1) order
            /\ forall k, c !! k
                 = if decide (k ∈ drop (capacity - 1) order) then None else c !! k).
  { intros c order E. apply Nat.leb_gt in E.
    rewrite take_ge by lia. rewrite drop_ge by lia. split; [reflexivity |].
    intros k. destruct (decide (k ∈ [])) as [Hin |]; [| reflexivity].
    apply elem_of_nil in Hin. contradiction. }
  induction fuel as [| fuel IH]; intros c order; simpl.
  - destruct (capacity <=? length order)%nat eqn:E; [discriminate |].
    intros [= <- <-]. apply Hbelow, E.
  - destruct (capacity <=? length order)%nat eqn:E;
      [| intros [= <- <-]; apply Hbelow, E].
    apply Nat.leb_le in E.
    destruct (last order) as [oldKey |] eqn:El.
    + apply last_Some in El as [l' ->].
      rewrite removelast_last. rewrite length_app in E. simpl in E.
      intros H. destruct (IH _ _ H) as [Ho Hc].
      rewrite take_app_le by lia. split; [exact Ho |].
      intros k. rewrite (Hc k). rewrite drop_app_le by lia.
      destruct (decide (k ∈ drop (capacity - 1) l')) as [Hin | Hnin].
      * destruct (decide (k ∈ drop (capacity - 1) l' ++ [oldKey])) as [| Hn];
          [reflexivity |].
        exfalso. apply Hn. apply elem_of_app. now left.
      * destruct (decide (k ∈ drop (capacity - 1) l' ++ [oldKey])) as [Hin | Hn].
        -- apply elem_of_app in Hin as [Hin | Hin]; [contradiction |].
           apply list_elem_of_singleton in Hin. subst k. apply lookup_delete_eq.
        -- apply lookup_delete_ne. intros ->. apply Hn.
           apply elem_of_app. right. apply list_elem_of_singleton. reflexivity.
    + apply last_None in El. subst order. simpl in E. lia.
Qed.

Lemma findOptimalWealth_Throws s parameters clock e s' :
  findOptimalWealth s parameters clock = (Throws e, s') ->
  let key := generateCacheKey parameters in
  (validate parameters <> [] /\ s' = s)
  \/ (validate parameters = []
      /\ fst (getFromCache s key (now_lookup clock)) = None
      /\ s' = snd (getFromCache s key (now_lookup clock))
      /\ exists cause, e = OptimizationError cause).
Proof.
  unfold findOptimalWealth.
  destruct (validate parameters) as [| error errors];
    [| intros [= <- <-]; left; split; [discriminate | reflexivity]].
  cbv zeta.
  destruct (getFromCache s _ _) as [[cached |] looked]; simpl; [discriminate |].
  pose proof (performOptimization_frame looked parameters clock) as Hframe.
  cbv zeta in Hframe.
  assert (Hsame : forall cause,
            fst (performOptimization looked parameters clock)
              = Throws (OptimizationError cause) ->
            snd (performOptimization looked parameters clock) = looked).
  { unfold performOptimization.
    destruct (if useWebWorkers (options looked) then _ else _)
      as [res | [errs | cause'] |]; simpl; try discriminate; reflexivity. }
  assert (Hcause : forall e',
            fst (performOptimization looked parameters clock) = Throws e' ->
            exists cause, e' = OptimizationError cause).
  { unfold performOptimization, performMainThreadOptimization.
    destruct (useWebWorkers (options looked));
      [destruct (fallbackToMainThread (options looked)) |];
      try (simpl; intros e' [= <-]; eexists; reflexivity);
      (destruct (negb _);
       [simpl; intros e' [= <-]; eexists; reflexivity |];
       destruct (numericalRefinement _ _ _); simpl; discriminate). }
  destruct (performOptimization looked parameters clock)
    as [[result | e' |] computed]; simpl in *.
  - destruct (addToCache computed _ result _); discriminate.
  - intros [= <- <-]. right.
    destruct (Hcause e' eq_refl) as [cause ->].
    repeat split; [apply (Hsame cause); reflexivity | eauto].
  - discriminate.
Qed.

End EvictionFacts.

(** X10: with a capacity of at least one, [addToCache] returns.  The new
    order list is the key followed by the first [cacheSize - 1] keys of
    the old one, and every key the loop dropped from the list is deleted
    from the map by name, also when the same key occurs earlier in the
    list; all other entries are kept. *)
Theorem addToCache_keeps_most_recent
    (s : Service) (key : CacheKey) (result : OptimizationResult) (now : Z) :
  (1 <= cacheSize (options s))%nat ->
  exists s',
    addToCache s key result now = Some s'
    /\ cacheOrder s' = key :: take (cacheSize (options s) - 1) (cacheOrder s)
    /\ cache s' !! key = Some {| entry_result := result; timestamp := now |}
    /\ forall k,
         k <> key ->
         cache s' !! k
         = if decide (k ∈ drop (cacheSize (options s) - 1) (cacheOrder s))
           then None else cache s !! k.
Proof.
  intros Hcap. unfold addToCache.
  destruct (evict_terminates (cacheSize (options s)) (cache s) (cacheOrder s)
              (S (length (cacheOrder s))) Hcap) as [[c order] E]; [lia |].
  rewrite E. eexists. split; [reflexivity |].
  destruct (evict_spec _ _ _ _ _ _ Hcap E) as [-> Hc]. simpl.
  split; [reflexivity |]. split; [apply lookup_insert_eq |].
  intros k Hk. rewrite lookup_insert_ne by congruence. apply Hc.
Qed.

Lemma addToCache_keeps_most_recent_witness :
  exists s',
    addToCache (create Cases.twoEntries) (generateCacheKey DEFAULT_PARAMETERS)
      {| w1 := 1.6; w2 := 2.4; utility := 27; iterations := 0;
         convergence := grid_only; method := grid_search;
         calculationTime := 5; usedWorker := false |} 0
    = Some s'
    /\ cacheOrder s' = [generateCacheKey DEFAULT_PARAMETERS].
Proof.
  destruct (addToCache_keeps_most_recent (create Cases.twoEntries)
              (generateCacheKey DEFAULT_PARAMETERS)
              {| w1 := 1.6; w2 := 2.4; utility := 27; iterations := 0;
                 convergence := grid_only; method := grid_search;
                 calculationTime := 5; usedWorker := false |} 0)
    as (s' & H & Ho & _).
  - simpl. lia.
  - exists s'. split; [exact H | exact Ho].
Defined.

(** X11: the cache does not tell apart parameters with the same key:
    after a call for [parameters1] has computed a result, a call with any
    valid [parameters2] that round to the same three decimals, made within
    [cacheTTL] of the insertion, returns the result computed for
    [parameters1] with [cacheHit] true. *)
Theorem same_key_same_result {RT : Runtime}
    (s : Service) (parameters1 parameters2 : Parameters)
    (clock1 clock2 : Clock) (res1 : FinalResult) (s1 : Service) :
  findOptimalWealth s parameters1 clock1 = (Returns res1, s1) ->
  cacheHit res1 = false ->
  validate parameters2 = [] ->
  generateCacheKey parameters2 = generateCacheKey parameters1 ->
  (now_lookup clock2 - now_insert clock1 <= cacheTTL (options s))%Z ->
  exists s2,
    findOptimalWealth s1 parameters2 clock2
    = (Returns {| fields := fields res1; cacheHit := true |}, s2).
Proof.
  intros H Hmiss Hvalid Hkey Hage.
  apply findOptimalWealth_Returns in H as [_ H]. cbv zeta in H.
  destruct H as [(cached & _ & -> & _)
                | (result & computed & stored & _ & Hp & Ha & -> & ->)];
    [discriminate |].
  pose proof (getFromCache_options s (generateCacheKey parameters1)
                (now_lookup clock1)) as Ho1.
  pose proof (performOptimization_frame
                (snd (getFromCache s (generateCacheKey parameters1)
                        (now_lookup clock1))) parameters1 clock1)
    as (_ & _ & Ho2 & _).
  cbv zeta in Ho2. rewrite Hp in Ho2. simpl in Ho2.
  unfold addToCache in Ha.
  destruct (evict _ _ _ _) as [[c order] |]; [| discriminate].
  injection Ha as <-.
  set (s1 := updateWarmStart _ _ _).
  set (entry := {| entry_result := result; timestamp := now_insert clock1 |}).
  assert (He : cache s1 !! generateCacheKey parameters2 = Some entry).
  { rewrite Hkey. simpl. apply lookup_insert_eq. }
  assert (Hopt : options s1 = options s).
  { simpl. congruence. }
  destruct (getFromCache_hit s1 (generateCacheKey parameters2)
              (now_lookup clock2) entry He) as [Hhit _].
  { rewrite Hopt. exact Hage. }
  exists (snd (getFromCache s1 (generateCacheKey parameters2) (now_lookup clock2))).
  unfold findOptimalWealth. rewrite Hvalid. cbv zeta.
  destruct (getFromCache s1 (generateCacheKey parameters2) (now_lookup clock2))
    as [looked s2].
  simpl in *. rewrite Hhit. reflexivity.
Qed.

Lemma same_key_same_result_witness :
  exists res1 s2,
    fst (findOptimalWealth (RT := Reference.runtime) (create Scenario.coarse)
           DEFAULT_PARAMETERS (Scenario.at_time 0)) = Returns res1
    /\ findOptimalWealth (RT := Reference.runtime)
         (snd (findOptimalWealth (RT := Reference.runtime)
                 (create Scenario.coarse) DEFAULT_PARAMETERS
                 (Scenario.at_time 0)))
         Cases.almostDefault (Scenario.at_time 1000)
       = (Returns {| fields := fields res1; cacheHit := true |}, s2).
Proof.
  assert (H : exists res,
             fst (findOptimalWealth (RT := Reference.runtime)
                    (create Scenario.coarse) DEFAULT_PARAMETERS
                    (Scenario.at_time 0)) = Returns res
             /\ cacheHit res = false).
  { vm_compute. eexists. split; reflexivity. }
  destruct H as (res1 & Hfst & Hmiss).
  destruct (same_key_same_result (RT := Reference.runtime)
              (create Scenario.coarse) DEFAULT_PARAMETERS Cases.almostDefault
              (Scenario.at_time 0) (Scenario.at_time 1000) res1 _
              (pair_of_fst _ _ Hfst) Hmiss) as [s2 H2].
  - vm_compute. reflexivity.
  - vm_compute. reflexivity.
  - vm_compute. discriminate.
  - exists res1, s2. split; [exact Hfst | exact H2].
Defined.

(** X12: a call that throws leaves the service as it was, except that it
    may have deleted the expired entry of its own key from the map: the
    warm-start slot, the order list, the options and the other entries
    are untouched, and nothing is cached for the failed call. *)
Theorem failed_call_frame {RT : Runtime}
    (s : Service) (parameters : Parameters) (clock : Clock)
    (e : ServiceError) (s' : Service) :
  findOptimalWealth s parameters clock = (Throws e, s') ->
  let key := generateCacheKey parameters in
  s' = s
  \/ (validate parameters = []
      /\ (exists entry,
            cache s !! key = Some entry
            /\ (now_lookup clock - timestamp entry > cacheTTL (options s))%Z)
      /\ s' = set_cache s (delete key (cache s)) (cacheOrder s)).
Proof.
  intros H key.
  apply findOptimalWealth_Throws in H. cbv zeta in H. fold key in H.
  destruct H as [[_ ->] | (Hvalid & Hl & -> & _)]; [now left |].
  unfold getFromCache in *.
  destruct (cache s !! key) as [entry |] eqn:E; [| now left].
  destruct (_ >? _)%Z eqn:Hgt; simpl in *; [| discriminate].
  right. split; [exact Hvalid |]. split; [| reflexivity].
  exists entry. split; [reflexivity | lia].
Qed.

Lemma failed_call_frame_witness :
  snd (findOptimalWealth (RT := Reference.runtime) (create Scenario.coarse)
         (Cases.taxed 2) (Scenario.at_time 0))
  = create Scenario.coarse.
Proof.
  assert (H : exists e,
             fst (findOptimalWealth (RT := Reference.runtime)
                    (create Scenario.coarse) (Cases.taxed 2)
                    (Scenario.at_time 0)) = Throws e).
  { vm_compute. eexists. reflexivity. }
  destruct H as (e & Hfst).
  destruct (failed_call_frame (RT := Reference.runtime) _ _ _ _ _
              (pair_of_fst _ _ Hfst)) as [H | (_ & (entry & He & _) & _)].
  - exact H.
  - simpl in He. rewrite lookup_empty in He. discriminate.
Defined.

(* ===================================================================== *)
(** * services/OptimizationService.js: when a search warm-starts *)
(* ===================================================================== *)

Section WarmStartFacts.

Context {RT : Runtime}.

Implicit Types (s : Service) (parameters : Parameters) (clock : Clock).

(** [|x - x| / max(x, x)] is [0] or NaN, hence never above the threshold. *)
Lemma relative_change_self x :
  gt (Math_abs (x - x) / Math_max x x) 0.1 = false.
Proof.
  unfold gt, Math_abs. rewrite ltb_spec, div_spec, abs_spec, sub_spec.
  assert (Hsub : SF64sub (Prim2SF x) (Prim2SF x) = S754_nan
                 \/ exists sg, SF64sub (Prim2SF x) (Prim2SF x) = S754_zero sg).
  { unfold SF64sub, SFsub.
    destruct (Prim2SF x) as [sg | sg | | sg m e].
    - right. destruct sg; eauto.
    - left. destruct sg; reflexivity.
    - now left.
    - right. cbv zeta. rewrite Z.sub_diag. simpl. eauto. }
  destruct Hsub as [-> | [sg ->]]; [reflexivity |]. simpl.
  unfold SF64div, SFdiv.
  destruct (Prim2SF (Math_max x x)) as [sy | sy | | sy my ey]; reflexivity.
Qed.

(** Parameters are similar to themselves, whatever they are. *)
Lemma isParameterSimilar_refl parameters :
  isParameterSimilar parameters (Some parameters) = true.
Proof.
  unfold isParameterSimilar, importantParams. simpl.
  rewrite !relative_change_self. reflexivity.
Qed.

Lemma determineSearchSpace_warm s parameters lastW1 lastW2 :
  lastOptimalResult s = Some (lastW1, lastW2) ->
  lastParameters s = Some parameters ->
  warmStartEnabled (options s) = true ->
  checkConstraints lastW1 lastW2 parameters = true ->
  determineSearchSpace s parameters
  = {| w1Min := Math_max 0.01 (lastW1 * (1 - 0.2));
       w1Max := Math_min (maxW1 parameters - 0.01) (lastW1 * (1 + 0.2));
       w2Min := Math_max 0.01 (lastW2 * (1 - 0.2));
       w2Max := Math_min (lastW2 * (1 + 0.2 * 2)) (maxW1 parameters * 3);
       centerW1 := lastW1;
       centerW2 := lastW2 |}.
Proof.
  intros Hr Hp Hw Hc. unfold determineSearchSpace.
  rewrite Hr, Hp, Hw, isParameterSimilar_refl, Hc. reflexivity.
Qed.

End WarmStartFacts.

(** X13: the next search for the same parameters is a warm one.  After a
    call has computed a result, with warm starts enabled, the search space
    for the same parameters is the box of radius [0.2] centred on the
    returned point, clipped as the code clips it; this also holds after
    [clearCache], which empties the cache and keeps the warm-start slot,
    so that the next call for these parameters is a miss that searches
    this box. *)
Theorem repeated_search_is_warm {RT : Runtime}
    (s : Service) (parameters : Parameters) (clock : Clock)
    (res : FinalResult) (s' : Service) :
  findOptimalWealth s parameters clock = (Returns res, s') ->
  cacheHit res = false ->
  warmStartEnabled (options s) = true ->
  let w1 := w1 (fields res) in
  let w2 := w2 (fields res) in
  let warm :=
    {| w1Min := Math_max 0.01 (w1 * (1 - 0.2));
       w1Max := Math_min (maxW1 parameters - 0.01) (w1 * (1 + 0.2));
       w2Min := Math_max 0.01 (w2 * (1 - 0.2));
       w2Max := Math_min (w2 * (1 + 0.2 * 2)) (maxW1 parameters * 3);
       centerW1 := w1;
       centerW2 := w2 |} in
  determineSearchSpace s' parameters = warm
  /\ determineSearchSpace (clearCache s') parameters = warm
  /\ forall clock2 res2 s2,
       findOptimalWealth (clearCache s') parameters clock2 = (Returns res2, s2) ->
       cacheHit res2 = false.
Proof.
  intros H Hmiss Hw.
  apply findOptimalWealth_Returns in H as [_ H]. cbv zeta in H.
  destruct H as [(cached & _ & -> & _)
                | (result & computed & stored & _ & Hp & Ha & -> & ->)];
    [discriminate |].
  pose proof (getFromCache_options s (generateCacheKey parameters)
                (now_lookup clock)) as Ho1.
  pose proof (performOptimization_frame
                (snd (getFromCache s (generateCacheKey parameters)
                        (now_lookup clock))) parameters clock)
    as (_ & _ & Ho2 & _).
  cbv zeta in Ho2. rewrite Hp in Ho2. simpl in Ho2.
  pose proof (performOptimization_sound _ _ _ _ _ Hp) as (_ & _ & Hc).
  assert (Ho3 : options stored = options computed).
  { unfold addToCache in Ha.
    destruct (evict _ _ _ _) as [[c order] |]; [| discriminate].
    injection Ha as <-. reflexivity. }
  simpl. split; [| split].
  - apply determineSearchSpace_warm; simpl; try reflexivity; [congruence | exact Hc].
  - apply determineSearchSpace_warm; simpl; try reflexivity; [congruence | exact Hc].
  - intros clock2 res2 s2 H2.
    apply findOptimalWealth_Returns in H2 as [_ H2]. cbv zeta in H2.
    destruct H2 as [(cached & Hl & _) | (r2 & c2 & st2 & _ & _ & _ & -> & _)];
      [| reflexivity].
    unfold getFromCache in Hl. simpl in Hl. rewrite lookup_empty in Hl.
    discriminate.
Qed.

Lemma repeated_search_is_warm_witness :
  exists res,
    fst (findOptimalWealth (RT := Reference.runtime) (create Scenario.coarse)
           DEFAULT_PARAMETERS (Scenario.at_time 0)) = Returns res
    /\ centerW1
         (determineSearchSpace (RT := Reference.runtime)
            (snd (findOptimalWealth (RT := Reference.runtime)
                    (create Scenario.coarse) DEFAULT_PARAMETERS
                    (Scenario.at_time 0)))
            DEFAULT_PARAMETERS)
       = w1 (fields res).
Proof.
  assert (H : exists res,
             fst (findOptimalWealth (RT := Reference.runtime)
                    (create Scenario.coarse) DEFAULT_PARAMETERS
                    (Scenario.at_time 0)) = Returns res
             /\ cacheHit res = false).
  { vm_compute. eexists. split; reflexivity. }
  destruct H as (res & Hfst & Hmiss).
  exists res. split; [exact Hfst |].
  rewrite (proj1 (repeated_search_is_warm (RT := Reference.runtime) _ _ _ _ _
                    (pair_of_fst _ _ Hfst) Hmiss eq_refl)).
  reflexivity.
Defined.

(* ===================================================================== *)
(** * utils/ParameterValidator.js: what validation guarantees *)
(* ===================================================================== *)

Section ValidatorFacts.

Context {RT : Runtime}.

Lemma lex_le_lt_trans p q t : lex p q <> Gt -> lex q t = Lt -> lex p t = Lt.
Proof.
  destruct p as [[a b] c], q as [[a' b'] c'], t as [[a'' b''] c'']. simpl.
  destruct (Z.compare_spec a a'), (Z.compare_spec a' a''),
    (Z.compare_spec a a''); try congruence; try lia;
  destruct (Z.compare_spec b b'), (Z.compare_spec b' b''),
    (Z.compare_spec b b''); try congruence; try lia;
  destruct (Z.compare_spec c c'), (Z.compare_spec c' c''),
    (Z.compare_spec c c''); try congruence; try lia.
Qed.

Lemma le_lt_trans x y z : le x y = true -> lt y z = true -> lt x z = true.
Proof.
  rewrite !lt_rank, le_rank.
  intros (p & q & Hp & Hq & Hpq) (q' & t & Hq' & Ht & Hqt).
  rewrite Hq in Hq'. injection Hq' as <-.
  exists p, t. repeat split; try assumption. eapply lex_le_lt_trans; eassumption.
Qed.

(** A number that is not below a positive bound is not zero. *)
Lemma not_below_not_zero x bound :
  lt 0 bound = true -> lt x bound = false -> strict_eq x 0 = false.
Proof.
  intros Hb Hx. destruct (strict_eq x 0) eqn:E; [| reflexivity].
  assert (Hle : le x 0 = true).
  { unfold strict_eq in E. unfold le.
    rewrite FloatAxioms.eqb_spec in E. rewrite leb_spec.
    unfold SFeqb in E. unfold SFleb.
    destruct (SFcompare (Prim2SF x) (Prim2SF 0)) as [[] |]; congruence. }
  rewrite (le_lt_trans _ _ _ Hle Hb) in Hx. discriminate.
Qed.

Lemma not_below_positive x bound :
  lt 0 bound = true -> lt x bound = false -> le x 0 = false.
Proof.
  intros Hb Hx. destruct (le x 0) eqn:E; [| reflexivity].
  rewrite (le_lt_trans _ _ _ E Hb) in Hx. discriminate.
Qed.

Lemma flat_map_eq_nil {A B : Type} (g : A -> list B) (l : list A) :
  flat_map g l = [] -> Forall (fun a => g a = []) l.
Proof.
  induction l as [| a l IH]; simpl; intros H; [constructor |].
  apply app_eq_nil in H as [Ha Hl]. constructor; [exact Ha | apply IH, Hl].
Qed.

(** Valid parameters pass every rule of every field and every cross rule. *)
Lemma validate_nil_rules parameters :
  validate parameters = [] ->
  Forall (fun '(paramName, field, fieldRules) =>
            Forall (fun rule : Rule => rule (field parameters) = None)
                   fieldRules)
         rules
  /\ Forall (fun crossRule => crossRule parameters = None) crossRules.
Proof.
  unfold validate. intros H. apply app_eq_nil in H as [Hr Hc]. split.
  - apply flat_map_eq_nil in Hr.
    eapply Forall_impl; [exact Hr |].
    intros [[paramName field] fieldRules] Hf.
    apply flat_map_eq_nil in Hf.
    eapply Forall_impl; [exact Hf |].
    intros rule Hrule. simpl in Hrule.
    destruct (rule (field parameters)); [discriminate | reflexivity].
  - apply flat_map_eq_nil in Hc.
    eapply Forall_impl; [exact Hc |].
    intros crossRule Hrule. simpl in Hrule.
    destruct (crossRule parameters); [discriminate | reflexivity].
Qed.

Lemma createRangeRule_None min max message v :
  createRangeRule min max message (Some v) = None ->
  lt v min = false /\ gt v max = false.
Proof.
  unfold createRangeRule.
  destruct (lt v min); [discriminate |].
  destruct (gt v max); [discriminate |]. split; reflexivity.
Qed.

Lemma createFiniteRule_None v :
  createFiniteRule (Some v) = None -> isFinite v = true.
Proof.
  unfold createFiniteRule. destruct (isFinite v); [reflexivity | discriminate].
Qed.

Lemma notExactlyOne_None message v :
  notExactlyOne message (Some v) = None -> strict_eq v 1 = false.
Proof.
  unfold notExactlyOne. destruct (strict_eq v 1); [discriminate | reflexivity].
Qed.

Lemma createIntegerRule_None v :
  createIntegerRule (Some v) = None -> Number_isInteger v = true.
Proof.
  unfold createIntegerRule.
  destruct (Number_isInteger v); [reflexivity | discriminate].
Qed.

(** What the validator guarantees of the parameters it accepts. *)
Lemma validate_nil_domain parameters :
  validate parameters = [] ->
  (isFinite (r parameters) = true /\ isFinite (rho parameters) = true
   /\ isFinite (gamma parameters) = true /\ isFinite (eta parameters) = true
   /\ isFinite (beta parameters) = true /\ isFinite (tau parameters) = true
   /\ isFinite (t1 parameters) = true /\ isFinite (t2 parameters) = true)
  /\ (exists w, w0 parameters = Some w /\ isFinite w = true
                /\ lt w 0.01 = false /\ gt w 1000 = false)
  /\ (lt (gamma parameters) 0.1 = false /\ strict_eq (gamma parameters) 1 = false)
  /\ (lt (eta parameters) 0.1 = false /\ strict_eq (eta parameters) 1 = false)
  /\ (lt (tau parameters) 0 = false /\ gt (tau parameters) 0.99 = false)
  /\ (lt (t1 parameters) 5 = false /\ Number_isInteger (t1 parameters) = true)
  /\ (lt (t2 parameters) 1 = false /\ Number_isInteger (t2 parameters) = true)
  /\ gt (t1 parameters + t2 parameters) 120 = false
  /\ le (r parameters) (rho parameters) = false.
Proof.
  intros H. apply validate_nil_rules in H as [Hr Hc].
  unfold rules, createInterestRateRules, createImpatienecRateRules,
    createRiskAversionRules, createBequestRiskAversionRules,
    createBequestImportanceRules, createTaxRateRules, createTimeHorizonRules,
    createWealthRules in Hr.
  unfold crossRules in Hc.
  repeat match goal with
         | H : Forall _ (_ :: _) |- _ =>
             let Hx := fresh "Hx" in apply Forall_cons in H as [Hx H]
         | H : Forall _ [] |- _ => clear H
         end.
  repeat match goal with
         | H : createRangeRule _ _ _ (Some _) = None |- _ =>
             apply createRangeRule_None in H as [? ?]
         | H : createFiniteRule (Some _) = None |- _ =>
             apply createFiniteRule_None in H
         | H : notExactlyOne _ (Some _) = None |- _ =>
             apply notExactlyOne_None in H
         | H : createIntegerRule (Some _) = None |- _ =>
             apply createIntegerRule_None in H
         end.
  destruct (w0 parameters) as [w |] eqn:Ew;
    [| match goal with H : createTypeRule None = None |- _ => discriminate H end].
  repeat match goal with
         | H : createRangeRule _ _ _ (Some _) = None |- _ =>
             apply createRangeRule_None in H as [? ?]
         | H : createFiniteRule (Some _) = None |- _ =>
             apply createFiniteRule_None in H
         end.
  match goal with
  | H : validateInterestRateConsistency _ = None |- _ =>
      unfold validateInterestRateConsistency in H;
      destruct (le (r parameters) (rho parameters)) eqn:Erho; [discriminate H |]
  end.
  match goal with
  | H : validateTimeHorizonsConsistency _ = None |- _ =>
      unfold validateTimeHorizonsConsistency in H;
      destruct (gt (t1 parameters + t2 parameters) 120) eqn:Esum;
        [discriminate H |];
      destruct (lt (t1 parameters) 5) eqn:Et1; [discriminate H |]
  end.
  repeat split; try assumption.
  exists w. repeat split; assumption.
Qed.

End ValidatorFacts.

(* ===================================================================== *)
(** * The arithmetic of the numbers: exact cases *)
(* ===================================================================== *)

Section ArithmeticFacts.

Lemma digits2_pos_iter_xO (n : nat) m :
  Z.pos (digits2_pos (Nat.iter n xO m))
  = (Z.pos (digits2_pos m) + Z.of_nat n)%Z.
Proof.
  induction n as [| n IH].
  - simpl. lia.
  - rewrite Nat2Z.inj_succ. simpl Nat.iter. simpl digits2_pos.
    rewrite Pos2Z.inj_succ, IH. lia.
Qed.

Lemma shr_1_iter_xO (n : nat) m :
  Nat.iter n shr_1
    {| shr_m := Z.pos (Nat.iter n xO m); shr_r := false; shr_s := false |}
  = {| shr_m := Z.pos m; shr_r := false; shr_s := false |}.
Proof.
  revert m. induction n as [| n IH]; intros m; [reflexivity |].
  rewrite Nat.iter_succ_r.
  replace (Nat.iter (S n) xO m) with (xO (Nat.iter n xO m)) by reflexivity.
  simpl shr_1. apply IH.
Qed.

Lemma mul_pow2_52 m : (m * 4503599627370496 = Nat.iter 52 xO m)%positive.
Proof. rewrite Pos.mul_comm. reflexivity. Qed.

Lemma iter_pos_52 {A : Type} (g : A -> A) a :
  SpecFloat.iter_pos g 52 a = Nat.iter 52 g a.
Proof. reflexivity. Qed.

(** Rounding [m * 2^52 * 2^(e - 52)] gives back [m * 2^e]. *)
Lemma round_exact sg m e :
  valid_binary (S754_finite sg m e) = true ->
  binary_round_aux prec emax sg (Z.pos (m * 4503599627370496)) (e + -52)
    loc_Exact
  = S754_finite sg m e.
Proof.
  unfold valid_binary, bounded, canonical_mantissa.
  intros Hv. apply andb_prop in Hv as [Hc He].
  apply Z.eqb_eq in Hc. apply Z.leb_le in He.
  rewrite mul_pow2_52.
  unfold binary_round_aux, shr_fexp, Zdigits2.
  rewrite digits2_pos_iter_xO.
  replace (Z.pos (digits2_pos m) + Z.of_nat 52 + (e + -52))%Z
    with (Z.pos (digits2_pos m) + e)%Z by lia.
  rewrite Hc.
  replace (e - (e + -52))%Z with 52%Z by lia.
  unfold shr at 1. rewrite iter_pos_52.
  unfold shr_record_of_loc. rewrite !shr_1_iter_xO.
  cbn [shr_m shr_r shr_s loc_of_shr_record round_nearest_even].
  replace (e + -52 + 52)%Z with e by lia.
  rewrite Hc, Z.sub_diag.
  cbn [shr shr_m].
  apply Z.leb_le in He. rewrite He. reflexivity.
Qed.

Lemma Prim2SF_one : Prim2SF 1 = S754_finite false 4503599627370496 (-52).
Proof. reflexivity. Qed.

(** Multiplying by [1] changes nothing. *)
Lemma mul_one_r x : x * 1 = x.
Proof.
  apply Prim2SF_inj. rewrite mul_spec, Prim2SF_one.
  pose proof (Prim2SF_valid x) as Hv.
  destruct (Prim2SF x) as [sg | sg | | sg m e];
    try (simpl; destruct sg; reflexivity).
  - reflexivity.
  - unfold SF64mul, SFmul. rewrite xorb_false_r. apply round_exact, Hv.
Qed.

Lemma mul_one_l x : 1 * x = x.
Proof.
  apply Prim2SF_inj. rewrite mul_spec, Prim2SF_one.
  pose proof (Prim2SF_valid x) as Hv.
  destruct (Prim2SF x) as [sg | sg | | sg m e];
    try (simpl; destruct sg; reflexivity).
  - reflexivity.
  - unfold SF64mul, SFmul. rewrite xorb_false_l, Pos.mul_comm, Z.add_comm.
    apply round_exact, Hv.
Qed.

(** The numbers that are [=== 0] are [0] and [-0]. *)
Lemma strict_eq_zero x :
  strict_eq x 0 = true <-> exists sg, Prim2SF x = S754_zero sg.
Proof.
  unfold strict_eq. rewrite FloatAxioms.eqb_spec. unfold SFeqb.
  replace (Prim2SF 0) with (S754_zero false) by reflexivity.
  destruct (Prim2SF x) as [sg | sg | | sg m e]; simpl; split;
    try discriminate; try (intros [sg' [=]]); eauto;
    destruct sg; discriminate.
Qed.

(** A finite product, sum or quotient has finite operands (for the
    quotient: a finite dividend). *)
Lemma isFinite_mul_inv x y :
  isFinite (x * y) = true -> isFinite x = true /\ isFinite y = true.
Proof.
  rewrite !isFinite_spec, mul_spec. unfold SF64mul, SFmul.
  destruct (Prim2SF x) as [sx | sx | | sx mx ex],
           (Prim2SF y) as [sy | sy | | sy my ey];
    try discriminate; split; reflexivity.
Qed.

Lemma isFinite_add_inv x y :
  isFinite (x + y) = true -> isFinite x = true /\ isFinite y = true.
Proof.
  rewrite !isFinite_spec, add_spec. unfold SF64add, SFadd.
  destruct (Prim2SF x) as [sx | sx | | sx mx ex],
           (Prim2SF y) as [sy | sy | | sy my ey];
    try discriminate; try (split; reflexivity);
    destruct sx, sy; discriminate.
Qed.

Lemma isFinite_div_inv x y : isFinite (x / y) = true -> isFinite x = true.
Proof.
  rewrite !isFinite_spec, div_spec. unfold SF64div, SFdiv.
  destruct (Prim2SF x) as [sx | sx | | sx mx ex],
           (Prim2SF y) as [sy | sy | | sy my ey];
    try discriminate; reflexivity.
Qed.

(** A finite number times zero is zero. *)
Lemma mul_zero_r x z :
  isFinite x = true -> strict_eq z 0 = true -> strict_eq (x * z) 0 = true.
Proof.
  rewrite isFinite_spec, !strict_eq_zero, mul_spec. unfold SF64mul, SFmul.
  intros Hx [sz ->].
  destruct (Prim2SF x) as [sx | sx | | sx mx ex]; try discriminate; eauto.
Qed.

End ArithmeticFacts.

(* ===================================================================== *)
(** * services/VisualizationService.js: the tax-effect sweep *)
(* ===================================================================== *)

Section SweepFacts.

Context {RT : Runtime}.

Implicit Types (s : Service) (parameters : Parameters).

Lemma flat_map_nil_intro {A B : Type} (g : A -> list B) (l : list A) :
  Forall (fun a => g a = []) l -> flat_map g l = [].
Proof.
  induction 1 as [| a l Ha _ IH]; simpl; [reflexivity |].
  rewrite Ha, IH. reflexivity.
Qed.

Lemma validate_rules_nil parameters :
  Forall (fun '(paramName, field, fieldRules) =>
            Forall (fun rule : Rule => rule (field parameters) = None)
                   fieldRules)
         rules ->
  Forall (fun crossRule => crossRule parameters = None) crossRules ->
  validate parameters = [].
Proof.
  intros Hr Hc. unfold validate.
  rewrite (flat_map_nil_intro _ rules), (flat_map_nil_intro _ crossRules);
    [reflexivity | |].
  - eapply Forall_impl; [exact Hc |]. intros crossRule ->. reflexivity.
  - eapply Forall_impl; [exact Hr |].
    intros [[paramName field] fieldRules] Hf.
    apply flat_map_nil_intro.
    eapply Forall_impl; [exact Hf |]. intros rule ->. reflexivity.
Qed.

(** Replacing the tax rate of valid parameters by a rate the tax rules
    accept gives valid parameters: no other rule reads [tau]. *)
Lemma with_tau_valid parameters rate :
  validate parameters = [] ->
  lt rate 0 = false -> gt rate 0.99 = false -> isFinite rate = true ->
  validate (VisualizationService.with_tau parameters rate) = [].
Proof.
  intros H Hlo Hhi Hfin.
  apply validate_nil_rules in H as [Hr Hc].
  apply validate_rules_nil.
  - unfold rules in *.
    repeat match goal with
           | H : Forall _ (_ :: _) |- _ =>
               let Hx := fresh "Hx" in apply Forall_cons in H as [Hx H]
           end.
    repeat match goal with
           | |- Forall _ (_ :: _) => apply Forall_cons; split
           | |- Forall _ [] => constructor
           end; try assumption.
    cbn beta iota. unfold createTaxRateRules.
    apply Forall_cons; split; [reflexivity |].
    apply Forall_cons; split.
    { unfold createRangeRule. cbn [tau VisualizationService.with_tau].
      rewrite Hlo, Hhi. reflexivity. }
    apply Forall_cons; split; [| constructor].
    unfold createFiniteRule. cbn [tau VisualizationService.with_tau].
    rewrite Hfin. reflexivity.
  - unfold crossRules in *.
    repeat match goal with
           | H : Forall _ (_ :: _) |- _ =>
               let Hx := fresh "Hx" in apply Forall_cons in H as [Hx H]
           end.
    repeat match goal with
           | |- Forall _ (_ :: _) => apply Forall_cons; split
           | |- Forall _ [] => constructor
           end; assumption.
Qed.

Lemma taxRates_accepted rate :
  rate ∈ VisualizationService.taxRates ->
  lt rate 0 = false /\ gt rate 0.99 = false /\ isFinite rate = true.
Proof.
  unfold VisualizationService.taxRates. intros H.
  repeat (apply elem_of_cons in H as [-> | H]; [repeat split |]).
  apply elem_of_nil in H. contradiction.
Qed.

(** What a sweep that returns has done and collected. *)
Lemma sweep_Returns s parameters clock i rates data s' :
  VisualizationService.sweep s parameters clock i rates = (Returns data, s') ->
  map VisualizationService.x (VisualizationService.beforeTaxData data) = rates
  /\ map VisualizationService.x (VisualizationService.afterTaxData data) = rates
  /\ map VisualizationService.x (VisualizationService.bequestData data) = rates
  /\ map VisualizationService.y (VisualizationService.afterTaxData data)
     = zip_with (fun w rate => w * (1 - rate))
         (map VisualizationService.y (VisualizationService.beforeTaxData data))
         rates
  /\ run s (VisualizationService.sweepCalls parameters clock i rates) = Some s'.
Proof.
  revert s i data s'.
  induction rates as [| rate rates IH]; intros s i data s'; simpl.
  - intros [= <- <-]. repeat split.
  - destruct (findOptimalWealth s _ (clock i)) as [[res | e |] s1] eqn:E1;
      try discriminate.
    destruct (VisualizationService.sweep s1 parameters clock (S i) rates)
      as [[rest | e |] s2] eqn:E2; try discriminate.
    intros [= <- <-]. simpl.
    destruct (IH _ _ _ _ E2) as (H1 & H2 & H3 & H4 & H5).
    rewrite H1, H2, H3, H4. repeat split. exact H5.
Qed.

(** A sweep that throws throws what one of its calls threw. *)
Lemma sweep_Throws s parameters clock i rates e s' :
  VisualizationService.sweep s parameters clock i rates = (Throws e, s') ->
  exists rate s0 c s1,
    rate ∈ rates
    /\ findOptimalWealth s0 (VisualizationService.with_tau parameters rate) c
       = (Throws e, s1).
Proof.
  revert s i.
  induction rates as [| rate rates IH]; intros s i; simpl; [discriminate |].
  destruct (findOptimalWealth s _ (clock i)) as [[res | e1 |] s1] eqn:E1;
    try discriminate.
  - destruct (VisualizationService.sweep s1 parameters clock (S i) rates)
      as [[rest | e2 |] s2] eqn:E2; try discriminate.
    intros [= <- <-].
    destruct (IH _ _ E2) as (rate' & s0 & c & s3 & Hin & H).
    exists rate', s0, c, s3. split; [apply elem_of_cons; now right | exact H].
  - intros [= <- <-]. exists rate, s, (clock i), s1.
    split; [apply elem_of_cons; now left | exact E1].
Qed.

(** Two parameter sets that differ by more than a tenth in [tau],
    relative to the larger rate, are not similar. *)
Lemma with_tau_dissimilar parameters rate rate' :
  gt (Math_abs (rate' - rate) / Math_max rate' rate) 0.1 = true ->
  isParameterSimilar (VisualizationService.with_tau parameters rate')
    (Some (VisualizationService.with_tau parameters rate)) = false.
Proof.
  intros H. unfold isParameterSimilar, importantParams.
  cbn [forallb VisualizationService.with_tau r rho gamma eta beta tau].
  rewrite H. cbn [negb]. rewrite !andb_false_r. reflexivity.
Qed.

Lemma determineSearchSpace_cold s parameters :
  isParameterSimilar parameters (lastParameters s) = false ->
  determineSearchSpace s parameters
  = determineSearchSpace (resetWarmStart s) parameters.
Proof.
  intros H. unfold determineSearchSpace. simpl. rewrite H.
  destruct (lastOptimalResult s) as [[lastW1 lastW2] |]; [| reflexivity].
  rewrite andb_false_r. reflexivity.
Qed.

End SweepFacts.

(** X16: the three series of the tax-effect chart and table.  When the
    sweep returns, each series has one point per rate of
    [0, 0.1, ..., 0.5], in this order; the after-tax value is the
    before-tax value times [1 - tau], so that at the rate [0] the two
    coincide exactly; and the service is left as by the six calls of
    [findOptimalWealth] made one after the other. *)
Theorem tax_sweep_series {RT : Runtime}
    (s : Service) (parameters : Parameters) (clock : nat -> Clock)
    (data : VisualizationService.TaxEffect) (s' : Service) :
  VisualizationService.taxEffectData s parameters clock = (Returns data, s') ->
  map VisualizationService.x (VisualizationService.beforeTaxData data)
    = VisualizationService.taxRates
  /\ map VisualizationService.x (VisualizationService.afterTaxData data)
     = VisualizationService.taxRates
  /\ map VisualizationService.x (VisualizationService.bequestData data)
     = VisualizationService.taxRates
  /\ map VisualizationService.y (VisualizationService.afterTaxData data)
     = zip_with (fun w rate => w * (1 - rate))
         (map VisualizationService.y (VisualizationService.beforeTaxData data))
         VisualizationService.taxRates
  /\ (exists b a,
        head (VisualizationService.beforeTaxData data) = Some b
        /\ head (VisualizationService.afterTaxData data) = Some a
        /\ a = b)
  /\ run s (VisualizationService.sweepCalls parameters clock 0
              VisualizationService.taxRates) = Some s'.
Proof.
  intros H. unfold VisualizationService.taxEffectData in H.
  apply sweep_Returns in H as (H1 & H2 & H3 & H4 & H5).
  split; [exact H1 |]. split; [exact H2 |]. split; [exact H3 |].
  split; [exact H4 |]. split; [| exact H5].
  destruct (VisualizationService.beforeTaxData data) as [| [bx b_y] bs];
    [discriminate |].
  destruct (VisualizationService.afterTaxData data) as [| [ax a_y] as'];
    [discriminate |].
  exists {| VisualizationService.x := bx; VisualizationService.y := b_y |},
         {| VisualizationService.x := ax; VisualizationService.y := a_y |}.
  repeat split.
  unfold VisualizationService.taxRates in *. simpl in *.
  injection H1 as -> _. injection H2 as -> _. injection H4 as -> _.
  f_equal. change (1 - 0) with 1. apply mul_one_r.
Qed.

Lemma tax_sweep_series_witness :
  exists data,
    fst (VisualizationService.taxEffectData (RT := Reference.runtime)
           (create Scenario.coarse) DEFAULT_PARAMETERS
           (fun i => Scenario.at_time (Z.of_nat i * 10)))
    = Returns data
    /\ map VisualizationService.x (VisualizationService.beforeTaxData data)
       = VisualizationService.taxRates.
Proof.
  assert (H : exists data,
             fst (VisualizationService.taxEffectData (RT := Reference.runtime)
                    (create Scenario.coarse) DEFAULT_PARAMETERS
                    (fun i => Scenario.at_time (Z.of_nat i * 10)))
             = Returns data).
  { vm_compute. eexists. reflexivity. }
  destruct H as [data Hfst]. exists data. split; [exact Hfst |].
  exact (proj1 (tax_sweep_series (RT := Reference.runtime) _ _ _ _ _
                  (pair_of_fst _ _ Hfst))).
Defined.

(** X17: the sweep keeps valid parameters valid: replacing [tau] by any
    of the six rates passes validation again, because no rule but those
    of [tau] reads it; so a sweep over valid parameters can only fail
    with an optimisation error, never with a validation error. *)
Theorem tax_sweep_valid {RT : Runtime} (parameters : Parameters) :
  validate parameters = [] ->
  (forall rate,
     rate ∈ VisualizationService.taxRates ->
     validate (VisualizationService.with_tau parameters rate) = [])
  /\ forall s clock e s',
       VisualizationService.taxEffectData s parameters clock = (Throws e, s') ->
       exists cause, e = OptimizationError cause.
Proof.
  intros Hvalid.
  assert (Hrates : forall rate,
            rate ∈ VisualizationService.taxRates ->
            validate (VisualizationService.with_tau parameters rate) = []).
  { intros rate Hin.
    destruct (taxRates_accepted rate Hin) as (Hlo & Hhi & Hfin).
    apply with_tau_valid; assumption. }
  split; [exact Hrates |].
  intros s clock e s' H. unfold VisualizationService.taxEffectData in H.
  apply sweep_Throws in H as (rate & s0 & c & s1 & Hin & H).
  apply findOptimalWealth_Throws in H. cbv zeta in H.
  destruct H as [[Hinvalid _] | (_ & _ & _ & Hcause)]; [| exact Hcause].
  exfalso. apply Hinvalid, Hrates, Hin.
Qed.

Lemma tax_sweep_valid_witness :
  validate (VisualizationService.with_tau DEFAULT_PARAMETERS 0.3) = [].
Proof.
  apply (proj1 (tax_sweep_valid (RT := Reference.runtime) DEFAULT_PARAMETERS
                  eq_refl)).
  unfold VisualizationService.taxRates.
  do 3 (apply elem_of_cons; right). apply elem_of_cons. now left.
Defined.

(** X18: no search of a sweep warm-starts from another rate of the sweep:
    any two different rates of [0, 0.1, ..., 0.5] differ by more than the
    similarity threshold, so when the warm-start slot holds the solution
    for one rate, the search space for another rate is the cold one. *)
Theorem tax_sweep_never_warm {RT : Runtime}
    (s : Service) (parameters : Parameters) (rate rate' : float) :
  rate ∈ VisualizationService.taxRates ->
  rate' ∈ VisualizationService.taxRates ->
  strict_ne rate rate' = true ->
  lastParameters s = Some (VisualizationService.with_tau parameters rate) ->
  isParameterSimilar (VisualizationService.with_tau parameters rate')
    (lastParameters s) = false
  /\ determineSearchSpace s (VisualizationService.with_tau parameters rate')
     = determineSearchSpace (resetWarmStart s)
         (VisualizationService.with_tau parameters rate').
Proof.
  intros Hin Hin' Hne Hlast.
  assert (Hd : isParameterSimilar
                 (VisualizationService.with_tau parameters rate')
                 (lastParameters s) = false).
  { rewrite Hlast. apply with_tau_dissimilar.
    unfold VisualizationService.taxRates in *.
    repeat (apply elem_of_cons in Hin as [-> | Hin]);
      try (apply elem_of_nil in Hin; contradiction);
      repeat (apply elem_of_cons in Hin' as [-> | Hin']);
      try (apply elem_of_nil in Hin'; contradiction);
      try reflexivity; vm_compute in Hne; discriminate. }
  split; [exact Hd | apply determineSearchSpace_cold, Hd].
Qed.

Lemma tax_sweep_never_warm_witness :
  isParameterSimilar (VisualizationService.with_tau DEFAULT_PARAMETERS 0.5)
    (Some (VisualizationService.with_tau DEFAULT_PARAMETERS 0.4)) = false.
Proof.
  refine (proj1 (tax_sweep_never_warm (RT := Reference.runtime)
                   (set_warmStart (create Scenario.coarse) (Some (1.6, 2.4))
                      (Some (VisualizationService.with_tau DEFAULT_PARAMETERS 0.4)))
                   DEFAULT_PARAMETERS 0.4 0.5 _ _ _ _)).
  - unfold VisualizationService.taxRates.
    do 4 (apply elem_of_cons; right). apply elem_of_cons. now left.
  - unfold VisualizationService.taxRates.
    do 5 (apply elem_of_cons; right). apply elem_of_cons. now left.
  - vm_compute. reflexivity.
  - reflexivity.
Defined.

(* ===================================================================== *)
(** * math/UtilityFunctions.js: the paths *)
(* ===================================================================== *)

Section PathFacts.

Context {RT : Runtime}.

Lemma kappa_Return_finite_r r rho gamma k :
  kappa r rho gamma = Return k -> isFinite r = true.
Proof.
  unfold kappa. destruct (strict_eq gamma 0); [discriminate |].
  destruct (isFinite _) eqn:E; simpl; [| discriminate]. intros _.
  apply isFinite_div_inv in E. apply isFinite_add_inv in E as [E _].
  apply isFinite_mul_inv in E as [E _]. exact E.
Qed.

Lemma initialConsumption1_Value r rho gamma t1 w0 w1 c :
  initialConsumption1 r rho gamma t1 w0 w1 = Value c ->
  isFinite c = true /\ le c 0 = false.
Proof.
  unfold initialConsumption1.
  destruct (kappa r rho gamma) as [k | e]; [| discriminate].
  cbv zeta. destruct (lt _ 1e-10); [discriminate |].
  match goal with |- context [isFinite ?x] => destruct (isFinite x) eqn:E end;
    simpl; [| discriminate].
  match goal with |- context [le ?x 0] => destruct (le x 0) eqn:E0 end;
    [discriminate |].
  intros [= <-]. split; assumption.
Qed.

Lemma initialConsumption2_Value r rho gamma t2 w1 tau w2 c :
  initialConsumption2 r rho gamma t2 w1 tau w2 = Value c ->
  isFinite c = true /\ le c 0 = false.
Proof.
  unfold initialConsumption2.
  destruct (kappa r rho gamma) as [k | e]; [| discriminate].
  cbv zeta. destruct (lt _ 1e-10); [discriminate |].
  match goal with |- context [isFinite ?x] => destruct (isFinite x) eqn:E end;
    simpl; [| discriminate].
  match goal with |- context [le ?x 0] => destruct (le x 0) eqn:E0 end;
    [discriminate |].
  intros [= <-]. split; assumption.
Qed.

(** A number that is not NaN and not [<= 0] is [> 0]. *)
Lemma not_le_gt x : isNaN x = false -> le x 0 = false -> gt x 0 = true.
Proof.
  intros Hx Hle. destruct (gt x 0) eqn:E; [reflexivity |].
  rewrite (not_gt_le x 0 Hx eq_refl E) in Hle. discriminate.
Qed.

(** The shape of the wealth in a period at time [t]: what has grown from
    the initial wealth [a], less what the consumption has cost. *)
Lemma createWealthPath1_Value r rho gamma t1 w0 w1 path :
  createWealthPath1 r rho gamma t1 w0 w1 = Value path ->
  exists k c,
    kappa r rho gamma = Return k
    /\ initialConsumption1 r rho gamma t1 w0 w1 = Value c
    /\ path = fun t =>
         if lt t 0 || gt t t1 then Raise TimeOutsideRange
         else
           let result :=
             Math_exp (r * t) * w0
             - c * Math_exp (r * t) * (1 - Math_exp (- k * t)) / k in
           if negb (isFinite result) then Raise WealthNonFinite
           else Value result.
Proof.
  unfold createWealthPath1.
  destruct (kappa r rho gamma) as [k | e]; [| discriminate].
  destruct (initialConsumption1 r rho gamma t1 w0 w1) as [c | e];
    [| discriminate].
  intros [= <-]. exists k, c. repeat split.
Qed.

Lemma createWealthPath2_Value r rho gamma t2 w1 tau w2 path :
  createWealthPath2 r rho gamma t2 w1 tau w2 = Value path ->
  exists k c,
    kappa r rho gamma = Return k
    /\ initialConsumption2 r rho gamma t2 w1 tau w2 = Value c
    /\ path = fun s =>
         if lt s 0 || gt s t2 then Raise TimeOutsideRange
         else
           let result :=
             Math_exp (r * s) * w1 * (1 - tau)
             - c * Math_exp (r * s) * (1 - Math_exp (- k * s)) / k in
           if negb (isFinite result) then Raise WealthNonFinite
           else Value result.
Proof.
  unfold createWealthPath2.
  destruct (kappa r rho gamma) as [k | e]; [| discriminate].
  destruct (initialConsumption2 r rho gamma t2 w1 tau w2) as [c | e];
    [| discriminate].
  intros [= <-]. exists k, c. repeat split.
Qed.

(** At time [0] the consumption has cost nothing yet: the term
    [c exp(0) (1 - exp(0)) / k] is a zero, or NaN when [k] is. *)
Lemma consumed_at_zero c k :
  isFinite c = true ->
  Prim2SF (c * 1 * (1 - 1) / k) = S754_nan
  \/ exists sg, Prim2SF (c * 1 * (1 - 1) / k) = S754_zero sg.
Proof.
  intros Hc. rewrite mul_one_r. change (1 - 1) with 0.
  pose proof (mul_zero_r c 0 Hc eq_refl) as Hz.
  apply strict_eq_zero in Hz as [sg Hz].
  rewrite div_spec, Hz. unfold SF64div, SFdiv.
  destruct (Prim2SF k) as [sk | sk | | sk mk ek]; eauto.
Qed.

(** Subtracting a zero from [a] gives [a] back (up to the sign of zero)
    whenever the difference is finite. *)
Lemma sub_zero_finite a z :
  (Prim2SF z = S754_nan \/ exists sg, Prim2SF z = S754_zero sg) ->
  isFinite (a - z) = true -> strict_eq (a - z) a = true.
Proof.
  unfold strict_eq. rewrite isFinite_spec, FloatAxioms.eqb_spec, sub_spec.
  unfold SF64sub, SFsub, SFeqb.
  intros [-> | [sg ->]].
  - destruct (Prim2SF a); discriminate.
  - destruct (Prim2SF a) as [sa | sa | | sa ma ea]; try discriminate; intros _.
    + destruct sa, sg; reflexivity.
    + rewrite SFcompare_refl_finite. reflexivity.
Qed.

Lemma path_at_zero r k c a :
  exp_of_zero RT -> isFinite r = true -> isFinite k = true ->
  isFinite c = true ->
  let result :=
    Math_exp (r * 0) * a - c * Math_exp (r * 0) * (1 - Math_exp (- k * 0)) / k in
  isFinite result = true -> strict_eq result a = true.
Proof.
  intros Hexp Hr Hk Hc.
  rewrite (Hexp (r * 0) (mul_zero_r r 0 Hr eq_refl)).
  assert (Hk' : isFinite (- k) = true) by (rewrite isFinite_opp; exact Hk).
  rewrite (Hexp (- k * 0) (mul_zero_r (- k) 0 Hk' eq_refl)).
  rewrite mul_one_l. cbv zeta.
  apply sub_zero_finite, consumed_at_zero, Hc.
Qed.

(** Past the last time a path of a period throws. *)
Lemma plot_Raise path sample indices i e :
  i ∈ indices -> path (snd (sample i)) = Raise e ->
  exists e', VisualizationService.plot path sample indices = Raise e'.
Proof.
  intros Hin Hi.
  induction indices as [| j indices IH]; [apply elem_of_nil in Hin; contradiction |].
  simpl. destruct (sample j) as [abscissa t] eqn:Ej.
  destruct (path t) as [wealth | e1] eqn:Ep; [| eauto].
  apply elem_of_cons in Hin as [-> | Hin].
  - rewrite Ej in Hi. simpl in Hi. congruence.
  - destruct (IH Hin) as [e' ->]. eauto.
Qed.

End PathFacts.

Lemma Reference_exp_of_zero : exp_of_zero Reference.runtime.
Proof.
  intros z Hz. apply strict_eq_zero in Hz as [sg Hz].
  rewrite <- (SF2Prim_Prim2SF z), Hz. destruct sg; vm_compute; reflexivity.
Qed.

Section PathStart.

Context {RT : Runtime}.

Lemma path_at_zero_finite r k c a :
  exp_of_zero RT -> isFinite r = true -> isFinite k = true ->
  strict_eq k 0 = false -> isFinite c = true -> isFinite a = true ->
  isFinite
    (Math_exp (r * 0) * a - c * Math_exp (r * 0) * (1 - Math_exp (- k * 0)) / k)
  = true.
Proof.
  intros Hexp Hr Hk Hk0 Hc Ha.
  rewrite (Hexp (r * 0) (mul_zero_r r 0 Hr eq_refl)).
  assert (Hk' : isFinite (- k) = true) by (rewrite isFinite_opp; exact Hk).
  rewrite (Hexp (- k * 0) (mul_zero_r (- k) 0 Hk' eq_refl)).
  rewrite mul_one_l, mul_one_r. change (1 - 1) with 0.
  pose proof (mul_zero_r c 0 Hc eq_refl) as Hz.
  apply strict_eq_zero in Hz as [sg Hz].
  assert (Hk1 : exists sk mk ek, Prim2SF k = S754_finite sk mk ek).
  { rewrite isFinite_spec in Hk.
    destruct (Prim2SF k) as [sk | sk | | sk mk ek] eqn:Ek; try discriminate;
      [| eauto].
    assert (strict_eq k 0 = true) by (apply strict_eq_zero; eauto).
    congruence. }
  destruct Hk1 as (sk & mk & ek & Ek).
  rewrite isFinite_spec in Ha. rewrite isFinite_spec, sub_spec, div_spec, Hz, Ek.
  unfold SF64div, SFdiv, SF64sub, SFsub.
  destruct (Prim2SF a) as [sa | sa | | sa ma ea]; try discriminate.
  - destruct sa, (xorb sg sk); reflexivity.
  - reflexivity.
Qed.

End PathStart.

(** X19: the wealth of a period starts at the wealth the period starts
    with.  Whenever [Math.exp] maps zero to one, the function
    [createWealthPath1] returns gives a number [=== w0] at time [0], and
    the one [createWealthPath2] returns gives a number [=== w1 (1 - tau)];
    it does give a number there when the period is not negative, the
    initial wealth is finite and [kappa] is not zero. *)
Theorem wealth_paths_start {RT : Runtime}
    (r rho gamma t1 t2 w0 w1 tau w2 : float) :
  exp_of_zero RT ->
  (forall path,
     createWealthPath1 r rho gamma t1 w0 w1 = Value path ->
     (forall v, path 0 = Value v -> strict_eq v w0 = true)
     /\ (lt t1 0 = false -> isFinite w0 = true ->
         (forall k, kappa r rho gamma = Return k -> strict_eq k 0 = false) ->
         exists v, path 0 = Value v))
  /\ (forall path,
        createWealthPath2 r rho gamma t2 w1 tau w2 = Value path ->
        (forall v, path 0 = Value v -> strict_eq v (w1 * (1 - tau)) = true)
        /\ (lt t2 0 = false -> isFinite (w1 * (1 - tau)) = true ->
            (forall k, kappa r rho gamma = Return k -> strict_eq k 0 = false) ->
            exists v, path 0 = Value v)).
Proof.
  intros Hexp. split.
  - intros path H.
    apply createWealthPath1_Value in H as (k & c & Hk & Hc & ->).
    pose proof (kappa_Return_finite_r _ _ _ _ Hk) as Hr.
    pose proof (kappa_returns_finite _ _ _ _ Hk) as Hkf.
    apply initialConsumption1_Value in Hc as [Hc _].
    split.
    + intros v. destruct (lt 0 0 || gt 0 t1); [discriminate |]. cbv zeta.
      match goal with |- context [isFinite ?x] => destruct (isFinite x) eqn:E end;
        simpl; [| discriminate].
      intros [= <-]. apply path_at_zero; assumption.
    + intros Ht Hw0 Hk0. change (gt 0 t1) with (lt t1 0). rewrite Ht.
      change (lt 0 0 || false) with false. cbv zeta.
      rewrite (path_at_zero_finite r k c w0 Hexp Hr Hkf (Hk0 k Hk) Hc Hw0).
      eexists. reflexivity.
  - intros path H.
    apply createWealthPath2_Value in H as (k & c & Hk & Hc & ->).
    pose proof (kappa_Return_finite_r _ _ _ _ Hk) as Hr.
    pose proof (kappa_returns_finite _ _ _ _ Hk) as Hkf.
    apply initialConsumption2_Value in Hc as [Hc _].
    assert (Hone : Math_exp (r * 0) * w1 * (1 - tau)
                   = Math_exp (r * 0) * (w1 * (1 - tau))).
    { rewrite (Hexp (r * 0) (mul_zero_r r 0 Hr eq_refl)).
      rewrite !mul_one_l. reflexivity. }
    split.
    + intros v. destruct (lt 0 0 || gt 0 t2); [discriminate |]. cbv zeta.
      rewrite Hone.
      match goal with |- context [isFinite ?x] => destruct (isFinite x) eqn:E end;
        simpl; [| discriminate].
      intros [= <-]. apply path_at_zero; assumption.
    + intros Ht Hw Hk0. change (gt 0 t2) with (lt t2 0). rewrite Ht.
      change (lt 0 0 || false) with false. cbv zeta. rewrite Hone.
      rewrite (path_at_zero_finite r k c (w1 * (1 - tau)) Hexp Hr Hkf
                 (Hk0 k Hk) Hc Hw).
      eexists. reflexivity.
Qed.

Lemma wealth_paths_start_witness :
  match createWealthPath1 (RT := Reference.runtime) 0.06 0.04 0.7 20 1 1.6 with
  | Value path => exists v, path 0 = Value v /\ strict_eq v 1 = true
  | Raise _ => False
  end.
Proof.
  destruct (createWealthPath1 (RT := Reference.runtime) 0.06 0.04 0.7 20 1 1.6)
    as [path | e] eqn:E.
  - destruct (proj1 (wealth_paths_start (RT := Reference.runtime)
                       0.06 0.04 0.7 20 25 1 1.6 0 2.4 Reference_exp_of_zero)
                path E) as [Heq Hex].
    destruct Hex as [v Hv].
    + reflexivity.
    + reflexivity.
    + intros k Hk. vm_compute in Hk. injection Hk as <-. reflexivity.
    + exists v. split; [exact Hv | exact (Heq v Hv)].
  - assert (H : raised (createWealthPath1 (RT := Reference.runtime)
                          0.06 0.04 0.7 20 1 1.6) = false)
      by (vm_compute; reflexivity).
    rewrite E in H. discriminate.
Defined.

(** X20: the paths answer only inside their period, and only with finite
    numbers.  When [createWealthPath1] returns a function, the initial
    consumption it computed is a finite number above zero; the function
    throws "outside valid range" at every time below [0] or above the
    length of the period, and whatever it returns is a finite number at
    a time that is neither.  The same holds of [createWealthPath2]. *)
Theorem wealth_paths_range {RT : Runtime}
    (r rho gamma t1 t2 w0 w1 tau w2 : float) :
  (forall path,
     createWealthPath1 r rho gamma t1 w0 w1 = Value path ->
     (exists c, initialConsumption1 r rho gamma t1 w0 w1 = Value c
                /\ isFinite c = true /\ gt c 0 = true)
     /\ (forall t, lt t 0 = true \/ gt t t1 = true ->
                   path t = Raise TimeOutsideRange)
     /\ (forall t v, path t = Value v ->
                     lt t 0 = false /\ gt t t1 = false /\ isFinite v = true))
  /\ (forall path,
        createWealthPath2 r rho gamma t2 w1 tau w2 = Value path ->
        (exists c, initialConsumption2 r rho gamma t2 w1 tau w2 = Value c
                   /\ isFinite c = true /\ gt c 0 = true)
        /\ (forall s, lt s 0 = true \/ gt s t2 = true ->
                      path s = Raise TimeOutsideRange)
        /\ (forall s v, path s = Value v ->
                        lt s 0 = false /\ gt s t2 = false /\ isFinite v = true)).
Proof.
  split.
  - intros path H.
    apply createWealthPath1_Value in H as (k & c & Hk & Hc & ->).
    split; [| split].
    + exists c. split; [exact Hc |].
      apply initialConsumption1_Value in Hc as [Hf Hle].
      split; [exact Hf | apply not_le_gt; [apply isFinite_not_NaN, Hf | exact Hle]].
    + intros t [Ht | Ht]; rewrite Ht; [reflexivity | rewrite orb_true_r; reflexivity].
    + intros t v. destruct (lt t 0); [discriminate |].
      destruct (gt t t1); [discriminate |]. cbv zeta. simpl.
      match goal with |- context [isFinite ?x] => destruct (isFinite x) eqn:E end;
        simpl; [| discriminate].
      intros [= <-]. repeat split. exact E.
  - intros path H.
    apply createWealthPath2_Value in H as (k & c & Hk & Hc & ->).
    split; [| split].
    + exists c. split; [exact Hc |].
      apply initialConsumption2_Value in Hc as [Hf Hle].
      split; [exact Hf | apply not_le_gt; [apply isFinite_not_NaN, Hf | exact Hle]].
    + intros t [Ht | Ht]; rewrite Ht; [reflexivity | rewrite orb_true_r; reflexivity].
    + intros t v. destruct (lt t 0); [discriminate |].
      destruct (gt t t2); [discriminate |]. cbv zeta. simpl.
      match goal with |- context [isFinite ?x] => destruct (isFinite x) eqn:E end;
        simpl; [| discriminate].
      intros [= <-]. repeat split. exact E.
Qed.

Lemma wealth_paths_range_witness :
  match createWealthPath1 (RT := Reference.runtime) 0.06 0.04 0.7 20 1 1.6 with
  | Value path => path 21 = Raise TimeOutsideRange
  | Raise _ => False
  end.
Proof.
  destruct (createWealthPath1 (RT := Reference.runtime) 0.06 0.04 0.7 20 1 1.6)
    as [path | e] eqn:E.
  - apply (proj1 (proj2 (proj1 (wealth_paths_range (RT := Reference.runtime)
                                  0.06 0.04 0.7 20 25 1 1.6 0 2.4) path E))).
    right. reflexivity.
  - assert (H : raised (createWealthPath1 (RT := Reference.runtime)
                          0.06 0.04 0.7 20 1 1.6) = false)
      by (vm_compute; reflexivity).
    rewrite E in H. discriminate.
Defined.

(** X21: the wealth-trajectory chart cannot be drawn when
    [(t1 / 100) * 100] exceeds [t1], as it does in binary64 for [t1 = 7]:
    the last sample time of the first period is then outside the range
    of the path, which throws, so that the chart fails for every service
    and every solution. *)
Theorem wealth_trajectory_overshoots {RT : Runtime}
    (s : Service) (parameters : Parameters) (clock : Clock) :
  gt (t1 parameters / of_nat VisualizationService.numPoints
      * of_nat VisualizationService.numPoints) (t1 parameters) = true ->
  forall chart,
    fst (VisualizationService.wealthTrajectoryData s parameters clock)
    <> VisualizationService.Drawn chart.
Proof.
  intros Hover chart. unfold VisualizationService.wealthTrajectoryData. cbv zeta.
  destruct (findOptimalWealth s parameters clock) as [[res | e |] s1];
    cbn [fst]; try discriminate.
  destruct (createWealthPath1 _ _ _ _ _ _) as [path1 | e1] eqn:E1;
    [| discriminate].
  destruct (createWealthPath2 _ _ _ _ _ _ _) as [path2 | e2]; [| discriminate].
  apply createWealthPath1_Value in E1 as (k & c & _ & _ & Hpath).
  destruct (plot_Raise path1
              (VisualizationService.preTaxSample (t1 parameters))
              (seq 0 (S VisualizationService.numPoints))
              VisualizationService.numPoints TimeOutsideRange) as [e' He'].
  - apply elem_of_seq. unfold VisualizationService.numPoints. lia.
  - rewrite Hpath. unfold VisualizationService.preTaxSample. cbn [snd].
    rewrite Hover, orb_true_r. reflexivity.
  - rewrite He'. discriminate.
Qed.

Lemma wealth_trajectory_overshoots_witness :
  match fst (VisualizationService.wealthTrajectoryData (RT := Reference.runtime)
               (create Scenario.coarse) Cases.sevenYears (Scenario.at_time 0))
  with
  | VisualizationService.Drawn _ => False
  | _ => True
  end.
Proof.
  destruct (fst (VisualizationService.wealthTrajectoryData
                   (RT := Reference.runtime) (create Scenario.coarse)
                   Cases.sevenYears (Scenario.at_time 0)))
    as [chart | e |] eqn:E; [| exact I | exact I].
  apply (wealth_trajectory_overshoots (RT := Reference.runtime)
           (create Scenario.coarse) Cases.sevenYears (Scenario.at_time 0)
           eq_refl chart E).
Defined.

(** The chart of the default parameters is drawn, with 101 points per
    period; the chart of a first period of seven years fails at its last
    sample. *)
Example wealth_trajectory_default :
  match fst (VisualizationService.wealthTrajectoryData (RT := Reference.runtime)
               (create Scenario.coarse) DEFAULT_PARAMETERS (Scenario.at_time 0))
  with
  | VisualizationService.Drawn chart =>
      (length (VisualizationService.preTaxData chart),
       length (VisualizationService.postTaxData chart))
  | _ => (0, 0)%nat
  end = (101, 101)%nat.
Proof. vm_compute. reflexivity. Qed.

Example wealth_trajectory_seven_years :
  validate Cases.sevenYears = []
  /\ fst (VisualizationService.wealthTrajectoryData (RT := Reference.runtime)
            (create Scenario.coarse) Cases.sevenYears (Scenario.at_time 0))
     = VisualizationService.Failed
         (VisualizationService.FromPath TimeOutsideRange).
Proof. split; vm_compute; reflexivity. Qed.

(* ===================================================================== *)
(** * math/MathCache.js: properties *)
(* ===================================================================== *)

Section MathCacheFacts.

Context {K : Type} `{Countable K} {V : Type}.

Implicit Types (c : MathCache.MathCache K V) (key : K) (order : list K).

Lemma forget_cons k order key :
  MathCache.forget (k :: order) key
  = if decide (k = key) then order else k :: MathCache.forget order key.
Proof.
  unfold MathCache.forget. simpl.
  destruct (decide (k = key)); [reflexivity |].
  destruct (MathCache.indexOf order key); reflexivity.
Qed.

Lemma forget_nil key : MathCache.forget [] key = [].
Proof. reflexivity. Qed.

Lemma elem_of_forget order key x :
  x ∈ MathCache.forget order key -> x ∈ order.
Proof.
  induction order as [| k order IH]; [rewrite forget_nil; trivial |].
  rewrite forget_cons. destruct (decide (k = key)).
  - intros Hx. apply elem_of_cons. now right.
  - intros Hx. apply elem_of_cons in Hx as [-> | Hx]; apply elem_of_cons;
      [now left | right; apply IH, Hx].
Qed.

Lemma elem_of_forget_ne order key x :
  x ∈ order -> x <> key -> x ∈ MathCache.forget order key.
Proof.
  induction order as [| k order IH]; [intros Hx; inversion Hx |].
  rewrite forget_cons. intros Hx Hne.
  apply elem_of_cons in Hx as [-> | Hx].
  - destruct (decide (k = key)); [contradiction | apply elem_of_cons; now left].
  - destruct (decide (k = key)); [exact Hx |].
    apply elem_of_cons. right. apply IH; assumption.
Qed.

Lemma NoDup_forget order key :
  NoDup order ->
  NoDup (MathCache.forget order key) /\ key ∉ MathCache.forget order key.
Proof.
  induction order as [| k order IH]; intros Hnd.
  - rewrite forget_nil. split; [constructor | apply not_elem_of_nil].
  - apply NoDup_cons in Hnd as [Hk Hnd]. rewrite forget_cons.
    destruct (decide (k = key)) as [-> | Hne]; [split; assumption |].
    destruct (IH Hnd) as [Hnd' Hkey]. split.
    + apply NoDup_cons. split; [| exact Hnd'].
      intros Hin. apply Hk. eapply elem_of_forget, Hin.
    + intros Hin. apply elem_of_cons in Hin as [-> | Hin]; [congruence |].
      contradiction.
Qed.

(** Putting a key in front of a consistent pair of map and list. *)
Lemma consistent_front (m : gmap K V) order key value maxSize :
  MathCache.consistent
    {| MathCache.maxSize := maxSize; MathCache.cache := m;
       MathCache.accessOrder := order |} ->
  MathCache.consistent
    {| MathCache.maxSize := maxSize;
       MathCache.cache := <[key := value]> m;
       MathCache.accessOrder :=
         key :: (if bool_decide (is_Some (m !! key))
                 then MathCache.forget order key else order) |}.
Proof.
  unfold MathCache.consistent. simpl. intros [Hnd Hiff].
  assert (Hrest : NoDup (if bool_decide (is_Some (m !! key))
                         then MathCache.forget order key else order)
                  /\ key ∉ (if bool_decide (is_Some (m !! key))
                            then MathCache.forget order key else order)).
  { destruct (bool_decide (is_Some (m !! key))) eqn:E.
    - apply NoDup_forget, Hnd.
    - split; [exact Hnd |]. apply bool_decide_eq_false in E.
      intros Hin. apply E, Hiff, Hin. }
  destruct Hrest as [Hnd' Hkey]. split.
  - apply NoDup_cons. split; assumption.
  - intros x. rewrite elem_of_cons.
    destruct (decide (x = key)) as [-> | Hne].
    + rewrite lookup_insert_eq. split; [eauto | now left].
    + rewrite lookup_insert_ne by congruence. split.
      * intros [Heq | Hin]; [contradiction |]. apply Hiff.
        destruct (bool_decide (is_Some (m !! key)));
          [eapply elem_of_forget, Hin | exact Hin].
      * intros Hin. apply Hiff in Hin. right.
        destruct (bool_decide (is_Some (m !! key)));
          [apply elem_of_forget_ne; assumption | exact Hin].
Qed.

(** Dropping the least recently used key of a consistent pair. *)
Lemma consistent_drop_last (m : gmap K V) order oldest maxSize :
  MathCache.consistent
    {| MathCache.maxSize := maxSize; MathCache.cache := m;
       MathCache.accessOrder := order |} ->
  last order = Some oldest ->
  MathCache.consistent
    {| MathCache.maxSize := maxSize;
       MathCache.cache := delete oldest m;
       MathCache.accessOrder := removelast order |}.
Proof.
  unfold MathCache.consistent. simpl. intros [Hnd Hiff] Hl.
  apply last_Some in Hl as [l' ->]. rewrite removelast_last.
  apply NoDup_app in Hnd as (Hnd & Hdisj & _). split; [exact Hnd |].
  intros x. split.
  - intros Hin.
    assert (x <> oldest).
    { intros ->. apply (Hdisj oldest Hin). apply list_elem_of_singleton.
      reflexivity. }
    rewrite lookup_delete_ne by congruence.
    apply Hiff. apply elem_of_app. now left.
  - intros [v Hv]. apply lookup_delete_Some in Hv as [Hne Hv].
    assert (Hin : x ∈ l' ++ [oldest]) by (apply Hiff; eauto).
    apply elem_of_app in Hin as [Hin | Hin]; [exact Hin |].
    apply list_elem_of_singleton in Hin. congruence.
Qed.

Lemma consistent_set c key value :
  MathCache.consistent c -> MathCache.consistent (MathCache.set c key value).
Proof.
  intros Hc. unfold MathCache.set.
  destruct ((MathCache.maxSize c <=? size (MathCache.cache c))%nat
            && negb (MathCache.has c key)).
  - destruct (last (MathCache.accessOrder c)) as [oldest |] eqn:El.
    + apply (consistent_front _ _ key value (MathCache.maxSize c)).
      apply consistent_drop_last; [| exact El]. destruct c; exact Hc.
    + apply (consistent_front _ _ key value (MathCache.maxSize c)).
      destruct c; exact Hc.
  - apply (consistent_front _ _ key value (MathCache.maxSize c)).
    destruct c; exact Hc.
Qed.

Lemma consistent_getOrCompute c key computeFn :
  MathCache.consistent c ->
  MathCache.consistent (snd (MathCache.getOrCompute c key computeFn)).
Proof.
  intros Hc. unfold MathCache.getOrCompute.
  destruct (MathCache.cache c !! key) as [value |] eqn:E; simpl;
    [| apply consistent_set, Hc].
  pose proof (consistent_front (MathCache.cache c) (MathCache.accessOrder c)
                key value (MathCache.maxSize c)) as Hf.
  rewrite (insert_id _ _ _ E) in Hf.
  rewrite (bool_decide_eq_true_2 _ (ltac:(eauto) : is_Some (MathCache.cache c !! key)))
    in Hf.
  apply Hf. destruct c; exact Hc.
Qed.

Lemma consistent_size c :
  MathCache.consistent c ->
  size (MathCache.cache c) = length (MathCache.accessOrder c).
Proof.
  intros [Hnd Hiff].
  rewrite <- size_dom.
  assert (Hdom : dom (MathCache.cache c)
                 = list_to_set (MathCache.accessOrder c) :> gset K).
  { apply set_eq. intros x.
    rewrite elem_of_dom, elem_of_list_to_set. symmetry. apply Hiff. }
  rewrite Hdom. apply size_list_to_set, Hnd.
Qed.

Lemma size_set c key value :
  MathCache.consistent c ->
  (size (MathCache.cache c) <= Nat.max (MathCache.maxSize c) 1)%nat ->
  (size (MathCache.cache (MathCache.set c key value))
   <= Nat.max (MathCache.maxSize c) 1)%nat.
Proof.
  intros Hc Hb.
  pose proof (consistent_size c Hc) as Hsize.
  unfold MathCache.set, MathCache.has.
  destruct (MathCache.maxSize c <=? size (MathCache.cache c))%nat eqn:Efull;
    simpl.
  - destruct (bool_decide (is_Some (MathCache.cache c !! key))) eqn:Ehas; simpl.
    + apply bool_decide_eq_true in Ehas as [v Hv].
      rewrite map_size_insert_Some by eauto. exact Hb.
    + apply bool_decide_eq_false in Ehas.
      destruct (last (MathCache.accessOrder c)) as [oldest |] eqn:El; simpl.
      * assert (Hold : is_Some (MathCache.cache c !! oldest)).
        { apply Hc. apply last_Some in El as [l' ->].
          apply elem_of_app. right. apply list_elem_of_singleton. reflexivity. }
        destruct Hold as [v Hv].
        pose proof (map_size_delete_Some oldest (MathCache.cache c)
                      (ex_intro _ v Hv)) as Hdel.
        destruct (delete oldest (MathCache.cache c) !! key) eqn:Ek.
        -- rewrite map_size_insert_Some by eauto. lia.
        -- rewrite map_size_insert_None by exact Ek. lia.
      * apply last_None in El. rewrite El in Hsize. simpl in Hsize.
        apply map_size_empty_inv in Hsize.
        rewrite Hsize. rewrite map_size_insert_None by apply lookup_empty.
        rewrite map_size_empty. lia.
  - apply Nat.leb_gt in Efull.
    destruct (MathCache.cache c !! key) eqn:Ek.
    + rewrite map_size_insert_Some by eauto. exact Hb.
    + rewrite map_size_insert_None by exact Ek. lia.
Qed.

Lemma maxSize_set c key value :
  MathCache.maxSize (MathCache.set c key value) = MathCache.maxSize c.
Proof.
  unfold MathCache.set.
  destruct (_ && _); [destruct (last _) |]; reflexivity.
Qed.

Lemma maxSize_apply c op :
  MathCache.maxSize (MathCache.apply c op) = MathCache.maxSize c.
Proof.
  destruct op as [key computeFn | key value |]; simpl;
    [| apply maxSize_set | reflexivity].
  unfold MathCache.getOrCompute.
  destruct (MathCache.cache c !! key); simpl; [reflexivity | apply maxSize_set].
Qed.

Lemma invariant_apply c op :
  MathCache.consistent c
  /\ (size (MathCache.cache c) <= Nat.max (MathCache.maxSize c) 1)%nat ->
  MathCache.consistent (MathCache.apply c op)
  /\ (size (MathCache.cache (MathCache.apply c op))
      <= Nat.max (MathCache.maxSize (MathCache.apply c op)) 1)%nat.
Proof.
  intros [Hc Hb]. rewrite maxSize_apply.
  destruct op as [key computeFn | key value |]; simpl.
  - split; [apply consistent_getOrCompute, Hc |].
    unfold MathCache.getOrCompute.
    destruct (MathCache.cache c !! key); simpl; [exact Hb |].
    apply size_set; assumption.
  - split; [apply consistent_set, Hc | apply size_set; assumption].
  - split.
    + split; simpl; [constructor |].
      intros x. rewrite lookup_empty. split; [intros Hx; inversion Hx |].
      intros [v Hv]. discriminate.
    + rewrite map_size_empty. lia.
Qed.

Lemma getOrCompute_lookup c key computeFn :
  MathCache.cache (snd (MathCache.getOrCompute c key computeFn)) !! key
  = Some (fst (MathCache.getOrCompute c key computeFn)).
Proof.
  unfold MathCache.getOrCompute.
  destruct (MathCache.cache c !! key) as [value |] eqn:E; simpl; [exact E |].
  unfold MathCache.set.
  destruct (_ && _); [destruct (last _) |]; simpl; apply lookup_insert_eq.
Qed.

End MathCacheFacts.

(** X22: the invariant of a [MathCache].  After any sequence of
    [getOrCompute], [set] and [clear] calls on a new cache the map and
    the access list hold the same keys, each key once in the list; hence
    the map has as many entries as the list, and at most [maxSize] of
    them (one, when [maxSize] is [0]). *)
Theorem MathCache_invariant {K : Type} `{Countable K} {V : Type}
    (maxSize : nat) (ops : list (MathCache.Op K V)) :
  let c := MathCache.applyAll (MathCache.create maxSize) ops in
  MathCache.consistent c
  /\ size (MathCache.cache c) = length (MathCache.accessOrder c)
  /\ (size (MathCache.cache c) <= Nat.max maxSize 1)%nat.
Proof.
  intros c.
  assert (Hinv : (MathCache.consistent c
                  /\ (size (MathCache.cache c)
                      <= Nat.max (MathCache.maxSize c) 1)%nat)
                 /\ MathCache.maxSize c = maxSize).
  { subst c. unfold MathCache.applyAll.
    apply (fold_left_invariant
             (fun c => (MathCache.consistent c
                        /\ (size (MathCache.cache c)
                            <= Nat.max (MathCache.maxSize c) 1)%nat)
                       /\ MathCache.maxSize c = maxSize)).
    - split; [split |]; simpl; [| rewrite map_size_empty; lia | reflexivity].
      split; simpl; [constructor |].
      intros x. rewrite lookup_empty. split; [intros Hx; inversion Hx |].
      intros [v Hv]. discriminate.
    - intros c0 op [Hc Hm]. split; [apply invariant_apply, Hc |].
      rewrite maxSize_apply. exact Hm. }
  destruct Hinv as [[Hc Hb] Hm]. rewrite Hm in Hb.
  split; [exact Hc |]. split; [apply consistent_size, Hc | exact Hb].
Qed.

(** X23: [getOrCompute] memoises: a second call with the same key
    returns what the first call returned, without calling its compute
    function, whatever the capacity is. *)
Theorem MathCache_memoises {K : Type} `{Countable K} {V : Type}
    (c : MathCache.MathCache K V) (key : K) (first second : unit -> V) :
  let after := snd (MathCache.getOrCompute c key first) in
  fst (MathCache.getOrCompute after key second)
    = fst (MathCache.getOrCompute c key first)
  /\ MathCache.cache (snd (MathCache.getOrCompute after key second))
     = MathCache.cache after.
Proof.
  intros after.
  pose proof (getOrCompute_lookup c key first) as Hl. fold after in Hl.
  unfold MathCache.getOrCompute at 1 3. rewrite Hl. split; reflexivity.
Qed.

Lemma consistent_create {K : Type} `{Countable K} {V : Type} (maxSize : nat) :
  MathCache.consistent (MathCache.create (K := K) (V := V) maxSize).
Proof.
  split; simpl; [constructor |].
  intros x. rewrite lookup_empty. split; [intros Hx; inversion Hx |].
  intros [v Hv]. discriminate.
Qed.

(** X24: [set] evicts the least recently used key, and only that one.
    On a cache whose map and list are consistent, storing a key that is
    not in the cache when the cache is full drops the last key of the
    access list from the map and from the list and keeps every other
    entry; when the cache is not full nothing is dropped.  In both cases
    the new key becomes the most recently used. *)
Theorem MathCache_evicts_least_recent {K : Type} `{Countable K} {V : Type}
    (c : MathCache.MathCache K V) (key : K) (value : V) :
  MathCache.consistent c ->
  MathCache.cache c !! key = None ->
  let c' := MathCache.set c key value in
  MathCache.cache c' !! key = Some value
  /\ (forall oldest,
        (MathCache.maxSize c <= size (MathCache.cache c))%nat ->
        last (MathCache.accessOrder c) = Some oldest ->
        MathCache.cache c' !! oldest = None
        /\ MathCache.accessOrder c' = key :: removelast (MathCache.accessOrder c)
        /\ forall k, k <> oldest -> k <> key ->
                     MathCache.cache c' !! k = MathCache.cache c !! k)
  /\ ((size (MathCache.cache c) < MathCache.maxSize c)%nat ->
      MathCache.accessOrder c' = key :: MathCache.accessOrder c
      /\ forall k, k <> key ->
                   MathCache.cache c' !! k = MathCache.cache c !! k).
Proof.
  intros Hc Hkey c'. subst c'. unfold MathCache.set, MathCache.has.
  rewrite Hkey.
  rewrite (bool_decide_eq_false_2 (is_Some None)) by (intros [v Hv]; discriminate).
  rewrite andb_true_r.
  split; [| split].
  - destruct (_ <=? _)%nat; [destruct (last _) |]; simpl; apply lookup_insert_eq.
  - intros oldest Hfull Hl. apply Nat.leb_le in Hfull. rewrite Hfull, Hl.
    assert (Hne : oldest <> key).
    { intros ->.
      assert (Hin : key ∈ MathCache.accessOrder c).
      { apply last_Some in Hl as [l' ->]. apply elem_of_app. right.
        apply list_elem_of_singleton. reflexivity. }
      apply Hc in Hin as [v Hv]. congruence. }
    assert (Hgone : delete oldest (MathCache.cache c) !! key = None).
    { rewrite lookup_delete_ne by congruence. exact Hkey. }
    rewrite Hgone.
    rewrite (bool_decide_eq_false_2 (is_Some None))
      by (intros [v Hv]; discriminate).
    simpl. split; [| split; [reflexivity |]].
    + rewrite lookup_insert_ne by congruence. apply lookup_delete_eq.
    + intros k Hk1 Hk2. rewrite lookup_insert_ne by congruence.
      apply lookup_delete_ne. congruence.
  - intros Hroom. apply Nat.leb_gt in Hroom. rewrite Hroom, Hkey.
    rewrite (bool_decide_eq_false_2 (is_Some None))
      by (intros [v Hv]; discriminate).
    simpl. split; [reflexivity |].
    intros k Hk. apply lookup_insert_ne. congruence.
Qed.

Lemma MathCache_evicts_least_recent_witness :
  MathCache.cache
    (MathCache.set (MathCache.set (MathCache.create 1) 7%nat 70%nat) 8%nat 80%nat)
    !! 7%nat = None.
Proof.
  refine (proj1 (proj1 (proj2 (MathCache_evicts_least_recent
                                 (MathCache.set (MathCache.create 1) 7%nat 70%nat)
                                 8%nat 80%nat _ _))
                   7%nat _ _)).
  - apply consistent_set, consistent_create.
  - reflexivity.
  - vm_compute. lia.
  - reflexivity.
Defined.

(* ===================================================================== *)
(** * math/MathCache.js: the memoised [Math] functions *)
(* ===================================================================== *)

Section ExponentialCacheFacts.

Context {RT : Runtime}.

Lemma memoised_again (c : ExponentialCache.ExponentialCache) key first second :
  let after := snd (ExponentialCache.memoised c key first) in
  fst (ExponentialCache.memoised after key second)
    = fst (ExponentialCache.memoised c key first)
  /\ ExponentialCache.hits (snd (ExponentialCache.memoised after key second))
     = ExponentialCache.hits after
  /\ ExponentialCache.requests (snd (ExponentialCache.memoised after key second))
     = S (S (ExponentialCache.requests c))
  /\ ExponentialCache.precision after = ExponentialCache.precision c.
Proof.
  unfold ExponentialCache.memoised.
  pose proof (getOrCompute_lookup (ExponentialCache.base c) key first) as Hl.
  destruct (MathCache.getOrCompute (ExponentialCache.base c) key first)
    as [value b] eqn:E1.
  simpl in *.
  unfold MathCache.getOrCompute at 1 2 3. rewrite Hl. simpl.
  unfold MathCache.has. rewrite Hl.
  rewrite bool_decide_eq_true_2 by eauto. repeat split.
Qed.

End ExponentialCacheFacts.

(** X25: the memoised [exp] answers for the rounded argument: once
    [exp(a)] has been computed, [exp(b)] for any [b] that rounds to the
    same number at the cache's precision returns the value computed for
    [a], not [Math.exp(b)], and computes nothing: the counter [hits],
    which the code increments when it computes, stays as it is. *)
Theorem ExponentialCache_answers_for_rounded {RT : Runtime}
    (c : ExponentialCache.ExponentialCache) (a b : float) :
  number_token (ExponentialCache.rounded (ExponentialCache.precision c) a)
  = number_token (ExponentialCache.rounded (ExponentialCache.precision c) b) ->
  let after := snd (ExponentialCache.exp c a) in
  fst (ExponentialCache.exp after b) = fst (ExponentialCache.exp c a)
  /\ ExponentialCache.hits (snd (ExponentialCache.exp after b))
     = ExponentialCache.hits after.
Proof.
  intros Hkey after. subst after. unfold ExponentialCache.exp.
  destruct (memoised_again c
              (ExpKey (number_token
                         (ExponentialCache.rounded (ExponentialCache.precision c) a)))
              (fun _ => Math_exp a) (fun _ => Math_exp b))
    as (Hv & Hh & _ & Hp).
  cbv zeta in *. rewrite Hp, <- Hkey. split; assumption.
Qed.

Lemma ExponentialCache_answers_for_rounded_witness :
  fst (ExponentialCache.exp (RT := Reference.runtime)
         (snd (ExponentialCache.exp (RT := Reference.runtime)
                 (ExponentialCache.create 2000 6) 0))
         1e-7)
  = fst (ExponentialCache.exp (RT := Reference.runtime)
           (ExponentialCache.create 2000 6) 0).
Proof.
  apply (ExponentialCache_answers_for_rounded (RT := Reference.runtime)
           (ExponentialCache.create 2000 6) 0 1e-7).
  vm_compute. reflexivity.
Defined.

(** After [exp(0)], the memoised [exp(1e-7)] is [1], which [Math.exp]
    does not give for this argument. *)
Example memoised_exp_is_not_exp :
  fst (ExponentialCache.exp (RT := Reference.runtime)
         (snd (ExponentialCache.exp (RT := Reference.runtime)
                 (ExponentialCache.create 2000 6) 0))
         1e-7) = 1
  /\ strict_eq (Reference.exp 1e-7) 1 = false.
Proof. split; vm_compute; reflexivity. Qed.

(** A cache of two entries drops an entry that was stored last but one:
    the key of an expired entry stays in the order list, a second copy of
    it is pushed when the entry is recomputed, and the next eviction pops
    the old copy and deletes the new entry with it. *)
Example refreshed_entry_evicted :
  match run (RT := Reference.runtime) (create Cases.twoEntries)
          [CallFindOptimalWealth DEFAULT_PARAMETERS (Scenario.at_time 0);
           CallFindOptimalWealth DEFAULT_PARAMETERS (Scenario.at_time 100000);
           CallFindOptimalWealth (Cases.taxed 0.1) (Scenario.at_time 100010)]
  with
  | Some s =>
      (size (cache s),
       match cache s !! generateCacheKey DEFAULT_PARAMETERS with
       | Some _ => true
       | None => false
       end)
  | None => (0%nat, true)
  end = (1%nat, false).
Proof. vm_compute. reflexivity. Qed.

(* ===================================================================== *)
(** * utils/ParameterValidator.js and the utilities together *)
(* ===================================================================== *)

(** X14: what validation guarantees.  Parameters that [validate] accepts
    have nine finite fields ([w0] is present), within the ranges of the
    rules: in particular [gamma] and [eta] are at least [0.1] and not
    [1], [tau] is in [0, 0.99], [t1] is an integer of at least [5] and
    [t2] one of at least [1], [t1 + t2] is at most [120], and [r] is
    above [rho]. *)
Theorem validated_parameters_domain (parameters : Parameters) :
  validate parameters = [] ->
  (isFinite (r parameters) = true /\ isFinite (rho parameters) = true
   /\ isFinite (gamma parameters) = true /\ isFinite (eta parameters) = true
   /\ isFinite (beta parameters) = true /\ isFinite (tau parameters) = true
   /\ isFinite (t1 parameters) = true /\ isFinite (t2 parameters) = true)
  /\ (exists w, w0 parameters = Some w /\ isFinite w = true
                /\ lt w 0.01 = false /\ gt w 1000 = false)
  /\ (lt (gamma parameters) 0.1 = false /\ strict_eq (gamma parameters) 1 = false)
  /\ (lt (eta parameters) 0.1 = false /\ strict_eq (eta parameters) 1 = false)
  /\ (lt (tau parameters) 0 = false /\ gt (tau parameters) 0.99 = false)
  /\ (lt (t1 parameters) 5 = false /\ Number_isInteger (t1 parameters) = true)
  /\ (lt (t2 parameters) 1 = false /\ Number_isInteger (t2 parameters) = true)
  /\ gt (t1 parameters + t2 parameters) 120 = false
  /\ gt (r parameters) (rho parameters) = true.
Proof.
  intros H.
  destruct (validate_nil_domain parameters H)
    as (Hfin & Hw & Hg & He & Ht & H1 & H2 & Hsum & Hr).
  repeat (split; [assumption |]).
  destruct Hfin as (Hrf & Hrhof & _).
  destruct (gt (r parameters) (rho parameters)) eqn:E; [reflexivity |].
  rewrite (not_gt_le _ _ (isFinite_not_NaN _ Hrf) (isFinite_not_NaN _ Hrhof) E)
    in Hr.
  discriminate.
Qed.

Lemma validated_parameters_domain_witness :
  gt (r DEFAULT_PARAMETERS) (rho DEFAULT_PARAMETERS) = true.
Proof.
  exact (proj2 (proj2 (proj2 (proj2 (proj2 (proj2 (proj2 (proj2
           (validated_parameters_domain DEFAULT_PARAMETERS eq_refl))))))))).
Defined.

(** X15: for parameters that [validate] accepts, the utilities only use
    their power forms and never fail on the period or on [gamma]:
    [gamma] is neither [0] nor [1] and [eta] is not [1], so [U2] for
    either period never throws "T must be positive" nor the division
    error of [kappa], its closed form is the power form, and the bequest
    term is the power form. *)
Theorem valid_parameters_power_form {RT : Runtime} (parameters : Parameters) :
  validate parameters = [] ->
  let r := r parameters in
  let rho := rho parameters in
  let gamma := gamma parameters in
  (forall T A B,
     T = t1 parameters \/ T = t2 parameters ->
     U2 r rho gamma T A B <> Throw TimeNotPositive
     /\ U2 r rho gamma T A B <> Throw GammaZero
     /\ forall k,
          kappa r rho gamma = Return k ->
          closedForm r rho gamma T A B
          = Return
              (Math_pow (term1 r T A B) (1 - gamma) * (1 - Math_exp (- k * T))
               * Math_pow k (- gamma)
               / ((1 - gamma) * Math_pow (term2 r rho gamma T) (1 - gamma))))
  /\ forall w2,
       bequestValue (beta parameters) (eta parameters) w2
       = beta parameters
         * Math_pow (Math_max w2 1e-10) (1 - eta parameters)
         / (1 - eta parameters).
Proof.
  intros H r0 rho0 gamma0.
  destruct (validate_nil_domain parameters H)
    as (_ & _ & [Hg Hg1] & [_ He1] & _ & [H1 _] & [H2 _] & _ & _).
  assert (Hg0 : strict_eq gamma0 0 = false)
    by (apply (not_below_not_zero _ 0.1); [reflexivity | exact Hg]).
  assert (Ht1 : le (t1 parameters) 0 = false)
    by (apply (not_below_positive _ 5); [reflexivity | exact H1]).
  assert (Ht2 : le (t2 parameters) 0 = false)
    by (apply (not_below_positive _ 1); [reflexivity | exact H2]).
  split.
  - intros T A B HT.
    assert (HT0 : le T 0 = false) by (destruct HT as [-> | ->]; assumption).
    assert (Hk : kappa r0 rho0 gamma0 <> Throw GammaZero).
    { unfold kappa. rewrite Hg0. destruct (negb _); discriminate. }
    split; [| split].
    + intros HU. apply U2_Throw_inv in HU.
      destruct HU as [[_ HU] | [[HU _] | [HU | [[HU _] | HU]]]];
        try discriminate; [congruence |].
      destruct (kappa_errors _ _ _ _ HU); discriminate.
    + intros HU. apply U2_Throw_inv in HU.
      destruct HU as [[HU _] | [[HU _] | [HU | [[HU _] | HU]]]];
        try discriminate.
      apply Hk, HU.
    + intros k Ek. unfold closedForm. rewrite Ek.
      fold gamma0 in Hg1. rewrite Hg1. reflexivity.
  - intros w2. unfold bequestValue. rewrite He1. reflexivity.
Qed.

Lemma valid_parameters_power_form_witness :
  bequestValue (RT := Reference.runtime) 3 1.7 2
  = 3 * Reference.pow (Math_max 2 1e-10) (1 - 1.7) / (1 - 1.7).
Proof.
  exact (proj2 (valid_parameters_power_form (RT := Reference.runtime)
                  DEFAULT_PARAMETERS eq_refl) 2).
Defined.

(* ===================================================================== *)
(** * Similar parameters, and the consumption paths *)
(* ===================================================================== *)

(** X26: the similarity test of the warm start looks at [r], [rho],
    [gamma], [eta], [beta] and [tau] only: parameters that agree on
    these six are similar, however much they differ in [t1], [t2] and
    [w0]; in particular all parameters are similar to themselves. *)
Theorem similarity_ignores_horizons (params1 params2 : Parameters) :
  r params1 = r params2 -> rho params1 = rho params2 ->
  gamma params1 = gamma params2 -> eta params1 = eta params2 ->
  beta params1 = beta params2 -> tau params1 = tau params2 ->
  isParameterSimilar params1 (Some params2) = true.
Proof.
  intros Hr Hrho Hg He Hb Ht. unfold isParameterSimilar, importantParams.
  simpl. rewrite Hr, Hrho, Hg, He, Hb, Ht, !relative_change_self. reflexivity.
Qed.

Lemma similarity_ignores_horizons_witness :
  isParameterSimilar Cases.sevenYears (Some DEFAULT_PARAMETERS) = true.
Proof.
  apply similarity_ignores_horizons; reflexivity.
Defined.

Section ConsumptionPathFacts.

Context {RT : Runtime}.

Lemma growth_at_zero r rho gamma :
  exp_of_zero RT -> isFinite (r - rho) = true ->
  isNaN gamma = false -> strict_eq gamma 0 = false ->
  Math_exp ((r - rho) * 0 / gamma) = 1.
Proof.
  intros Hexp Hd Hn Hg. apply Hexp.
  pose proof (mul_zero_r (r - rho) 0 Hd eq_refl) as Hz.
  apply strict_eq_zero in Hz as [sg Hz].
  apply strict_eq_zero. rewrite div_spec, Hz. unfold SF64div, SFdiv.
  rewrite isNaN_spec in Hn.
  destruct (Prim2SF gamma) as [sy | sy | | sy my ey] eqn:Eg;
    try discriminate; eauto.
  assert (strict_eq gamma 0 = true) by (apply strict_eq_zero; eauto).
  congruence.
Qed.

End ConsumptionPathFacts.

(** X27: the consumption paths.  [createConsumptionPath2] is the same
    function as [createConsumptionPath1]; a path throws at every negative
    time and returns finite numbers only; and at time [0] it returns the
    initial consumption it was created with, whenever that is finite,
    [Math.exp] maps zero to one, [r - rho] is finite and [gamma] is a
    number other than zero. *)
Theorem consumption_paths {RT : Runtime} (r rho gamma c0 : float) :
  (forall t, createConsumptionPath2 r rho gamma c0 t
             = createConsumptionPath1 r rho gamma c0 t)
  /\ (forall t, lt t 0 = true ->
                createConsumptionPath1 r rho gamma c0 t = Raise TimeNegative)
  /\ (forall t v, createConsumptionPath1 r rho gamma c0 t = Value v ->
                  lt t 0 = false /\ isFinite v = true)
  /\ (exp_of_zero RT -> isFinite (r - rho) = true ->
      isNaN gamma = false -> strict_eq gamma 0 = false ->
      isFinite c0 = true ->
      createConsumptionPath1 r rho gamma c0 0 = Value c0).
Proof.
  split; [reflexivity |]. split; [| split].
  - intros t Ht. unfold createConsumptionPath1. rewrite Ht. reflexivity.
  - intros t v. unfold createConsumptionPath1.
    destruct (lt t 0); [discriminate |]. cbv zeta.
    match goal with |- context [isFinite ?x] => destruct (isFinite x) eqn:E end;
      simpl; [| discriminate].
    intros [= <-]. split; [reflexivity | exact E].
  - intros Hexp Hd Hn Hg Hc. unfold createConsumptionPath1.
    change (lt 0 0) with false. cbv zeta.
    rewrite (growth_at_zero r rho gamma Hexp Hd Hn Hg), mul_one_r, Hc.
    reflexivity.
Qed.

Lemma consumption_paths_witness :
  createConsumptionPath1 (RT := Reference.runtime) 0.06 0.04 0.7 0.035 0
  = Value 0.035.
Proof.
  apply (proj2 (proj2 (proj2 (consumption_paths (RT := Reference.runtime)
                                0.06 0.04 0.7 0.035))));
    [exact Reference_exp_of_zero | reflexivity ..].
Defined.

(* ===================================================================== *)
(** * services/OptimizationService.js: search space, refinement, statistics *)
(* ===================================================================== *)

Section MoreSearchFacts.

Context {RT : Runtime}.

Lemma opp_involutive x : - - x = x.
Proof.
  apply Prim2SF_inj. rewrite !opp_spec.
  destruct (Prim2SF x) as [sg | sg | | sg m e]; simpl;
    rewrite ?negb_involutive; reflexivity.
Qed.

(** The search reads the options and the warm-start slot of the service,
    and nothing else of it. *)
Lemma search_frame (s1 s2 : Service) (parameters : Parameters) :
  options s1 = options s2 ->
  lastOptimalResult s1 = lastOptimalResult s2 ->
  lastParameters s1 = lastParameters s2 ->
  performMainThreadOptimization s1 parameters
  = performMainThreadOptimization s2 parameters.
Proof.
  intros Ho Hr Hp.
  unfold performMainThreadOptimization, numericalRefinement, gridSearch,
    determineSearchSpace.
  rewrite Ho, Hr, Hp. reflexivity.
Qed.

(** When the minimizer throws, the solve returns what the grid search
    found. *)
Lemma performMainThreadOptimization_grid (s : Service)
    (parameters : Parameters) (res : MainThreadResult) :
  null_gradient_throws RT ->
  performMainThreadOptimization s parameters = Returns res ->
  let grid := gridSearch s parameters (determineSearchSpace s parameters) in
  success grid = true
  /\ res = {| m_w1 := g_w1 grid; m_w2 := g_w2 grid;
              m_utility := g_utility grid; m_iterations := 0;
              m_convergence := grid_only; m_method := grid_search;
              fallbackUsed := true |}.
Proof.
  intros Hthrows. unfold performMainThreadOptimization, numericalRefinement.
  rewrite Hthrows. cbv zeta.
  destruct (success (gridSearch s parameters (determineSearchSpace s parameters)))
    eqn:Es; [| discriminate].
  cbn [negb]. intros [= <-]. split; [reflexivity |].
  unfold gridSearch.
  destruct (outerLoop _ _ _ _) as [[[bw1 bw2] bu] ev]. reflexivity.
Qed.

End MoreSearchFacts.

(** X28: the two search spaces.  [determineSearchSpace] returns the cold
    box (centre [(0.6, 0.5) maxW1], radius [0.4]) unless a last solution
    is stored, warm starts are enabled, the parameters are similar to
    the stored ones and the stored point passes [checkConstraints] for
    the new parameters; in that case it returns the box of radius [0.2]
    centred on the stored point. *)
Theorem search_space_cases {RT : Runtime}
    (s : Service) (parameters : Parameters) :
  let M := maxW1 parameters in
  let cold :=
    {| w1Min := Math_max 0.01 (M * 0.6 * (1 - 0.4));
       w1Max := Math_min (M - 0.01) (M * 0.6 * (1 + 0.4));
       w2Min := Math_max 0.01 (M * 0.5 * (1 - 0.4));
       w2Max := Math_min (M * 0.5 * (1 + 0.4 * 2)) (M * 3);
       centerW1 := M * 0.6;
       centerW2 := M * 0.5 |} in
  determineSearchSpace (resetWarmStart s) parameters = cold
  /\ (determineSearchSpace s parameters = cold
      \/ exists lastW1 lastW2,
           lastOptimalResult s = Some (lastW1, lastW2)
           /\ warmStartEnabled (options s) = true
           /\ isParameterSimilar parameters (lastParameters s) = true
           /\ checkConstraints lastW1 lastW2 parameters = true
           /\ determineSearchSpace s parameters
              = {| w1Min := Math_max 0.01 (lastW1 * (1 - 0.2));
                   w1Max := Math_min (M - 0.01) (lastW1 * (1 + 0.2));
                   w2Min := Math_max 0.01 (lastW2 * (1 - 0.2));
                   w2Max := Math_min (lastW2 * (1 + 0.2 * 2)) (M * 3);
                   centerW1 := lastW1;
                   centerW2 := lastW2 |}).
Proof.
  intros M cold. split; [reflexivity |].
  unfold determineSearchSpace.
  destruct (lastOptimalResult s) as [[lastW1 lastW2] |]; [| left; reflexivity].
  destruct (warmStartEnabled (options s)); [| left; reflexivity].
  destruct (isParameterSimilar parameters (lastParameters s));
    [| left; reflexivity].
  destruct (checkConstraints lastW1 lastW2 parameters) eqn:Ec;
    [| left; reflexivity].
  right. exists lastW1, lastW2. repeat split. exact Ec.
Qed.

(** X29: with the minimizer as the page loads it, the solve is the grid
    search.  When [numeric.uncmin] throws on its [null] gradient, a call
    of [findOptimalWealth] that runs a search (no cache hit) returns the
    result of [gridSearch] unchanged: the best sample of the grid, which
    passes [checkConstraints], with its lifetime utility; [iterations] is
    [0], [convergence] is grid_only, [method] is grid_search and
    [usedWorker] is false. *)
Theorem solve_is_grid_search {RT : Runtime}
    (s : Service) (parameters : Parameters) (clock : Clock)
    (res : FinalResult) (s' : Service) :
  null_gradient_throws RT ->
  findOptimalWealth s parameters clock = (Returns res, s') ->
  cacheHit res = false ->
  let grid := gridSearch s parameters (determineSearchSpace s parameters) in
  success grid = true
  /\ (w1 (fields res), w2 (fields res), utility (fields res))
     = (g_w1 grid, g_w2 grid, g_utility grid)
  /\ checkConstraints (w1 (fields res)) (w2 (fields res)) parameters = true
  /\ utility (fields res)
     = utilityAt parameters (w1 (fields res)) (w2 (fields res))
  /\ iterations (fields res) = 0
  /\ convergence (fields res) = grid_only
  /\ method (fields res) = grid_search
  /\ usedWorker (fields res) = false.
Proof.
  intros Hthrows H Hmiss.
  apply findOptimalWealth_Returns in H as [_ H]. cbv zeta in H.
  destruct H as [(cached & _ & -> & _)
                | (result & computed & stored & _ & Hp & _ & -> & _)];
    [discriminate |].
  set (looked := snd (getFromCache s (generateCacheKey parameters)
                        (now_lookup clock))) in *.
  assert (Hsame : performMainThreadOptimization looked parameters
                  = performMainThreadOptimization s parameters).
  { apply search_frame.
    - apply getFromCache_options.
    - apply getFromCache_warmStart.
    - apply getFromCache_warmStart. }
  assert (Hm : exists main,
             performMainThreadOptimization s parameters = Returns main
             /\ result = {| w1 := m_w1 main; w2 := m_w2 main;
                            utility := m_utility main;
                            iterations := or_else (m_iterations main) 0;
                            convergence := m_convergence main;
                            method := m_method main;
                            calculationTime := elapsed clock;
                            usedWorker := useWebWorkers (options looked)
                                          && negb (fallbackUsed main) |}).
  { revert Hp. unfold performOptimization. rewrite Hsame.
    destruct (useWebWorkers (options looked));
      [destruct (fallbackToMainThread (options looked)) |];
      try discriminate;
      (destruct (performMainThreadOptimization s parameters)
         as [main | [errs | cause] |]; try discriminate;
       intros [= <- _]; exists main; split; reflexivity). }
  destruct Hm as (main & Hmain & ->).
  destruct (performMainThreadOptimization_grid s parameters main Hthrows Hmain)
    as [Hs ->].
  destruct (gridSearch_success s parameters
              (determineSearchSpace s parameters) Hs) as (Hc & Hu & _).
  cbv zeta. cbn [fields w1 w2 utility iterations convergence method usedWorker
                 m_w1 m_w2 m_utility m_iterations m_convergence m_method
                 fallbackUsed negb].
  split; [exact Hs |]. split; [reflexivity |]. split; [exact Hc |].
  split; [exact Hu |]. split; [reflexivity |]. split; [reflexivity |].
  split; [reflexivity | apply andb_false_r].
Qed.

Lemma solve_is_grid_search_witness :
  exists res,
    fst (findOptimalWealth (RT := Scenario.nullGradient) (create Scenario.coarse)
           DEFAULT_PARAMETERS (Scenario.at_time 0)) = Returns res
    /\ iterations (fields res) = 0
    /\ utility (fields res)
       = utilityAt (RT := Scenario.nullGradient) DEFAULT_PARAMETERS
           (w1 (fields res)) (w2 (fields res)).
Proof.
  assert (H : exists res,
             fst (findOptimalWealth (RT := Scenario.nullGradient)
                    (create Scenario.coarse) DEFAULT_PARAMETERS
                    (Scenario.at_time 0)) = Returns res
             /\ cacheHit res = false).
  { vm_compute. eexists. split; reflexivity. }
  destruct H as (res & Hfst & Hmiss). exists res. split; [exact Hfst |].
  destruct (solve_is_grid_search (RT := Scenario.nullGradient)
              _ _ _ _ _ (fun _ _ _ _ => eq_refl) (pair_of_fst _ _ Hfst) Hmiss)
    as (_ & _ & _ & Hu & Hi & _).
  split; [exact Hi | exact Hu].
Defined.

(** X30: workers are never recommended.  After any sequence of calls on
    a new service, whatever the accumulated times are,
    [calculateWorkerSpeedup] is [1] and [shouldRecommendWorkers] is
    false, because no job ever ran on a worker. *)
Theorem workers_never_recommended {RT : Runtime}
    (opts : Options) (calls : list Call) (s : Service)
    (workerTime mainThreadTime : float) :
  run (create opts) calls = Some s ->
  calculateWorkerSpeedup s workerTime mainThreadTime = 1
  /\ shouldRecommendWorkers s workerTime mainThreadTime = false.
Proof.
  intros Hrun. pose proof (run_workerJobs _ _ _ Hrun) as Hw. simpl in Hw.
  assert (Hs : calculateWorkerSpeedup s workerTime mainThreadTime = 1).
  { unfold calculateWorkerSpeedup. rewrite Hw. reflexivity. }
  split; [exact Hs |].
  unfold shouldRecommendWorkers. rewrite Hs. reflexivity.
Qed.

Lemma workers_never_recommended_witness :
  exists s,
    run (RT := Reference.runtime) (create Scenario.coarse)
      [CallFindOptimalWealth DEFAULT_PARAMETERS (Scenario.at_time 0);
       CallFindOptimalWealth (Cases.taxed 0.1) (Scenario.at_time 10)] = Some s
    /\ shouldRecommendWorkers s 0 12 = false.
Proof.
  destruct (run (RT := Reference.runtime) (create Scenario.coarse)
              [CallFindOptimalWealth DEFAULT_PARAMETERS (Scenario.at_time 0);
               CallFindOptimalWealth (Cases.taxed 0.1) (Scenario.at_time 10)])
    as [s |] eqn:E.
  - exists s. split; [reflexivity |].
    exact (proj2 (workers_never_recommended (RT := Reference.runtime)
                    _ _ _ 0 12 E)).
  - exfalso.
    assert (Hsome :
      match run (RT := Reference.runtime) (create Scenario.coarse)
              [CallFindOptimalWealth DEFAULT_PARAMETERS (Scenario.at_time 0);
               CallFindOptimalWealth (Cases.taxed 0.1) (Scenario.at_time 10)]
      with Some _ => true | None => false end = true).
    { vm_compute. reflexivity. }
    rewrite E in Hsome. discriminate.
Defined.
